(** * progress-bar: the [ProgressBar] class of [src/progress-bar.py]

    A shallow embedding of the class and of the Python primitives it uses.
    Python [int] is [Z]; Python [float] is IEEE binary64, taken from the
    executable specification [SpecFloat] of the standard library; [str] is a
    list of code points; exceptions are an explicit outcome, and a method is
    a function on the pair of the object and the outside world (clock,
    standard output, cursor), which keeps every mutation done before an
    exception is raised. *)

From Stdlib Require Import ZArith List String Ascii Bool Lia DecimalN.
From Stdlib Require Import Floats.SpecFloat.
Import ListNotations.
Local Open Scope Z_scope.

(** ** Outcomes of Python computations *)

Inductive exn : Type :=
| ValueError (msg : string)
| TypeError (msg : string)
| ZeroDivisionError
| OverflowError.

Inductive outcome (A : Type) : Type :=
| Ret (a : A)
| Raise (e : exn).
Arguments Ret {A} a.
Arguments Raise {A} e.

Definition obind {A B} (c : outcome A) (k : A -> outcome B) : outcome B :=
  match c with
  | Ret a => k a
  | Raise e => Raise e
  end.

(** ** Strings: sequences of code points *)

Definition pystr : Type := list N.

Definition lit (s : string) : pystr :=
  map N_of_ascii (list_ascii_of_string s).

Definition len (s : pystr) : Z := Z.of_nat (List.length s).

(** [n] copies of [s], none when [n <= 0]: the value of [s * n] when
    Python builds it. *)
Definition str_repeat (s : pystr) (n : Z) : pystr :=
  List.concat (repeat s (Z.to_nat n)).

(** The largest index-sized integer, [sys.maxsize] of a 64-bit build. *)
Definition PY_SSIZE_T_MAX : Z := 2 ^ 63 - 1.

(** Whether an [int] fits an index-sized integer. *)
Definition index_sized (n : Z) : bool :=
  (- PY_SSIZE_T_MAX - 1 <=? n) && (n <=? PY_SSIZE_T_MAX).

(** [s * n] as CPython evaluates it: [OverflowError] when the count does
    not fit an index-sized integer (cannot fit 'int' into an index-sized
    integer) or when the length of the result would not (repeated string is
    too long). Storage for the result is taken to be available: the model
    has no [MemoryError]. *)
Definition str_mul (s : pystr) (n : Z) : outcome pystr :=
  if negb (index_sized n) then Raise OverflowError
  else if (1 <? n) && (PY_SSIZE_T_MAX / n <? len s) then Raise OverflowError
  else Ret (str_repeat s n).

(** [s.rjust(width)]: pads with spaces on the left. *)
Definition rjust (s : pystr) (width : Z) : pystr :=
  repeat 32%N (Z.to_nat (width - len s)) ++ s.

(** [s.zfill(width)]: pads with ['0'] after a leading sign. *)
Definition zfill (s : pystr) (width : Z) : pystr :=
  let pad := repeat 48%N (Z.to_nat (width - len s)) in
  match s with
  | c :: rest =>
      if orb (N.eqb c 43) (N.eqb c 45) then c :: pad ++ rest else pad ++ s
  | [] => pad
  end.

Fixpoint uint_digits (d : Decimal.uint) : pystr :=
  match d with
  | Decimal.Nil => []
  | Decimal.D0 r => 48%N :: uint_digits r
  | Decimal.D1 r => 49%N :: uint_digits r
  | Decimal.D2 r => 50%N :: uint_digits r
  | Decimal.D3 r => 51%N :: uint_digits r
  | Decimal.D4 r => 52%N :: uint_digits r
  | Decimal.D5 r => 53%N :: uint_digits r
  | Decimal.D6 r => 54%N :: uint_digits r
  | Decimal.D7 r => 55%N :: uint_digits r
  | Decimal.D8 r => 56%N :: uint_digits r
  | Decimal.D9 r => 57%N :: uint_digits r
  end.

(** Decimal digits of a natural number, ["0"] for zero. *)
Definition nat_digits (n : Z) : pystr := uint_digits (N.to_uint (Z.to_N n)).

(** [str(n)] for an [int]. *)
Definition str_of_int (n : Z) : pystr :=
  if n <? 0 then 45%N :: nat_digits (- n) else nat_digits n.

(** ** Floats: IEEE binary64 *)

Definition float : Type := spec_float.

Definition prec : Z := 53.
Definition emax : Z := 1024.

Definition fadd : float -> float -> float := SFadd prec emax.
Definition fsub : float -> float -> float := SFsub prec emax.
Definition fmul : float -> float -> float := SFmul prec emax.
Definition fdiv : float -> float -> float := SFdiv prec emax.
Definition flt : float -> float -> bool := SFltb.
Definition fle : float -> float -> bool := SFleb.
Definition feq : float -> float -> bool := SFeqb.

(** The float nearest to an integer (round half to even). *)
Definition float_of_Z (n : Z) : float := binary_normalize prec emax n 0 false.

(** An integer as an unrounded significand with exponent 0. *)
Definition exact_int (n : Z) : float :=
  match n with
  | Z0 => S754_zero false
  | Zpos p => S754_finite false p 0
  | Zneg p => S754_finite true p 0
  end.

Definition is_zero (x : float) : bool :=
  match x with S754_zero _ => true | _ => false end.

Definition sign_of (x : float) : bool :=
  match x with
  | S754_zero s | S754_infinity s | S754_finite s _ _ => s
  | S754_nan => false
  end.

(** Conversion of an [int] operand of a float operation: [OverflowError]
    when the integer rounds outside the finite range. *)
Definition int_to_float (n : Z) : outcome float :=
  match float_of_Z n with
  | S754_infinity _ => Raise OverflowError
  | x => Ret x
  end.

(** [a / b] on two [int]s: the correctly rounded quotient. *)
Definition int_truediv (a b : Z) : outcome float :=
  if b =? 0 then Raise ZeroDivisionError
  else match fdiv (exact_int a) (exact_int b) with
       | S754_infinity _ => Raise OverflowError
       | q => Ret q
       end.

(** [x / y] on floats. *)
Definition float_truediv (x y : float) : outcome float :=
  if is_zero y then Raise ZeroDivisionError else Ret (fdiv x y).

(** Nearest integer to [n / d] for [d > 0], ties to even. *)
Definition div_half_even (n d : Z) : Z :=
  let q := n / d in
  match (2 * (n mod d)) ?= d with
  | Lt => q
  | Gt => q + 1
  | Eq => if Z.even q then q else q + 1
  end.

(** [m * 2^e * k] rounded to the nearest integer, ties to even. *)
Definition scaled_round (m : positive) (e : Z) (k : Z) : Z :=
  div_half_even (Zpos m * k * 2 ^ Z.max e 0) (2 ^ Z.max (- e) 0).

(** [m * 2^e] rounded towards zero. *)
Definition scaled_trunc (m : positive) (e : Z) : Z :=
  (Zpos m * 2 ^ Z.max e 0) / (2 ^ Z.max (- e) 0).

Definition nan_to_int : exn := ValueError "cannot convert float NaN to integer".

(** [round(x)]: to the nearest [int], ties to even. *)
Definition round_int (x : float) : outcome Z :=
  match x with
  | S754_zero _ => Ret 0
  | S754_finite s m e => Ret (cond_Zopp s (scaled_round m e 1))
  | S754_infinity _ => Raise OverflowError
  | S754_nan => Raise nan_to_int
  end.

(** [int(x)]: truncation. *)
Definition int_of_float (x : float) : outcome Z :=
  match x with
  | S754_zero _ => Ret 0
  | S754_finite s m e => Ret (cond_Zopp s (scaled_trunc m e))
  | S754_infinity _ => Raise OverflowError
  | S754_nan => Raise nan_to_int
  end.

(** [round(x, ndigits)] for [0 <= ndigits]: the decimal with [ndigits]
    places nearest to [x] (ties to even), read back as the nearest float. *)
Definition round_ndigits (x : float) (ndigits : Z) : outcome float :=
  match x with
  | S754_finite s m e =>
      let n := scaled_round m e (10 ^ ndigits) in
      if n =? 0 then Ret (S754_zero s)
      else match fdiv (exact_int (cond_Zopp s n)) (exact_int (10 ^ ndigits)) with
           | S754_infinity _ => Raise OverflowError
           | r => Ret r
           end
  | _ => Ret x
  end.

(** [f'{x:.2f}']. *)
Definition format_2f (x : float) : pystr :=
  match x with
  | S754_nan => lit "nan"
  | S754_infinity s => if s then lit "-inf" else lit "inf"
  | S754_zero s => (if s then lit "-" else []) ++ lit "0.00"
  | S754_finite s m e =>
      let n := scaled_round m e 100 in
      (if s then lit "-" else [])
        ++ nat_digits (n / 100) ++ lit "." ++ zfill (nat_digits (n mod 100)) 2
  end.

(** C [fmod]: exact, with the sign of the dividend. *)
Definition fmod (x y : float) : float :=
  match x, y with
  | S754_nan, _ | _, S754_nan => S754_nan
  | S754_infinity _, _ => S754_nan
  | _, S754_zero _ => S754_nan
  | _, S754_infinity _ => x
  | S754_zero _, _ => x
  | S754_finite sx mx ex, S754_finite _ my ey =>
      let e := Z.min ex ey in
      let r := (Zpos mx * 2 ^ (ex - e)) mod (Zpos my * 2 ^ (ey - e)) in
      if r =? 0 then S754_zero sx
      else binary_normalize prec emax (cond_Zopp sx r) e false
  end.

(** C [floor]. *)
Definition ffloor (x : float) : float :=
  match x with
  | S754_finite s m e =>
      let n := (cond_Zopp s (Zpos m) * 2 ^ Z.max e 0) / 2 ^ Z.max (- e) 0 in
      if n =? 0 then S754_zero s else float_of_Z n
  | _ => x
  end.

(** The float [//] and [%] operators, as [float_floor_div] and [float_rem]
    of CPython compute them from [fmod]. *)
Definition float_floordiv (vx wx : float) : outcome float :=
  if is_zero wx then Raise ZeroDivisionError
  else
    let mod_ := fmod vx wx in
    let div := fdiv (fsub vx mod_) wx in
    let div :=
      if negb (is_zero mod_)
         && negb (Bool.eqb (flt wx (S754_zero false)) (flt mod_ (S754_zero false)))
      then fsub div (float_of_Z 1) else div in
    if negb (is_zero div) then
      let floordiv := ffloor div in
      Ret (if flt (fdiv (float_of_Z 1) (float_of_Z 2)) (fsub div floordiv)
           then fadd floordiv (float_of_Z 1) else floordiv)
    else Ret (S754_zero (sign_of (fdiv vx wx))).

Definition float_rem (vx wx : float) : outcome float :=
  if is_zero wx then Raise ZeroDivisionError
  else
    let mod_ := fmod vx wx in
    if negb (is_zero mod_) then
      if negb (Bool.eqb (flt wx (S754_zero false)) (flt mod_ (S754_zero false)))
      then Ret (fadd mod_ wx) else Ret mod_
    else Ret (S754_zero (sign_of wx)).

(** ** Dynamically typed arguments

    The values a caller may pass to the constructor; [VOther] stands for an
    object of any other class, an instance of neither [int] nor [str]. *)

Inductive pyval : Type :=
| VNone
| VBool (b : bool)
| VInt (n : Z)
| VFloat (x : float)
| VStr (s : pystr)
| VOther.

(** Instances of [int]: [bool] is a subclass of [int]. *)
Inductive pyint : Type :=
| IntObj (n : Z)
| BoolObj (b : bool).

Definition int_value (i : pyint) : Z :=
  match i with
  | IntObj n => n
  | BoolObj b => if b then 1 else 0
  end.

Definition of_pyint (i : pyint) : pyval :=
  match i with
  | IntObj n => VInt n
  | BoolObj b => VBool b
  end.

(** [isinstance(v, int)] and [isinstance(v, str)]. *)
Definition is_int (v : pyval) : bool :=
  match v with VInt _ | VBool _ => true | _ => false end.

Definition is_str (v : pyval) : bool :=
  match v with VStr _ => true | _ => false end.

(** ** The world outside the object

    [perf_counter()] reads the next value of a clock; [print] appends one
    string to standard output; the [cursor] module switches the visibility
    of the terminal cursor. *)

Record World : Type := {
  clock : nat -> float;
  ticks : nat;
  stdout : list pystr;
  cursor_visible : bool
}.

(** [colorama.Fore]: the ANSI escape sequences of the foreground colours. *)
Module Fore.

Definition csi (code : string) : pystr := 27%N :: lit "[" ++ lit code ++ lit "m".
Definition BLACK : pystr := csi "30".
Definition RED : pystr := csi "31".
Definition GREEN : pystr := csi "32".
Definition YELLOW : pystr := csi "33".

End Fore.

(** ** The object *)

Record ProgressBar : Type := {
  _start : option float;
  _total : pyint;
  _text : pystr;
  _width : pyint;
  _progress : float;
  LAST : option float
}.

(** The initial progress, the literal [1e-12]. *)
Definition eps : float := fdiv (exact_int 1) (exact_int (10 ^ 12)).

(** *** Property setters and [__init__] *)

Definition total_setter (value : pyval) : outcome pyint :=
  match value with
  | VInt n => Ret (IntObj n)
  | VBool b => Ret (BoolObj b)
  | _ => Raise (ValueError "Total iterations must be an integer.")
  end.

Definition text_setter (value : pyval) : outcome pystr :=
  match value with
  | VStr s => Ret s
  | _ => Raise (ValueError "Text must be a string.")
  end.

(** The width setter reads [self._text], set just before in [__init__]. *)
Definition width_setter (text : pystr) (value : pyval) : outcome pyint :=
  match value with
  | VNone => Ret (IntObj (80 - (len text + 15)))
  | VInt n => Ret (IntObj n)
  | VBool b => Ret (BoolObj b)
  | _ => Raise (ValueError "Width must be an integer.")
  end.

Definition default_text : pyval := VStr (lit "Progress").

(** [ProgressBar(total, text, width)]: either a fully initialised object or
    the exception of the first failing setter. *)
Definition __init__ (total text width : pyval) : outcome ProgressBar :=
  obind (total_setter total) (fun total' =>
  obind (text_setter text) (fun text' =>
  obind (width_setter text' width) (fun width' =>
  Ret {| _start := None; _total := total'; _text := text';
         _width := width'; _progress := eps; LAST := None |}))).

(** The property getters. *)
Definition total (pb : ProgressBar) : pyval := of_pyint (_total pb).
Definition text (pb : ProgressBar) : pyval := VStr (_text pb).
Definition width (pb : ProgressBar) : pyval := of_pyint (_width pb).
Definition progress (pb : ProgressBar) : float := _progress pb.

(** ** Methods: state passing over the object and the world *)

Record Sys : Type := { self : ProgressBar; world : World }.

Definition M (A : Type) : Type := Sys -> outcome A * Sys.

Definition ret {A} (a : A) : M A := fun s => (Ret a, s).

Definition bind {A B} (c : M A) (k : A -> M B) : M B :=
  fun s =>
    match c s with
    | (Ret a, s') => k a s'
    | (Raise e, s') => (Raise e, s')
    end.

Definition lift {A} (o : outcome A) : M A := fun s => (o, s).

Declare Scope py_scope.
Delimit Scope py_scope with py.
Notation "x <- c ;; k" := (bind c (fun x => k))
  (at level 61, c at next level, right associativity) : py_scope.
Notation "c ;; k" := (bind c (fun _ => k))
  (at level 61, right associativity) : py_scope.
Local Open Scope py_scope.

Definition getattr {A} (field : ProgressBar -> A) : M A :=
  fun s => (Ret (field (self s)), s).

Definition on_self (f : ProgressBar -> ProgressBar) : M unit :=
  fun s => (Ret tt, {| self := f (self s); world := world s |}).

Definition on_world (f : World -> World) : M unit :=
  fun s => (Ret tt, {| self := self s; world := f (world s) |}).

(** Attribute assignment on the object. *)
Definition with_start (v : option float) (pb : ProgressBar) : ProgressBar :=
  {| _start := v; _total := _total pb; _text := _text pb; _width := _width pb;
     _progress := _progress pb; LAST := LAST pb |}.

Definition with_progress (v : float) (pb : ProgressBar) : ProgressBar :=
  {| _start := _start pb; _total := _total pb; _text := _text pb;
     _width := _width pb; _progress := v; LAST := LAST pb |}.

Definition with_LAST (v : option float) (pb : ProgressBar) : ProgressBar :=
  {| _start := _start pb; _total := _total pb; _text := _text pb;
     _width := _width pb; _progress := _progress pb; LAST := v |}.

Definition set_start (v : option float) : M unit := on_self (with_start v).
Definition set_progress (v : float) : M unit := on_self (with_progress v).
Definition set_LAST (v : option float) : M unit := on_self (with_LAST v).

(** Effects on the world. *)
Definition tick (w : World) : World :=
  {| clock := clock w; ticks := S (ticks w); stdout := stdout w;
     cursor_visible := cursor_visible w |}.

Definition write (s : pystr) (w : World) : World :=
  {| clock := clock w; ticks := ticks w; stdout := stdout w ++ [s];
     cursor_visible := cursor_visible w |}.

Definition with_cursor (visible : bool) (w : World) : World :=
  {| clock := clock w; ticks := ticks w; stdout := stdout w;
     cursor_visible := visible |}.

(** [time.perf_counter()]. *)
Definition perf_counter : M float :=
  fun s => (Ret (clock (world s) (ticks (world s))),
            {| self := self s; world := tick (world s) |}).

(** [print(line, end=end_)]. *)
Definition print (line end_ : pystr) : M unit := on_world (write (line ++ end_)).

(** [cursor.show()] and [cursor.hide()]. *)
Definition cursor_show : M unit := on_world (with_cursor true).
Definition cursor_hide : M unit := on_world (with_cursor false).

(** *** [update] *)

Record colors : Type := {
  c_text : pystr;
  c_progress : pystr;
  c_remaining : pystr
}.

Definition SYMBOL : pystr := [9473%N].
Definition ICON_done : pystr := [8730%N].
Definition ICON_running : pystr := lit "@".

Definition NoneType_operand : exn :=
  TypeError "unsupported operand type(s) for -: 'float' and 'NoneType'".

(** Line 178: [(elapsed / self._progress) * (1 - self._progress) + 1]. *)
Definition eta_of (elapsed p : float) : outcome float :=
  obind (float_truediv elapsed p) (fun q =>
  Ret (fadd (fmul q (fsub (float_of_Z 1) p)) (float_of_Z 1))).

(** Line 179: minutes and seconds, each [zfill(2)]. *)
Definition eta_format_of (eta : float) : outcome pystr :=
  obind (float_floordiv eta (float_of_Z 60)) (fun mf =>
  obind (int_of_float mf) (fun minutes =>
  obind (float_rem eta (float_of_Z 60)) (fun sf =>
  obind (int_of_float sf) (fun seconds =>
  Ret (zfill (str_of_int minutes) 2 ++ lit ":" ++ zfill (str_of_int seconds) 2))))).

(** Line 180. *)
Definition percentage_format_of (percentage : float) : pystr :=
  rjust (format_2f percentage) 6 ++ lit " %".

(** The f-strings of lines 183 to 188 and 193 to 197, given the two runs of
    cells [SYMBOL * completed] and [SYMBOL * remaining] they have
    evaluated. *)
Definition prefix_fstring (COLORS : colors) (ICON text : pystr)
    (filled empty : pystr) (percentage_format : pystr) : pystr :=
  lit " " ++ c_text COLORS ++ ICON ++ lit " " ++ c_text COLORS ++ text
    ++ lit " " ++ c_progress COLORS ++ filled
    ++ c_remaining COLORS ++ empty
    ++ lit " " ++ c_text COLORS ++ (lit "[" ++ percentage_format ++ lit "]").

Definition progress_fstring (COLORS : colors) (ICON text : pystr)
    (filled empty : pystr) (percentage_format eta_format : pystr) : pystr :=
  prefix_fstring COLORS ICON text filled empty percentage_format
    ++ lit " " ++ c_text COLORS ++ lit "ETA: " ++ eta_format.

Definition done_fstring (COLORS : colors) (ICON text : pystr)
    (filled empty : pystr) (percentage_format : pystr) (elapsed : float) : pystr :=
  prefix_fstring COLORS ICON text filled empty percentage_format
    ++ lit " " ++ c_text COLORS ++ lit "Elapsed: " ++ format_2f elapsed ++ lit "s".

(** The same texts for given numbers of filled and empty cells. *)
Definition line_prefix (COLORS : colors) (ICON text : pystr)
    (completed remaining : Z) (percentage_format : pystr) : pystr :=
  prefix_fstring COLORS ICON text (str_repeat SYMBOL completed)
    (str_repeat SYMBOL remaining) percentage_format.

Definition progress_line (COLORS : colors) (ICON text : pystr)
    (completed remaining : Z) (percentage_format eta_format : pystr) : pystr :=
  line_prefix COLORS ICON text completed remaining percentage_format
    ++ lit " " ++ c_text COLORS ++ lit "ETA: " ++ eta_format.

Definition done_line (COLORS : colors) (ICON text : pystr)
    (completed remaining : Z) (percentage_format : pystr) (elapsed : float) : pystr :=
  line_prefix COLORS ICON text completed remaining percentage_format
    ++ lit " " ++ c_text COLORS ++ lit "Elapsed: " ++ format_2f elapsed ++ lit "s".

Definition CR : pystr := [13%N].
Definition LF : pystr := [10%N].

Definition is_done (p : float) : bool := feq p (float_of_Z 1).

(** Lines 159 to 201, with the values computed at lines 146 to 152. The
    argument of [print] is evaluated first: [SYMBOL * completed] and then
    [SYMBOL * remaining] may raise, in which case nothing is printed. *)
Definition display (percentage : float) (completed remaining : Z) : M unit :=
  p <- getattr _progress ;;
  let ICON := if is_done p then ICON_done else ICON_running in
  let COLORS :=
    {| c_text := if is_done p then Fore.GREEN else Fore.RED;
       c_progress := if is_done p then Fore.GREEN else Fore.YELLOW;
       c_remaining := Fore.BLACK |} in
  (if is_done p then cursor_show else cursor_hide) ;;
  now <- perf_counter ;;
  start <- getattr _start ;;
  elapsed <- lift (match start with
                   | Some t0 => Ret (fsub now t0)
                   | None => Raise NoneType_operand
                   end) ;;
  eta <- lift (eta_of elapsed p) ;;
  eta_format <- lift (eta_format_of eta) ;;
  let percentage_format := percentage_format_of percentage in
  text <- getattr _text ;;
  (if flt p (float_of_Z 1)
   then filled <- lift (str_mul SYMBOL completed) ;;
        empty <- lift (str_mul SYMBOL remaining) ;;
        print (progress_fstring COLORS ICON text filled empty
                 percentage_format eta_format) CR
   else filled <- lift (str_mul SYMBOL completed) ;;
        empty <- lift (str_mul SYMBOL remaining) ;;
        print (done_fstring COLORS ICON text filled empty
                 percentage_format elapsed) LF) ;;
  last <- perf_counter ;;
  set_LAST (Some last).

Definition update (current : Z) : M unit :=
  start <- getattr _start ;;
  (match start with
   | None => t <- perf_counter ;; set_start (Some t)
   | Some _ => ret tt
   end) ;;
  total <- getattr _total ;;
  q <- lift (int_truediv current (int_value total)) ;;
  set_progress q ;;
  p <- getattr _progress ;;
  width <- getattr _width ;;
  percentage <- lift (round_ndigits (fmul p (float_of_Z 100)) 4) ;;
  wf <- lift (int_to_float (int_value width)) ;;
  completed <- lift (round_int (fmul p wf)) ;;
  let remaining := int_value width - completed in
  let percentage :=
    if fle percentage (float_of_Z 100) then percentage else float_of_Z 100 in
  if flt p (float_of_Z 0) then
    set_progress eps ;; display percentage completed remaining
  else if flt (float_of_Z 1) p then ret tt
  else display percentage completed remaining.

(** *** The property setters on an object, and the timing properties *)

Definition with_total (v : pyint) (pb : ProgressBar) : ProgressBar :=
  {| _start := _start pb; _total := v; _text := _text pb; _width := _width pb;
     _progress := _progress pb; LAST := LAST pb |}.

Definition with_text (v : pystr) (pb : ProgressBar) : ProgressBar :=
  {| _start := _start pb; _total := _total pb; _text := v; _width := _width pb;
     _progress := _progress pb; LAST := LAST pb |}.

Definition with_width (v : pyint) (pb : ProgressBar) : ProgressBar :=
  {| _start := _start pb; _total := _total pb; _text := _text pb; _width := v;
     _progress := _progress pb; LAST := LAST pb |}.

(** [self.total = value], [self.text = value] and [self.width = value]:
    the setters of lines 54 to 96 run on an object. *)
Definition assign_total (value : pyval) : M unit :=
  v <- lift (total_setter value) ;; on_self (with_total v).

Definition assign_text (value : pyval) : M unit :=
  v <- lift (text_setter value) ;; on_self (with_text v).

Definition assign_width (value : pyval) : M unit :=
  label <- getattr _text ;;
  v <- lift (width_setter label value) ;; on_self (with_width v).

(** Line 116: the [elapsed] property, [perf_counter() - self._start]. *)
Definition elapsed : M float :=
  now <- perf_counter ;;
  start <- getattr _start ;;
  lift (match start with
        | Some t0 => Ret (fsub now t0)
        | None => Raise NoneType_operand
        end).

(** Lines 126 and 127: the [remaining] property. *)
Definition remaining : M float :=
  now <- perf_counter ;;
  start <- getattr _start ;;
  since <- lift (match start with
                 | Some t0 => Ret (fsub now t0)
                 | None => Raise NoneType_operand
                 end) ;;
  p <- getattr _progress ;;
  lift (eta_of since p).

(** *** The module run as a script, lines 204 to 211 *)

(** [time.sleep]: the time that passes shows in the later clock readings. *)
Definition sleep (secs : float) : M unit := ret tt.

(** [range(n)]. *)
Definition range (n : nat) : list Z := map Z.of_nat (seq 0 n).

(** A [for] loop over a list. *)
Fixpoint for_each {A} (l : list A) (body : A -> M unit) : M unit :=
  match l with
  | [] => ret tt
  | x :: rest => body x ;; for_each rest body
  end.

Definition main (w : World) : outcome unit * World :=
  match __init__ (VInt 90) (VStr (lit "Progress")) VNone with
  | Raise e => (Raise e, w)
  | Ret pb =>
      let r := for_each (range 101)
                 (fun i => update i ;; sleep (fdiv (float_of_Z 1) (float_of_Z 10)))
                 {| self := pb; world := w |} in
      (fst r, world (snd r))
  end.

(** ** Notions used in the statements *)

(** Number of binary digits of a significand. *)
Definition dg (m : Z) : Z := Zdigits2 m.

(** The exponent binary64 allots to a number below [2^e]. *)
Definition fexp64 (e : Z) : Z := Z.max (e - 53) (-1074).

(** A zero, or a finite float in canonical form below [2^B] in magnitude. *)
Definition fin (x : float) (B : Z) : Prop :=
  match x with
  | S754_zero _ => True
  | S754_finite _ m e => bounded prec emax m e = true /\ Zpos (digits2_pos m) + e <= B
  | _ => False
  end.

(** A float that is not a NaN: a zero, an infinity or a canonical finite
    float. *)
Definition number (x : float) : Prop :=
  match x with
  | S754_nan => False
  | S754_finite _ m e => bounded prec emax m e = true
  | _ => True
  end.

(** The clock of the platform: [perf_counter()] returns finite readings,
    below [2^64] seconds in magnitude. *)
Definition sane_clock (w : World) : Prop := forall n, fin (clock w n) 64.

(** A start time recorded by an earlier call is such a reading. *)
Definition sane_start (pb : ProgressBar) : Prop :=
  match _start pb with
  | Some t0 => fin t0 64
  | None => True
  end.

(** The object and the world after lines 141 and 142. *)
Definition started (pb : ProgressBar) (w : World) : Sys :=
  match _start pb with
  | Some _ => {| self := pb; world := w |}
  | None => {| self := with_start (Some (clock w (ticks w))) pb; world := tick w |}
  end.

(** The start time all elapsed times of a call are measured from. *)
Definition start_time (pb : ProgressBar) (w : World) : float :=
  match _start pb with
  | Some t0 => t0
  | None => clock w (ticks w)
  end.

(** The [COLORS] dictionary of line 161 at a stored fraction. *)
Definition palette (p : float) : colors :=
  {| c_text := if is_done p then Fore.GREEN else Fore.RED;
     c_progress := if is_done p then Fore.GREEN else Fore.YELLOW;
     c_remaining := Fore.BLACK |}.

(** The [ICON] of line 160 at a stored fraction. *)
Definition icon (p : float) : pystr := if is_done p then ICON_done else ICON_running.

(** Line 152: the displayed percentage is at most 100. *)
Definition clamp (percentage : float) : float :=
  if fle percentage (float_of_Z 100) then percentage else float_of_Z 100.


Definition running_colors : colors :=
  {| c_text := Fore.RED; c_progress := Fore.YELLOW; c_remaining := Fore.BLACK |}.

(** The characters [0] to [9]. *)
Definition is_digit (c : N) : Prop := (48 <= c <= 57)%N.

(** Checks that a number is padded to exactly two decimal digits. *)
Definition two_digit_check (k : Z) : bool :=
  match zfill (nat_digits k) 2 with
  | [d1; d2] => ((48 <=? d1) && (d1 <=? 57) && (48 <=? d2) && (d2 <=? 57))%N
  | _ => false
  end.

(** The fraction and the displayed percentage of [update(i)] on a total of
    100, as lines 144 to 152 compute them. *)
Definition fraction_of (i : Z) : outcome float := int_truediv i 100.

Definition percentage_of (i : Z) : outcome float :=
  obind (fraction_of i) (fun q =>
  obind (round_ndigits (fmul q (float_of_Z 100)) 4) (fun p => Ret (clamp p))).

Definition hundred_check (i : Z) : bool :=
  match fraction_of i, percentage_of i, percentage_of (i + 1) with
  | Ret q, Ret p, Ret p' => negb (feq q (float_of_Z 1)) && fle p p'
  | _, _, _ => false
  end.

(** The in-progress line in the words of the specification: the bracketed
    percentage is followed at once by ["%]"]. *)
Definition spec_progress_line (glyph label filled empty percentage mmss : pystr) : pystr :=
  lit " " ++ glyph ++ lit " " ++ label ++ lit " " ++ filled ++ empty ++ lit " "
    ++ lit "[" ++ percentage ++ lit "%]" ++ lit " " ++ lit "ETA: " ++ mmss.

(** The text left when the colour escape sequences (from ESC to ['m']) are
    taken out. *)
Fixpoint strip_ansi_from (in_escape : bool) (s : pystr) : pystr :=
  match s with
  | [] => []
  | c :: rest =>
      if in_escape then strip_ansi_from (negb (N.eqb c 109)) rest
      else if N.eqb c 27 then strip_ansi_from true rest
      else c :: strip_ansi_from false rest
  end.

Definition strip_ansi (s : pystr) : pystr := strip_ansi_from false s.

(** Whether the bits shifted out of a significand were not all zero. *)
Definition inexact (mrs : shr_record) : bool := shr_r mrs || shr_s mrs.

(** The value of a finite float in units of [2^-1074], the spacing of the
    smallest binary64 numbers: an integer for every float in canonical
    form. *)
Definition ulps (x : float) : Z :=
  match x with
  | S754_finite s m e => cond_Zopp s (Zpos m * 2 ^ (e + 1074))
  | _ => 0
  end.

(** A float that is not negative: a zero, or a positive number or
    infinity. *)
Definition not_negative (x : float) : Prop :=
  match x with
  | S754_nan => False
  | S754_zero _ => True
  | S754_infinity s | S754_finite s _ _ => s = false
  end.

(** The widest bar the statements about a printed line consider: [2^20]
    cells. A run of that many cells is far inside the index-sized integers,
    and the line takes a few megabytes. *)
Definition max_cells : Z := 2 ^ 20.


(** A clock whose readings never decrease, as [perf_counter] promises, and
    a start time that is not later than the next reading. *)
Definition monotone_clock (w : World) : Prop :=
  forall n, fle (clock w n) (clock w (S n)) = true.

Definition start_in_the_past (pb : ProgressBar) (w : World) : Prop :=
  match _start pb with
  | Some t0 => fle t0 (clock w (ticks w)) = true
  | None => True
  end.


(** ** Objects of the demonstrations *)

(** A clock that returns the readings of a list, then zero. *)
Definition readings (l : list float) : nat -> float :=
  fun n => nth n l (S754_zero false).

(** Readings 0.0, 0.1, ..., 0.9 seconds. *)
Definition tenths : list float :=
  map (fun k => fdiv (float_of_Z k) (float_of_Z 10)) [0; 1; 2; 3; 4; 5; 6; 7; 8; 9].

Definition demo_world : World :=
  {| clock := readings tenths; ticks := 0; stdout := []; cursor_visible := true |}.

(** A clock that reads 0.0, 0.1, ..., 0.9 seconds and then stays at 0.9:
    its readings never decrease. *)
Definition steady_world : World :=
  {| clock := fun n => nth n tenths (fdiv (float_of_Z 9) (float_of_Z 10));
     ticks := 0; stdout := []; cursor_visible := true |}.


(** [ProgressBar(total)]. *)
Definition fresh (total : Z) : ProgressBar :=
  {| _start := None; _total := IntObj total; _text := lit "Progress";
     _width := IntObj 57; _progress := eps; LAST := None |}.

(** A bar too wide for its width to convert to a float. *)
Definition wide (total : Z) : ProgressBar :=
  {| _start := None; _total := IntObj total; _text := lit "Progress";
     _width := IntObj (2 ^ 1024); _progress := eps; LAST := None |}.

(** A bar whose width, [2^63], converts to a float but is not an
    index-sized integer. *)
Definition long_bar (total : Z) : ProgressBar :=
  {| _start := None; _total := IntObj total; _text := lit "Progress";
     _width := IntObj (2 ^ 63); _progress := eps; LAST := None |}.

(** The floats [11 / 10] and [-1 / 10]. *)
Definition f11_10 : float := S754_finite false 4953959590107546 (-52).


(** The line printed by the demonstration call [update(50)] of 100. *)
Definition demo_line_50 : pystr :=
  Eval vm_compute in
    last (stdout (world (snd (update 50 {| self := fresh 100; world := demo_world |})))) [].

Arguments float_of_Z : simpl never.
Arguments fdiv : simpl never.
Arguments fmul : simpl never.
Arguments fadd : simpl never.
Arguments fsub : simpl never.
Arguments flt : simpl never.
Arguments fle : simpl never.
Arguments feq : simpl never.
Arguments eps : simpl never.
Arguments round_ndigits : simpl never.
Arguments round_int : simpl never.
Arguments int_to_float : simpl never.
Arguments int_truediv : simpl never.
Arguments eta_of : simpl never.
Arguments eta_format_of : simpl never.
Arguments format_2f : simpl never.
Arguments percentage_format_of : simpl never.
Arguments progress_line : simpl never.
Arguments done_line : simpl never.

(** * Properties *)

(** ** Binary64 rounding: digits, shifts and magnitudes *)

Module Binary64.

Lemma digits2_pos_bounds p :
  2 ^ (Zpos (digits2_pos p) - 1) <= Zpos p < 2 ^ Zpos (digits2_pos p).
Proof.
  induction p as [p IH | p IH | ]; cbn [digits2_pos].
  - rewrite Pos2Z.inj_succ. replace (Z.succ (Zpos (digits2_pos p)) - 1) with (Z.succ (Zpos (digits2_pos p) - 1)) by lia.
    rewrite !Z.pow_succ_r by lia. lia.
  - rewrite Pos2Z.inj_succ. replace (Z.succ (Zpos (digits2_pos p)) - 1) with (Z.succ (Zpos (digits2_pos p) - 1)) by lia.
    rewrite !Z.pow_succ_r by lia. lia.
  - cbn. lia.
Qed.

Lemma dg_bounds m : 0 < m -> 2 ^ (dg m - 1) <= m < 2 ^ dg m.
Proof. destruct m; try lia. intros _. apply digits2_pos_bounds. Qed.

Lemma dg_nonneg m : 0 <= dg m.
Proof. destruct m; cbn; lia. Qed.

Lemma dg_pos m : 0 < m -> 0 < dg m.
Proof. destruct m; cbn; lia. Qed.

Lemma dg_unique m k : 2 ^ (k - 1) <= m < 2 ^ k -> 0 < m -> dg m = k.
Proof.
  intros [Hl Hu] Hm. pose proof (dg_bounds m Hm) as [Hl' Hu'].
  pose proof (dg_pos m Hm).
  assert (0 < k).
  { destruct (Z_lt_le_dec 0 k) as [|Hk]; auto.
    destruct (Z.eq_dec k 0) as [-> | Hk0]; [cbn in Hu; lia |].
    rewrite Z.pow_neg_r in Hu by lia. lia. }
  destruct (Z.lt_trichotomy (dg m) k) as [Hc | [Hc | Hc]]; auto.
  - assert (2 ^ dg m <= 2 ^ (k - 1)) by (apply Z.pow_le_mono_r; lia). lia.
  - assert (2 ^ k <= 2 ^ (dg m - 1)) by (apply Z.pow_le_mono_r; lia). lia.
Qed.

Lemma dg_le m k : 0 <= m -> m < 2 ^ k -> 0 <= k -> dg m <= k.
Proof.
  intros Hm Hu Hk. destruct (Z.eq_dec m 0) as [-> | Hz]; [cbn; lia |].
  pose proof (dg_bounds m ltac:(lia)) as [Hl _].
  destruct (Z_le_gt_dec (dg m) k); auto.
  assert (2 ^ k <= 2 ^ (dg m - 1)) by (apply Z.pow_le_mono_r; lia). lia.
Qed.

Lemma dg_ge m k : 2 ^ (k - 1) <= m -> 0 < m -> k <= dg m.
Proof.
  intros Hl Hm. pose proof (dg_bounds m Hm) as [_ Hu].
  destruct (Z_le_gt_dec k (dg m)); auto.
  assert (2 ^ dg m <= 2 ^ (k - 1)) by (apply Z.pow_le_mono_r; pose proof (dg_nonneg m); lia). lia.
Qed.

Lemma dg_mono a b : 0 <= a <= b -> dg a <= dg b.
Proof.
  intros H. destruct (Z.eq_dec a 0) as [-> | Ha]; [apply dg_nonneg |].
  apply dg_le; try lia. 2: apply dg_nonneg.
  pose proof (dg_bounds b ltac:(lia)). lia.
Qed.

Lemma fexp_eq e : fexp prec emax e = fexp64 e.
Proof. reflexivity. Qed.

Lemma fexp64_mono a b : a <= b -> fexp64 a <= fexp64 b.
Proof. unfold fexp64. lia. Qed.

Lemma shr_1_m mrs : 0 <= shr_m mrs -> shr_m (shr_1 mrs) = shr_m mrs / 2.
Proof.
  destruct mrs as [m r s]. cbn [shr_m]. intros Hm.
  destruct m as [ | [p | p | ] | p]; cbn [shr_1 shr_m]; try lia.
  - reflexivity.
  - rewrite Pos2Z.inj_xI. apply Z.div_unique with 1; lia.
  - rewrite Pos2Z.inj_xO. apply Z.div_unique with 0; lia.
  - reflexivity.
Qed.

Lemma iter_shr_1_m p : forall mrs, 0 <= shr_m mrs ->
  shr_m (iter_pos shr_1 p mrs) = shr_m mrs / 2 ^ Zpos p.
Proof.
  induction p as [p IH | p IH | ]; intros mrs Hm; cbn [iter_pos].
  - assert (H1 : 0 <= shr_m (shr_1 mrs)) by (rewrite shr_1_m by auto; apply Z.div_pos; lia).
    assert (H2 : 0 <= shr_m (iter_pos shr_1 p (shr_1 mrs)))
      by (rewrite IH by auto; apply Z.div_pos; [auto | apply Z.pow_pos_nonneg; lia]).
    rewrite IH, IH, shr_1_m by auto.
    rewrite !Z.div_div by (try apply Z.pow_pos_nonneg; lia).
    f_equal. replace (Zpos p~1) with (1 + Zpos p + Zpos p) by lia.
    rewrite !Z.pow_add_r by lia. lia.
  - assert (H2 : 0 <= shr_m (iter_pos shr_1 p mrs))
      by (rewrite IH by auto; apply Z.div_pos; [auto | apply Z.pow_pos_nonneg; lia]).
    rewrite IH, IH by auto.
    rewrite !Z.div_div by (try apply Z.pow_pos_nonneg; lia).
    f_equal. replace (Zpos p~0) with (Zpos p + Zpos p) by lia.
    rewrite Z.pow_add_r by lia. reflexivity.
  - rewrite shr_1_m by auto. reflexivity.
Qed.

Lemma shr_record_of_loc_m m l : shr_m (shr_record_of_loc m l) = m.
Proof. destruct l as [ | [ | | ]]; reflexivity. Qed.

(** The first component of [shr_fexp]: the significand shifted down to the
    exponent the format allots to its magnitude. *)
Lemma shr_fexp_spec m e l : 0 <= m ->
  let n := fexp64 (dg m + e) - e in
  shr_m (fst (shr_fexp prec emax m e l)) = (if 0 <? n then m / 2 ^ n else m)
  /\ snd (shr_fexp prec emax m e l) = (if 0 <? n then e + n else e).
Proof.
  intros Hm n. unfold shr_fexp, shr. rewrite fexp_eq. fold (dg m). fold n.
  destruct n as [ | p | p ] eqn:En; cbn [fst snd Z.ltb Z.compare].
  - split; [apply shr_record_of_loc_m | reflexivity].
  - split; [| reflexivity].
    rewrite iter_shr_1_m by (rewrite shr_record_of_loc_m; auto).
    rewrite shr_record_of_loc_m. reflexivity.
  - split; [apply shr_record_of_loc_m | reflexivity].
Qed.

Lemma round_nearest_even_cases m l :
  round_nearest_even m l = m \/ round_nearest_even m l = m + 1.
Proof.
  destruct l as [ | [ | | ]]; cbn; auto. destruct (Z.even m); auto.
Qed.

Lemma div_pow2_dg m n : 0 < m -> 0 <= n -> n < dg m -> dg (m / 2 ^ n) = dg m - n.
Proof.
  intros Hm Hn Hlt. pose proof (dg_bounds m Hm) as [Hl Hu].
  assert (Hp : 0 < 2 ^ n) by (apply Z.pow_pos_nonneg; lia).
  assert (E1 : 2 ^ (dg m - 1) = 2 ^ (dg m - n - 1) * 2 ^ n)
    by (rewrite <- Z.pow_add_r by lia; f_equal; lia).
  assert (E2 : 2 ^ dg m = 2 ^ (dg m - n) * 2 ^ n)
    by (rewrite <- Z.pow_add_r by lia; f_equal; lia).
  assert (Hq1 : 2 ^ (dg m - n - 1) <= m / 2 ^ n)
    by (apply Z.div_le_lower_bound; lia).
  assert (Hq2 : m / 2 ^ n < 2 ^ (dg m - n))
    by (apply Z.div_lt_upper_bound; lia).
  assert (0 < 2 ^ (dg m - n - 1)) by (apply Z.pow_pos_nonneg; lia).
  apply dg_unique; [split | ]; lia.
Qed.

Lemma div_pow2_small m n : 0 <= m -> dg m <= n -> m / 2 ^ n = 0.
Proof.
  intros Hm Hn. destruct (Z.eq_dec m 0) as [-> | Hz]; [apply Z.div_0_l; pose proof (dg_nonneg 0); assert (0 < 2 ^ n) by (apply Z.pow_pos_nonneg; cbn in *; lia); lia |].
  pose proof (dg_bounds m ltac:(lia)) as [_ Hu].
  apply Z.div_small. split; auto.
  assert (2 ^ dg m <= 2 ^ n) by (apply Z.pow_le_mono_r; pose proof (dg_nonneg m); lia). lia.
Qed.

Lemma bounded_iff m e :
  bounded prec emax m e = true <-> fexp64 (Zpos (digits2_pos m) + e) = e /\ e <= 971.
Proof.
  unfold bounded, canonical_mantissa. rewrite fexp_eq, andb_true_iff, Z.eqb_eq, Z.leb_le.
  reflexivity.
Qed.

Lemma fin_weaken x B B' : fin x B -> B <= B' -> fin x B'.
Proof. destruct x; cbn; intuition lia. Qed.

Lemma dg_pow2 k : 0 <= k -> dg (2 ^ k) = k + 1.
Proof.
  intros Hk. assert (0 < 2 ^ k) by (apply Z.pow_pos_nonneg; lia).
  apply dg_unique; auto. replace (k + 1 - 1) with k by lia.
  rewrite Z.pow_add_r by lia. lia.
Qed.

Lemma dg_succ m : 0 <= m ->
  dg (m + 1) = dg m \/ (dg (m + 1) = dg m + 1 /\ m + 1 = 2 ^ dg m).
Proof.
  intros Hm. destruct (Z.eq_dec m 0) as [-> | Hz]; [right; split; reflexivity |].
  pose proof (dg_bounds m ltac:(lia)) as [Hl Hu].
  destruct (Z.eq_dec (m + 1) (2 ^ dg m)) as [E | NE].
  - right. split; auto. rewrite E. apply dg_pow2, dg_nonneg.
  - left. apply dg_unique; lia.
Qed.

(** The shape of every result of [binary_round_aux] on a significand that
    is already at or below the exponent of its magnitude: a zero, or a
    canonical significand, which is an infinity when its exponent is out of
    range. *)
Lemma bra_shape sx mx ex lx :
  0 <= mx -> ex <= fexp64 (dg mx + ex) ->
  let r := binary_round_aux prec emax sx mx ex lx in
  r = S754_zero sx
  \/ exists m e,
       fexp64 (Zpos (digits2_pos m) + e) = e
       /\ Zpos (digits2_pos m) + e <= Z.max (dg mx + ex + 1) (-1073)
       /\ r = if e <=? emax - prec then S754_finite sx m e else S754_infinity sx.
Proof.
  intros Hm Hpre. unfold binary_round_aux.
  pose proof (shr_fexp_spec mx ex lx Hm) as S1. cbv zeta in S1.
  destruct (shr_fexp prec emax mx ex lx) as [mrs1 e1]. cbn [fst snd] in S1.
  destruct S1 as [S1m S1e].
  set (n := fexp64 (dg mx + ex) - ex) in *.
  assert (Hn : 0 <= n) by (unfold n; lia).
  assert (He1 : e1 = fexp64 (dg mx + ex)) by (destruct (Z.ltb_spec 0 n); unfold n in *; lia).
  assert (Hm1 : shr_m mrs1 = mx / 2 ^ n).
  { destruct (Z.ltb_spec 0 n); auto. assert (n = 0) by lia.
    rewrite S1m. replace n with 0 by lia. cbn. symmetry. apply Z.div_1_r. }
  clear S1m S1e.
  assert (H2n : 0 < 2 ^ n) by (apply Z.pow_pos_nonneg; lia).
  assert (Hm1' : 0 <= shr_m mrs1) by (rewrite Hm1; apply Z.div_pos; lia).
  set (m2 := round_nearest_even (shr_m mrs1) (loc_of_shr_record mrs1)).
  assert (Hm2 : m2 = shr_m mrs1 \/ m2 = shr_m mrs1 + 1) by apply round_nearest_even_cases.
  assert (Hm2' : 0 <= m2) by lia.
  pose proof (shr_fexp_spec m2 e1 loc_Exact Hm2') as S2. cbv zeta in S2.
  destruct (shr_fexp prec emax m2 e1 loc_Exact) as [mrs2 e2]. cbn [fst snd] in S2.
  destruct S2 as [S2m S2e].
  (* the magnitude kept by the first shift *)
  assert (Hcase : (0 < shr_m mrs1 /\ dg (shr_m mrs1) + e1 = dg mx + ex)
                  \/ (shr_m mrs1 = 0 /\ e1 = -1074)).
  { destruct (Z_lt_le_dec n (dg mx)) as [Hlt | Hge].
    - left. assert (0 < mx) by (destruct mx; cbn in *; lia).
      rewrite Hm1, div_pow2_dg by lia. split; [| unfold n; lia].
      pose proof (dg_bounds mx ltac:(lia)) as [Hl _].
      assert (2 ^ n <= 2 ^ (dg mx - 1)) by (apply Z.pow_le_mono_r; lia).
      apply Z.div_str_pos. lia.
    - right. rewrite Hm1, div_pow2_small by auto. split; auto.
      unfold n, fexp64 in *. lia. }
  destruct Hcase as [[Hpos Hmag] | [Hz Hemin]].
  - (* a nonzero significand *)
    right.
    assert (Hm2pos : 0 < m2) by lia.
    assert (Hdm2 : dg m2 = dg (shr_m mrs1)
                   \/ (dg m2 = dg (shr_m mrs1) + 1 /\ m2 = 2 ^ dg (shr_m mrs1))).
    { destruct Hm2 as [-> | ->]; auto. apply dg_succ; lia. }
    set (d1 := dg (shr_m mrs1)) in *.
    assert (Hd1pos : 0 < d1) by (apply dg_pos; auto).
    destruct Hdm2 as [Hsame | [Hcarry Hpow]].
    + assert (Hn2 : fexp64 (dg m2 + e1) - e1 = 0) by (rewrite Hsame, Hmag; lia).
      rewrite Hn2 in S2m, S2e. cbn in S2m, S2e. rewrite S2m.
      destruct m2 as [ | p | p ]; try lia.
      exists p, e2. unfold dg in *. cbn [Zdigits2] in *. subst e2.
      split; [unfold fexp64 in *; lia | split; [lia | reflexivity]].
    + destruct (Z.ltb_spec 0 (fexp64 (dg m2 + e1) - e1)) as [Hsh | Hsh].
      * assert (Hn2 : fexp64 (dg m2 + e1) - e1 = 1)
          by (unfold fexp64 in *; lia).
        rewrite Hn2 in S2m, S2e. rewrite S2m, Hpow.
        replace (2 ^ d1) with (2 ^ (d1 - 1) * 2 ^ 1)
          by (rewrite <- Z.pow_add_r by lia; f_equal; lia).
        rewrite Z.div_mul by lia.
        assert (Hp : 0 < 2 ^ (d1 - 1)) by (apply Z.pow_pos_nonneg; lia).
        assert (Hdd : dg (2 ^ (d1 - 1)) = d1) by (rewrite dg_pow2 by lia; lia).
        destruct (2 ^ (d1 - 1)) as [ | p | p ]; try lia.
        exists p, e2. unfold dg in Hdd. cbn [Zdigits2] in Hdd. rewrite Hdd. subst e2.
        split; [unfold fexp64 in *; lia | split; [lia | reflexivity]].
      * rewrite S2m.
        destruct m2 as [ | p | p ]; try lia.
        exists p, e2. unfold dg in Hcarry, Hsh, S2e. cbn [Zdigits2] in Hcarry, Hsh, S2e. subst e2.
        split; [unfold fexp64 in *; lia | split; [lia | reflexivity]].
  - (* everything was shifted out *)
    rewrite Hz in Hm2. destruct Hm2 as [E | E].
    + left. rewrite E in S2m, S2e. unfold dg in S2m, S2e. cbn [Zdigits2] in S2m, S2e.
      assert (Hn2 : (0 <? fexp64 (0 + e1) - e1) = false)
        by (apply Z.ltb_ge; unfold fexp64; lia).
      rewrite Hn2 in S2m. rewrite S2m. reflexivity.
    + right. rewrite E in S2m, S2e. rewrite Hemin in S2m, S2e. cbn in S2m, S2e.
      rewrite S2m, S2e. exists 1%positive, (-1074). cbn. split; [reflexivity | split; [lia | reflexivity]].
Qed.

Lemma bra_fin sx mx ex lx B :
  0 <= mx -> ex <= fexp64 (dg mx + ex) -> dg mx + ex <= B -> -1074 <= B <= 1023 ->
  let r := binary_round_aux prec emax sx mx ex lx in
  fin r (B + 1) /\ sign_of r = sx.
Proof.
  intros Hm Hpre HB HB'. cbv zeta.
  destruct (bra_shape sx mx ex lx Hm Hpre) as [-> | (m & e & Hc & Hmag & ->)].
  - cbn. auto.
  - assert (Hle : (e <=? emax - prec) = true)
      by (apply Z.leb_le; unfold emax, prec, fexp64 in *; lia).
    rewrite Hle. cbn [fin sign_of]. split; auto. split; [| lia].
    apply bounded_iff. unfold fexp64 in *. lia.
Qed.

(** Rounding never produces a NaN, and a finite result is in canonical form. *)
Lemma bra_valid sx mx ex lx :
  0 <= mx -> ex <= fexp64 (dg mx + ex) ->
  let r := binary_round_aux prec emax sx mx ex lx in
  r <> S754_nan /\ valid_binary prec emax r = true /\ sign_of r = sx.
Proof.
  intros Hm Hpre. cbv zeta.
  destruct (bra_shape sx mx ex lx Hm Hpre) as [-> | (m & e & Hc & Hmag & ->)].
  - cbn. repeat split; auto. discriminate.
  - destruct (Z.leb_spec e (emax - prec)) as [Hle | Hgt].
    + repeat split; try discriminate. cbn [valid_binary]. apply bounded_iff.
      unfold emax, prec in Hle. split; auto; lia.
    + repeat split; discriminate.
Qed.

Lemma dg_mul_pow2 m k : 0 < m -> 0 <= k -> dg (m * 2 ^ k) = dg m + k.
Proof.
  intros Hm Hk. pose proof (dg_bounds m Hm) as [Hl Hu]. pose proof (dg_pos m Hm).
  assert (Hp : 0 < 2 ^ k) by (apply Z.pow_pos_nonneg; lia).
  apply dg_unique; [| nia].
  replace (dg m + k - 1) with (dg m - 1 + k) by lia.
  rewrite !Z.pow_add_r by lia. split; nia.
Qed.

Lemma pos_iter_xO m d : Zpos (Pos.iter xO m d) = Zpos m * 2 ^ Zpos d.
Proof.
  induction d as [ | d IH] using Pos.peano_ind.
  - cbn. lia.
  - rewrite Pos.iter_succ, Pos2Z.inj_xO, IH, Pos2Z.inj_succ, Z.pow_succ_r by lia. lia.
Qed.

Lemma shl_align_spec mx ex ex' :
  let r := shl_align mx ex ex' in
  (ex' < ex -> Zpos (fst r) = Zpos mx * 2 ^ (ex - ex') /\ snd r = ex')
  /\ (ex <= ex' -> r = (mx, ex)).
Proof.
  unfold shl_align. destruct (ex' - ex) as [ | d | d] eqn:E; cbn [fst snd]; split; intros H; try lia; auto.
  rewrite pos_iter_xO. split; auto. f_equal. f_equal. lia.
Qed.

(** Rounding a significand and an exponent into the format. *)
Lemma binary_round_fin sx mx ex B :
  Zpos (digits2_pos mx) + ex <= B -> -1074 <= B <= 1023 ->
  let r := binary_round prec emax sx mx ex in
  fin r (B + 1) /\ sign_of r = sx.
Proof.
  intros HB HB'. unfold binary_round. rewrite fexp_eq.
  pose proof (shl_align_spec mx ex (fexp64 (Zpos (digits2_pos mx) + ex))) as [S1 S2].
  destruct (shl_align mx ex (fexp64 (Zpos (digits2_pos mx) + ex))) as [mz ez].
  cbn [fst snd] in S1, S2.
  destruct (Z_lt_le_dec (fexp64 (Zpos (digits2_pos mx) + ex)) ex) as [Hlt | Hge].
  - destruct (S1 Hlt) as [Em Ee].
    assert (Hd : dg (Zpos mz) = dg (Zpos mx) + (ex - fexp64 (Zpos (digits2_pos mx) + ex)))
      by (rewrite Em; apply dg_mul_pow2; lia).
    cbn [dg Zdigits2] in Hd.
    apply bra_fin; cbn [dg Zdigits2]; try lia.
    rewrite Hd, Ee. replace (Zpos (digits2_pos mx) + (ex - fexp64 (Zpos (digits2_pos mx) + ex)) + fexp64 (Zpos (digits2_pos mx) + ex)) with (Zpos (digits2_pos mx) + ex) by lia. lia.
  - specialize (S2 Hge). inversion S2; subst mz ez.
    apply bra_fin; cbn [dg Zdigits2]; lia.
Qed.

Lemma binary_normalize_fin m e sz B :
  dg (Z.abs m) + e <= B -> -1074 <= B <= 1023 ->
  fin (binary_normalize prec emax m e sz) (B + 1).
Proof.
  intros HB HB'. destruct m as [ | p | p]; cbn [binary_normalize]; [exact I | |];
    apply binary_round_fin; auto.
Qed.

Lemma binary_normalize_sign m e sz B :
  dg (Z.abs m) + e <= B -> -1074 <= B <= 1023 -> m <> 0 ->
  sign_of (binary_normalize prec emax m e sz) = (m <? 0).
Proof.
  intros HB HB' Hm. destruct m as [ | p | p]; cbn [binary_normalize]; [lia | |];
    apply (binary_round_fin _ _ _ B); auto.
Qed.

Lemma dg_mul a b : 0 < a -> 0 < b -> dg a + dg b - 1 <= dg (a * b) <= dg a + dg b.
Proof.
  intros Ha Hb. pose proof (dg_bounds a Ha) as [Hal Hau]. pose proof (dg_bounds b Hb) as [Hbl Hbu].
  pose proof (dg_pos a Ha). pose proof (dg_pos b Hb).
  split.
  - apply dg_ge; [| nia].
    replace (dg a + dg b - 1 - 1) with ((dg a - 1) + (dg b - 1)) by lia.
    rewrite Z.pow_add_r by lia.
    assert (0 < 2 ^ (dg a - 1)) by (apply Z.pow_pos_nonneg; lia).
    assert (0 < 2 ^ (dg b - 1)) by (apply Z.pow_pos_nonneg; lia). nia.
  - apply dg_le; [nia | | lia]. rewrite Z.pow_add_r by lia. nia.
Qed.


Lemma pow2_lt_inv a b : 2 ^ a < 2 ^ b -> 0 <= b -> a < b.
Proof.
  intros H Hb. destruct (Z_lt_le_dec a b); auto.
  assert (2 ^ b <= 2 ^ a) by (apply Z.pow_le_mono_r; lia). lia.
Qed.

(** The quotient of two significands, as [SFdiv_core_binary] computes it. *)
Lemma div_core_bounds m1 e1 m2 e2 :
  0 < m1 -> 0 < m2 ->
  let X := dg m1 + e1 - (dg m2 + e2) in
  let '(q, e', _) := SFdiv_core_binary prec emax m1 e1 m2 e2 in
  0 <= q /\ e' <= fexp64 (dg q + e') /\ dg q + e' <= Z.max (X + 1) (-1074).
Proof.
  intros H1 H2 X. unfold SFdiv_core_binary. rewrite fexp_eq. fold (dg m1) (dg m2). fold X.
  set (e' := Z.min (fexp64 X) (e1 - e2)).
  set (s := e1 - e2 - e').
  assert (Hs : 0 <= s) by (unfold s, e'; lia).
  set (m' := match s with Z.pos _ => Z.shiftl m1 s | 0 => m1 | Z.neg _ => 0 end).
  assert (Hm' : m' = m1 * 2 ^ s).
  { unfold m'. generalize Hs. generalize s. intros [ | p | p] Hp; try lia.
    apply Z.shiftl_mul_pow2. lia. }
  clearbody m'.
  pose proof (Z_div_mod m' m2 ltac:(lia)) as Hdm.
  destruct (Z.div_eucl m' m2) as [q r]. destruct Hdm as [Hq Hr].
  pose proof (dg_bounds m1 H1) as [L1 U1]. pose proof (dg_bounds m2 H2) as [L2 U2].
  pose proof (dg_pos m1 H1) as P1. pose proof (dg_pos m2 H2) as P2.
  assert (Hps : 0 < 2 ^ s) by (apply Z.pow_pos_nonneg; lia).
  assert (Hlo : 2 ^ (dg m1 - 1 + s) <= m') by (rewrite Z.pow_add_r by lia; nia).
  assert (Hhi : m' < 2 ^ (dg m1 + s)) by (rewrite Z.pow_add_r by lia; nia).
  assert (Hq0 : 0 <= q) by nia.
  split; auto.
  assert (Hp2 : 0 < 2 ^ (dg m2 - 1)) by (apply Z.pow_pos_nonneg; lia).
  (* upper bound on the digits of the quotient *)
  assert (Hup : dg q <= Z.max (dg m1 + s - dg m2 + 1) 0).
  { destruct (Z_le_gt_dec 0 (dg m1 + s - dg m2 + 1)) as [Hk | Hk].
    - apply Z.le_trans with (dg m1 + s - dg m2 + 1); [| lia].
      apply dg_le; auto.
      assert (E : 2 ^ (dg m1 + s) = 2 ^ (dg m1 + s - dg m2 + 1) * 2 ^ (dg m2 - 1))
        by (rewrite <- Z.pow_add_r by lia; f_equal; lia).
      assert (0 < 2 ^ (dg m1 + s - dg m2 + 1)) by (apply Z.pow_pos_nonneg; lia).
      nia.
    - assert (2 ^ (dg m1 + s) <= 2 ^ (dg m2 - 1)) by (apply Z.pow_le_mono_r; lia).
      assert (q = 0) by nia. subst q. cbn. lia. }
  destruct (Z.eq_dec q 0) as [-> | Hqn].
  - (* the quotient vanishes: the exponent is the least one *)
    assert (Hlt : 2 ^ (dg m1 - 1 + s) < 2 ^ dg m2) by lia.
    apply pow2_lt_inv in Hlt; [| lia].
    assert (HX : X <= e') by (unfold X, s in *; lia).
    assert (He' : e' <= -1074) by (unfold e', fexp64 in *; lia).
    cbn [dg Zdigits2]. unfold fexp64. lia.
  - assert (Hqp : 0 < q) by lia. pose proof (dg_pos q Hqp) as Pq.
    assert (Hlow : dg m1 + s - dg m2 <= dg q).
    { destruct (Z_le_gt_dec (dg m1 + s - dg m2) 1) as [Hk | Hk]; [lia |].
      apply dg_ge; auto.
      assert (E : 2 ^ (dg m1 - 1 + s) = 2 ^ (dg m1 + s - dg m2 - 1) * 2 ^ dg m2)
        by (rewrite <- Z.pow_add_r by lia; f_equal; lia).
      assert (0 < 2 ^ (dg m1 + s - dg m2 - 1)) by (apply Z.pow_pos_nonneg; lia).
      nia. }
    assert (HXq : X <= dg q + e') by (unfold X, s in *; lia).
    split.
    + pose proof (fexp64_mono _ _ HXq). unfold e' in *. lia.
    + unfold X, s in *. lia.
Qed.

Lemma fdiv_finite_fin sx mx ex sy my ey B :
  Zpos (digits2_pos mx) + ex - (Zpos (digits2_pos my) + ey) + 1 <= B ->
  -1074 <= B <= 1023 ->
  let r := fdiv (S754_finite sx mx ex) (S754_finite sy my ey) in
  fin r (B + 1) /\ sign_of r = xorb sx sy.
Proof.
  intros HB HB'. unfold fdiv, SFdiv.
  pose proof (div_core_bounds (Zpos mx) ex (Zpos my) ey ltac:(lia) ltac:(lia)) as H.
  cbv zeta in H.
  destruct (SFdiv_core_binary prec emax (Zpos mx) ex (Zpos my) ey) as [[q e'] l].
  destruct H as (Hq & Hpre & Hmag). unfold dg in Hmag at 2 3. cbn [Zdigits2] in Hmag.
  apply bra_fin; auto; lia.
Qed.

(** Division of a finite float by a nonzero finite one. *)
Lemma fdiv_fin x sy my ey Bx B :
  fin x Bx -> Bx - (Zpos (digits2_pos my) + ey) + 1 <= B -> -1074 <= B <= 1023 ->
  fin (fdiv x (S754_finite sy my ey)) (B + 1).
Proof.
  intros Hx HB HB'. destruct x as [sx | sx | | sx mx ex]; cbn [fin] in Hx; try contradiction.
  - exact I.
  - destruct Hx as [_ Hx]. apply fdiv_finite_fin; lia.
Qed.

Lemma shl_align_fst mx ex ez : ez <= ex ->
  Zpos (fst (shl_align mx ex ez)) = Zpos mx * 2 ^ (ex - ez).
Proof.
  intros H. pose proof (shl_align_spec mx ex ez) as [S1 S2]. cbv zeta in S1, S2.
  destruct (Z_lt_le_dec ez ex) as [Hlt | Hge].
  - apply S1; auto.
  - rewrite S2 by auto. cbn [fst]. replace (ex - ez) with 0 by lia. lia.
Qed.

Lemma aligned_sum_dg mx ex my ey (a b : Z) B :
  let ez := Z.min ex ey in
  Z.abs a = Zpos mx * 2 ^ (ex - ez) -> Z.abs b = Zpos my * 2 ^ (ey - ez) ->
  Zpos (digits2_pos mx) + ex <= B -> Zpos (digits2_pos my) + ey <= B ->
  dg (Z.abs (a + b)) + ez <= B + 1.
Proof.
  intros ez Ha Hb Hx Hy.
  pose proof (dg_bounds (Zpos mx) ltac:(lia)) as [_ Ux].
  pose proof (dg_bounds (Zpos my) ltac:(lia)) as [_ Uy].
  unfold dg in Ux, Uy. cbn [Zdigits2] in Ux, Uy.
  assert (Hex : 0 <= ex - ez) by (unfold ez; lia).
  assert (Hey : 0 <= ey - ez) by (unfold ez; lia).
  assert (Pa : 0 < 2 ^ (ex - ez)) by (apply Z.pow_pos_nonneg; lia).
  assert (Pb : 0 < 2 ^ (ey - ez)) by (apply Z.pow_pos_nonneg; lia).
  assert (Ua : Z.abs a < 2 ^ (B - ez)).
  { rewrite Ha. apply Z.lt_le_trans with (2 ^ (Zpos (digits2_pos mx) + (ex - ez))).
    - rewrite Z.pow_add_r by lia. nia.
    - apply Z.pow_le_mono_r; lia. }
  assert (Ub : Z.abs b < 2 ^ (B - ez)).
  { rewrite Hb. apply Z.lt_le_trans with (2 ^ (Zpos (digits2_pos my) + (ey - ez))).
    - rewrite Z.pow_add_r by lia. nia.
    - apply Z.pow_le_mono_r; lia. }
  assert (HBz : 0 <= B - ez) by (unfold ez in *; lia).
  assert (dg (Z.abs (a + b)) <= B - ez + 1); [| lia].
  apply dg_le; try lia. rewrite Z.pow_add_r by lia. lia.
Qed.

Lemma abs_cond_Zopp s z : Z.abs (cond_Zopp s z) = Z.abs z.
Proof. destruct s; cbn; lia. Qed.


Lemma fsub_fin x y B :
  fin x B -> fin y B -> -1075 <= B <= 1022 -> fin (fsub x y) (B + 2).
Proof.
  intros Hx Hy HB.
  destruct x as [sx | sx | | sx mx ex], y as [sy | sy | | sy my ey];
    cbn [fin] in Hx, Hy; try contradiction.
  - destruct sx, sy; exact I.
  - unfold fsub, SFsub; cbn [fin]. intuition lia.
  - unfold fsub, SFsub; cbn [fin]. intuition lia.
  - unfold fsub, SFsub. destruct Hx as [_ Hx], Hy as [_ Hy].
    replace (B + 2) with (B + 1 + 1) by lia.
    apply binary_normalize_fin; [| lia].
    rewrite <- Z.add_opp_r.
    apply (aligned_sum_dg mx ex my ey); auto.
    + rewrite abs_cond_Zopp; cbn [Z.abs]; apply shl_align_fst; lia.
    + rewrite Z.abs_opp, abs_cond_Zopp; cbn [Z.abs]; apply shl_align_fst; lia.
Qed.




Lemma round_int_fin x B : fin x B -> exists n, round_int x = Ret n.
Proof. destruct x; cbn [fin]; try contradiction; unfold round_int; eauto. Qed.

Lemma binary_round_valid sx mx ex :
  let r := binary_round prec emax sx mx ex in
  r <> S754_nan /\ valid_binary prec emax r = true /\ sign_of r = sx.
Proof.
  unfold binary_round. rewrite fexp_eq.
  pose proof (shl_align_spec mx ex (fexp64 (Zpos (digits2_pos mx) + ex))) as [S1 S2].
  destruct (shl_align mx ex (fexp64 (Zpos (digits2_pos mx) + ex))) as [mz ez].
  cbn [fst snd] in S1, S2.
  destruct (Z_lt_le_dec (fexp64 (Zpos (digits2_pos mx) + ex)) ex) as [Hlt | Hge].
  - destruct (S1 Hlt) as [Em Ee].
    assert (Hd : dg (Zpos mz) = dg (Zpos mx) + (ex - fexp64 (Zpos (digits2_pos mx) + ex)))
      by (rewrite Em; apply dg_mul_pow2; lia).
    apply bra_valid; [lia |]. rewrite Hd, Ee. unfold dg. cbn [Zdigits2].
    replace (Zpos (digits2_pos mx) + (ex - fexp64 (Zpos (digits2_pos mx) + ex)) + fexp64 (Zpos (digits2_pos mx) + ex)) with (Zpos (digits2_pos mx) + ex) by lia. lia.
  - specialize (S2 Hge). inversion S2; subst mz ez.
    apply bra_valid; unfold dg; cbn [Zdigits2]; lia.
Qed.

Lemma bounded_fin s m e : bounded prec emax m e = true -> fin (S754_finite s m e) 1024.
Proof.
  intros Hb. split; auto. apply bounded_iff in Hb. unfold fexp64 in Hb. lia.
Qed.

Lemma valid_fin x :
  x <> S754_nan -> valid_binary prec emax x = true ->
  match x with S754_infinity _ => True | _ => fin x 1024 end.
Proof.
  destruct x as [s | s | | s m e]; intros Hn Hv; try exact I; try congruence.
  apply bounded_fin. exact Hv.
Qed.

(** A successful conversion of an [int] gives a zero or a canonical finite
    float. *)
Lemma int_to_float_valid n x : int_to_float n = Ret x -> fin x 1024.
Proof.
  unfold int_to_float, float_of_Z. destruct n as [ | p | p]; cbn [binary_normalize].
  - intros H. inversion H. exact I.
  - pose proof (binary_round_valid false p 0) as (Hn & Hv & _). cbv zeta in Hn, Hv.
    pose proof (valid_fin _ Hn Hv) as Hf.
    destruct (binary_round prec emax false p 0); intros H; inversion H; subst; auto.
  - pose proof (binary_round_valid true p 0) as (Hn & Hv & _). cbv zeta in Hn, Hv.
    pose proof (valid_fin _ Hn Hv) as Hf.
    destruct (binary_round prec emax true p 0); intros H; inversion H; subst; auto.
Qed.

Lemma shr_1_even y :
  0 < y -> shr_1 {| shr_m := 2 * y; shr_r := false; shr_s := false |}
           = {| shr_m := y; shr_r := false; shr_s := false |}.
Proof. destruct y; try lia. intros _. reflexivity. Qed.

Lemma iter_shr_exact p : forall z, 0 < z ->
  iter_pos shr_1 p {| shr_m := z * 2 ^ Zpos p; shr_r := false; shr_s := false |}
  = {| shr_m := z; shr_r := false; shr_s := false |}.
Proof.
  induction p as [p IH | p IH | ]; intros z Hz; cbn [iter_pos].
  - assert (Hp : 0 < 2 ^ Zpos p) by (apply Z.pow_pos_nonneg; lia).
    replace (z * 2 ^ Zpos p~1) with (2 * (z * 2 ^ Zpos p * 2 ^ Zpos p)).
    2:{ replace (Zpos p~1) with (1 + Zpos p + Zpos p) by lia. rewrite !Z.pow_add_r by lia. lia. }
    rewrite shr_1_even by nia. rewrite IH by nia. apply IH; auto.
  - assert (Hp : 0 < 2 ^ Zpos p) by (apply Z.pow_pos_nonneg; lia).
    replace (z * 2 ^ Zpos p~0) with (z * 2 ^ Zpos p * 2 ^ Zpos p).
    2:{ replace (Zpos p~0) with (Zpos p + Zpos p) by lia. rewrite !Z.pow_add_r by lia. lia. }
    rewrite IH by nia. apply IH; auto.
  - replace (z * 2 ^ 1) with (2 * z) by lia. apply shr_1_even; auto.
Qed.

(** A canonical significand scaled by a power of two rounds to itself. *)
Lemma bra_exact s m e k :
  0 <= k -> fexp64 (Zpos (digits2_pos m) + e) = e -> e <= 971 ->
  binary_round_aux prec emax s (Zpos m * 2 ^ k) (e - k) loc_Exact = S754_finite s m e.
Proof.
  intros Hk Hc He. unfold binary_round_aux.
  assert (Hd : Zdigits2 (Zpos m * 2 ^ k) = Zpos (digits2_pos m) + k)
    by (apply (dg_mul_pow2 (Zpos m) k); lia).
  assert (S1 : shr_fexp prec emax (Zpos m * 2 ^ k) (e - k) loc_Exact
               = ({| shr_m := Zpos m; shr_r := false; shr_s := false |}, e)).
  { unfold shr_fexp. rewrite fexp_eq, Hd.
    replace (Zpos (digits2_pos m) + k + (e - k)) with (Zpos (digits2_pos m) + e) by lia.
    rewrite Hc. replace (e - (e - k)) with k by lia.
    unfold shr. cbn [shr_record_of_loc]. destruct k as [ | p | p]; try lia.
    - rewrite Z.pow_0_r, Z.mul_1_r, Z.sub_0_r. reflexivity.
    - rewrite iter_shr_exact by lia. f_equal. lia. }
  rewrite S1. cbn [shr_m loc_of_shr_record round_nearest_even].
  assert (S2 : shr_fexp prec emax (Zpos m) e loc_Exact
               = ({| shr_m := Zpos m; shr_r := false; shr_s := false |}, e)).
  { unfold shr_fexp. rewrite fexp_eq. cbn [Zdigits2]. rewrite Hc, Z.sub_diag. reflexivity. }
  rewrite S2. cbn [shr_m].
  assert (Hle : (e <=? emax - prec) = true) by (apply Z.leb_le; unfold emax, prec; lia).
  rewrite Hle. reflexivity.
Qed.

Lemma float_of_Z_1 : float_of_Z 1 = S754_finite false 4503599627370496 (-52).
Proof. reflexivity. Qed.

Lemma fmul_one_l s m e :
  bounded prec emax m e = true ->
  fmul (float_of_Z 1) (S754_finite s m e) = S754_finite s m e.
Proof.
  intros Hb. apply bounded_iff in Hb. destruct Hb as [Hc He].
  rewrite float_of_Z_1. unfold fmul, SFmul. cbn [xorb].
  rewrite Pos2Z.inj_mul, Z.mul_comm.
  change (Zpos 4503599627370496) with (2 ^ 52).
  replace (-52 + e) with (e - 52) by lia.
  apply bra_exact; auto. lia.
Qed.

(** Equal positive integers divide to exactly [1.0]. *)
Lemma int_truediv_self n : 0 < n -> int_truediv n n = Ret (float_of_Z 1).
Proof.
  intros Hn. unfold int_truediv. destruct (Z.eqb_spec n 0) as [E | _]; [lia |].
  destruct n as [ | p | p]; try lia. cbn [exact_int].
  unfold fdiv, SFdiv.
  assert (Hcore : SFdiv_core_binary prec emax (Zpos p) 0 (Zpos p) 0
                  = (2 ^ 53, -53, loc_Exact)).
  { unfold SFdiv_core_binary.
    replace (Zdigits2 (Zpos p) + 0 - (Zdigits2 (Zpos p) + 0)) with 0 by lia.
    change (Z.min (fexp prec emax 0) (0 - 0)) with (-53).
    change (0 - 0 - -53) with 53.
    cbv iota beta zeta.
    rewrite Z.shiftl_mul_pow2 by lia.
    pose proof (Z_div_mod (Zpos p * 2 ^ 53) (Zpos p) ltac:(lia)) as H.
    destruct (Z.div_eucl (Zpos p * 2 ^ 53) (Zpos p)) as [q r]. destruct H as [Hq Hr].
    assert (q = 2 ^ 53) by nia. assert (r = 0) by nia. subst q r.
    unfold new_location, new_location_even, new_location_odd.
    destruct (Z.even (Zpos p)); reflexivity. }
  rewrite Hcore. reflexivity.
Qed.


Lemma fin_one : fin (float_of_Z 1) 1.
Proof. rewrite float_of_Z_1. split; [reflexivity | cbn; lia]. Qed.


Lemma fsub_bound x y Bx By B' :
  fin x Bx -> fin y By -> Z.max Bx By + 2 <= B' -> -1075 <= Z.max Bx By <= 1022 ->
  fin (fsub x y) B'.
Proof.
  intros Hx Hy HB' HB. apply fin_weaken with (Z.max Bx By + 2); auto.
  apply fsub_fin; auto; [apply fin_weaken with Bx | apply fin_weaken with By]; auto; lia.
Qed.





Lemma div_half_even_bounds n d :
  0 <= n -> 0 < d -> 0 <= div_half_even n d <= n / d + 1.
Proof.
  intros Hn Hd. unfold div_half_even.
  assert (0 <= n / d) by (apply Z.div_pos; lia).
  destruct (2 * (n mod d) ?= d); try destruct (Z.even (n / d)); lia.
Qed.

Lemma scaled_round_dg m e k K B :
  0 < k -> k < 2 ^ K -> 0 <= K -> Zpos (digits2_pos m) + e <= B -> 0 <= B ->
  0 <= scaled_round m e k /\ dg (scaled_round m e k) <= B + K + 1.
Proof.
  intros Hk HkK HK Hm HB. unfold scaled_round.
  set (N := Zpos m * k * 2 ^ Z.max e 0). set (D := 2 ^ Z.max (- e) 0).
  assert (PD : 0 < D) by (apply Z.pow_pos_nonneg; lia).
  assert (PE : 0 < 2 ^ Z.max e 0) by (apply Z.pow_pos_nonneg; lia).
  assert (PN : 0 < N) by (unfold N; nia).
  pose proof (div_half_even_bounds N D ltac:(lia) PD) as [Hl Hu].
  split; auto.
  pose proof (dg_bounds (Zpos m) ltac:(lia)) as [_ Um]. unfold dg in Um. cbn [Zdigits2] in Um.
  assert (HN : N < 2 ^ (Zpos (digits2_pos m) + K + Z.max e 0)).
  { unfold N. rewrite !Z.pow_add_r by lia.
    assert (Zpos m * k < 2 ^ Zpos (digits2_pos m) * 2 ^ K) by nia. nia. }
  assert (HK' : 2 ^ (Zpos (digits2_pos m) + K + Z.max e 0) <= 2 ^ (B + K) * D).
  { unfold D. rewrite <- Z.pow_add_r by lia. apply Z.pow_le_mono_r; lia. }
  assert (Hq : N / D < 2 ^ (B + K)) by (apply Z.div_lt_upper_bound; lia).
  apply dg_le; try lia. rewrite Z.pow_add_r by lia. lia.
Qed.

Lemma exact_int_cond_Zopp s n :
  0 < n -> exists p, exact_int (cond_Zopp s n) = S754_finite s p 0 /\ Zpos p = n.
Proof. intros Hn. destruct n; try lia. destruct s; cbn; eauto. Qed.

Lemma round_ndigits_ok x B :
  fin x B -> 0 <= B <= 1000 -> exists r, round_ndigits x 4 = Ret r.
Proof.
  intros Hx HB. destruct x as [s | s | | s m e]; cbn [fin] in Hx; try contradiction.
  - unfold round_ndigits. eauto.
  - destruct Hx as [_ Hx]. unfold round_ndigits.
    change (10 ^ 4) with 10000.
    pose proof (scaled_round_dg m e 10000 14 B ltac:(lia) ltac:(cbn; lia) ltac:(lia) Hx ltac:(lia))
      as [Hn0 Hdg].
    destruct (Z.eqb_spec (scaled_round m e 10000) 0) as [E | NE]; [eauto |].
    destruct (exact_int_cond_Zopp s (scaled_round m e 10000) ltac:(lia)) as (p & -> & Hp).
    cbn [exact_int].
    rewrite <- Hp in Hdg. unfold dg in Hdg. cbn [Zdigits2] in Hdg.
    assert (Hd4 : Zpos (digits2_pos 10000) = 14) by reflexivity.
    pose proof (fdiv_finite_fin s p 0 false 10000 0 (B + 2) ltac:(lia) ltac:(lia)) as [Hf _].
    cbv zeta in Hf.
    destruct (fdiv (S754_finite s p 0) (S754_finite false 10000 0));
      cbn [fin] in Hf; try contradiction; eauto.
Qed.

End Binary64.
Import Binary64.

(** ** The methods *)

Ltac py_step :=
  cbn [self world fst snd _start _total _text _width _progress LAST
       with_start with_progress with_LAST clock ticks stdout cursor_visible
       tick write with_cursor].

Lemma update_eq current pb w :
  update current {| self := pb; world := w |} =
  let s1 := started pb w in
  match int_truediv current (int_value (_total pb)) with
  | Raise e => (Raise e, s1)
  | Ret q =>
    let s2 := {| self := with_progress q (self s1); world := world s1 |} in
    match round_ndigits (fmul q (float_of_Z 100)) 4 with
    | Raise e => (Raise e, s2)
    | Ret percentage =>
      match int_to_float (int_value (_width pb)) with
      | Raise e => (Raise e, s2)
      | Ret wf =>
        match round_int (fmul q wf) with
        | Raise e => (Raise e, s2)
        | Ret completed =>
          let remaining := int_value (_width pb) - completed in
          if flt q (float_of_Z 0) then
            display (clamp percentage) completed remaining
              {| self := with_progress eps (self s2); world := world s2 |}
          else if flt (float_of_Z 1) q then (Ret tt, s2)
          else display (clamp percentage) completed remaining s2
        end
      end
    end
  end.
Proof.
  unfold update, bind, getattr, lift, ret, set_start, set_progress, on_self,
    perf_counter, started, clamp.
  py_step.
  destruct (_start pb) as [t0 | ]; py_step;
    (destruct (int_truediv current (int_value (_total pb))) as [q | e]; [| reflexivity]);
    py_step;
    (destruct (round_ndigits (fmul q (float_of_Z 100)) 4) as [pct | e]; [| reflexivity]);
    (destruct (int_to_float (int_value (_width pb))) as [wf | e]; [| reflexivity]);
    (destruct (round_int (fmul q wf)) as [c | e]; [| reflexivity]);
    destruct (flt q (float_of_Z 0)); try reflexivity;
    destruct (flt (float_of_Z 1) q); reflexivity.
Qed.

(** A count at most [2^63 - 1] times the length of [SYMBOL] is never too
    long: [SYMBOL * n] raises exactly when [n] is not index-sized. *)
Lemma str_mul_SYMBOL n :
  str_mul SYMBOL n
  = if index_sized n then Ret (str_repeat SYMBOL n) else Raise OverflowError.
Proof.
  unfold str_mul. destruct (index_sized n) eqn:E; [| reflexivity]. cbn [negb].
  destruct (Z.ltb_spec 1 n) as [H1 | H1]; [| reflexivity].
  unfold index_sized in E. apply andb_true_iff in E. destruct E as [_ E].
  apply Z.leb_le in E.
  assert (Hq : 1 <= PY_SSIZE_T_MAX / n) by (apply Z.div_le_lower_bound; lia).
  change (len SYMBOL) with 1.
  destruct (Z.ltb_spec (PY_SSIZE_T_MAX / n) 1); [lia | reflexivity].
Qed.


Lemma display_eq percentage completed remaining pb w :
  display percentage completed remaining {| self := pb; world := w |} =
  let p := _progress pb in
  let w1 := tick (with_cursor (is_done p) w) in
  match _start pb with
  | None => (Raise NoneType_operand, {| self := pb; world := w1 |})
  | Some t0 =>
    let elapsed := fsub (clock w (ticks w)) t0 in
    match eta_of elapsed p with
    | Raise e => (Raise e, {| self := pb; world := w1 |})
    | Ret eta =>
      match eta_format_of eta with
      | Raise e => (Raise e, {| self := pb; world := w1 |})
      | Ret eta_format =>
        if index_sized completed && index_sized remaining then
          let line :=
            if flt p (float_of_Z 1)
            then progress_line (palette p) (icon p) (_text pb) completed remaining
                   (percentage_format_of percentage) eta_format ++ CR
            else done_line (palette p) (icon p) (_text pb) completed remaining
                   (percentage_format_of percentage) elapsed ++ LF in
          (Ret tt, {| self := with_LAST (Some (clock w (S (ticks w)))) pb;
                      world := tick (write line w1) |})
        else (Raise OverflowError, {| self := pb; world := w1 |})
      end
    end
  end.
Proof.
  unfold display, bind, getattr, lift, ret, set_LAST, print, cursor_show,
    cursor_hide, on_self, on_world, perf_counter, palette, icon.
  py_step. rewrite !str_mul_SYMBOL.
  destruct (is_done (_progress pb)); py_step;
    (destruct (_start pb) as [t0 | ]; [| reflexivity]);
    (destruct (eta_of (fsub (clock w (ticks w)) t0) (_progress pb)) as [eta | e]; [| reflexivity]);
    (destruct (eta_format_of eta) as [ef | e]; [| reflexivity]);
    destruct (flt (_progress pb) (float_of_Z 1));
    destruct (index_sized completed); try reflexivity;
    destruct (index_sized remaining); reflexivity.
Qed.

Lemma started_self pb w :
  _start (self (started pb w)) = Some (start_time pb w)
  /\ _total (self (started pb w)) = _total pb
  /\ _text (self (started pb w)) = _text pb
  /\ _width (self (started pb w)) = _width pb
  /\ _progress (self (started pb w)) = _progress pb
  /\ LAST (self (started pb w)) = LAST pb.
Proof. unfold started, start_time. destruct (_start pb) eqn:E; cbn; auto 10. Qed.

Lemma started_world pb w :
  clock (world (started pb w)) = clock w
  /\ stdout (world (started pb w)) = stdout w
  /\ cursor_visible (world (started pb w)) = cursor_visible w
  /\ ticks (world (started pb w))
     = match _start pb with Some _ => ticks w | None => S (ticks w) end.
Proof. unfold started. destruct (_start pb); cbn; auto. Qed.

Lemma started_sane pb w :
  sane_clock w -> sane_start pb ->
  fin (start_time pb w) 64
  /\ fin (clock (world (started pb w)) (ticks (world (started pb w)))) 64.
Proof.
  intros Hc Hs. destruct (started_world pb w) as (-> & _). split; [| apply Hc].
  unfold start_time, sane_start in *. destruct (_start pb); auto.
Qed.

Lemma int_truediv_zero_l b : 0 < b -> int_truediv 0 b = Ret (S754_zero false).
Proof.
  intros Hb. unfold int_truediv. destruct (Z.eqb_spec b 0); [lia |].
  destruct b; try lia. reflexivity.
Qed.

Lemma round_int_fmul_zero wf B :
  fin wf B -> round_int (fmul (S754_zero false) wf) = Ret 0.
Proof. destruct wf; cbn [fin]; try contradiction; reflexivity. Qed.

Lemma eta_of_zero elapsed s : eta_of elapsed (S754_zero s) = Raise ZeroDivisionError.
Proof. reflexivity. Qed.

Lemma update_zero_state pb w wf :
  0 < int_value (_total pb) ->
  int_to_float (int_value (_width pb)) = Ret wf ->
  let r := update 0 {| self := pb; world := w |} in
  fst r = Raise ZeroDivisionError
  /\ _progress (self (snd r)) = S754_zero false
  /\ stdout (world (snd r)) = stdout w
  /\ forall elapsed, eta_of elapsed (_progress (self (snd r))) = Raise ZeroDivisionError.
Proof.
  intros Ht Hw. cbv zeta.
  pose proof (int_to_float_valid _ _ Hw) as Hwf.
  rewrite update_eq, (int_truediv_zero_l _ Ht). cbv zeta.
  change (round_ndigits (fmul (S754_zero false) (float_of_Z 100)) 4)
    with (Ret (S754_zero false)).
  rewrite Hw, (round_int_fmul_zero _ _ Hwf).
  change (flt (S754_zero false) (float_of_Z 0)) with false.
  change (flt (float_of_Z 1) (S754_zero false)) with false.
  cbv iota. rewrite display_eq. py_step.
  destruct (started_self pb w) as (-> & _).
  destruct (started_world pb w) as (_ & Hout & _).
  cbv zeta. rewrite eta_of_zero. py_step. auto using eta_of_zero.
Qed.

Lemma SFcompare_antisym a b :
  SFcompare b a = option_map CompOpp (SFcompare a b).
Proof.
  destruct a as [sa | sa | | sa ma ea], b as [sb | sb | | sb mb eb]; cbn;
    try reflexivity; try (destruct sa; reflexivity); try (destruct sb; reflexivity);
    try (destruct sa, sb; reflexivity).
  destruct sa, sb; try reflexivity;
    rewrite (Z.compare_antisym ea eb); destruct (ea ?= eb); cbn; try reflexivity;
    rewrite <- (Pos.compare_cont_antisym _ _ Eq); cbn;
    rewrite ?CompOpp_involutive; reflexivity.
Qed.

Lemma flt_asym a b : flt a b = true -> flt b a = false.
Proof.
  unfold flt, SFltb. rewrite (SFcompare_antisym a b).
  destruct (SFcompare a b) as [[ | | ] | ]; cbn; congruence.
Qed.

Lemma flt_not_feq a b : flt a b = true -> feq a b = false.
Proof. unfold flt, feq, SFltb, SFeqb. destruct (SFcompare a b) as [[ | | ] | ]; congruence. Qed.

Lemma feq_not_flt a b : feq a b = true -> flt a b = false.
Proof. unfold flt, feq, SFltb, SFeqb. destruct (SFcompare a b) as [[ | | ] | ]; congruence. Qed.

(** A fraction above one is not below zero. *)
Lemma above_one_not_negative f :
  flt (float_of_Z 1) f = true -> flt f (float_of_Z 0) = false.
Proof.
  destruct f as [s | s | | s m e]; try discriminate; destruct s; try discriminate; reflexivity.
Qed.

Lemma below_zero_not_above_one f :
  flt f (float_of_Z 0) = true -> flt (float_of_Z 1) f = false.
Proof.
  intros H. destruct (flt (float_of_Z 1) f) eqn:E; auto.
  apply above_one_not_negative in E. congruence.
Qed.

Lemma overshoot_state pb w current f :
  int_truediv current (int_value (_total pb)) = Ret f ->
  flt (float_of_Z 1) f = true ->
  let r := update current {| self := pb; world := w |} in
  stdout (world (snd r)) = stdout w
  /\ cursor_visible (world (snd r)) = cursor_visible w
  /\ _total (self (snd r)) = _total pb
  /\ _text (self (snd r)) = _text pb
  /\ _width (self (snd r)) = _width pb
  /\ LAST (self (snd r)) = LAST pb
  /\ _start (self (snd r)) = Some (start_time pb w)
  /\ _progress (self (snd r)) = f.
Proof.
  intros Hf Hgt. cbv zeta. rewrite update_eq, Hf. cbv zeta.
  destruct (started_self pb w) as (Hs & Ht & Hx & Hwd & _ & Hl).
  destruct (started_world pb w) as (_ & Ho & Hc & _).
  assert (Hfinal : forall (o : outcome unit),
            let r := (o, {| self := with_progress f (self (started pb w));
                            world := world (started pb w) |}) in
            stdout (world (snd r)) = stdout w
            /\ cursor_visible (world (snd r)) = cursor_visible w
            /\ _total (self (snd r)) = _total pb
            /\ _text (self (snd r)) = _text pb
            /\ _width (self (snd r)) = _width pb
            /\ LAST (self (snd r)) = LAST pb
            /\ _start (self (snd r)) = Some (start_time pb w)
            /\ _progress (self (snd r)) = f)
    by (intros o; py_step; auto 10).
  destruct (round_ndigits (fmul f (float_of_Z 100)) 4); [| apply Hfinal].
  destruct (int_to_float (int_value (_width pb))); [| apply Hfinal].
  destruct (round_int (fmul f a0)); [| apply Hfinal].
  rewrite (above_one_not_negative _ Hgt), Hgt. apply Hfinal.
Qed.

Lemma fsub_readings now t0 :
  fin now 64 -> fin t0 64 -> fin (fsub now t0) 66.
Proof. intros Hn Ht. apply (fsub_bound _ _ 64 64); auto; lia. Qed.

(** At a fraction of exactly one the ETA is one second. *)
Lemma eta_of_done elapsed B :
  fin elapsed B -> 0 <= B <= 1000 -> eta_of elapsed (float_of_Z 1) = Ret (float_of_Z 1).
Proof.
  intros He HB. unfold eta_of, float_truediv.
  change (is_zero (float_of_Z 1)) with false. cbv iota. cbn [obind].
  change (fsub (float_of_Z 1) (float_of_Z 1)) with (S754_zero false).
  assert (Hq : fin (fdiv elapsed (float_of_Z 1)) (B + 1)).
  { rewrite float_of_Z_1. apply (fdiv_fin _ _ _ _ B B); auto; cbn; lia. }
  destruct (fdiv elapsed (float_of_Z 1)) as [s | s | | s m e]; cbn [fin] in Hq;
    try contradiction; reflexivity.
Qed.

Lemma round_int_fmul_one wf B :
  fin wf B -> exists completed, round_int (fmul (float_of_Z 1) wf) = Ret completed.
Proof.
  intros Hw. destruct wf as [s | s | | s m e]; cbn [fin] in Hw; try contradiction.
  - exists 0. reflexivity.
  - destruct Hw as [Hb _]. rewrite fmul_one_l by auto. unfold round_int. eauto.
Qed.

Lemma eps_eq : eps = S754_finite false 4951760157141521 (-92).
Proof. reflexivity. Qed.

Lemma fin_eps : fin eps (-39).
Proof. rewrite eps_eq. split; [reflexivity | cbn; lia]. Qed.


(** A quotient of two integers is finite, in the range of its operands. *)
Lemma int_truediv_fin a b f K :
  int_truediv a b = Ret f -> Z.abs a < 2 ^ K -> 0 <= K <= 1020 -> fin f (K + 2).
Proof.
  intros Hf Ha HK. unfold int_truediv in Hf.
  destruct (Z.eqb_spec b 0) as [Eb | Nb]; [discriminate |].
  destruct a as [ | pa | pa].
  - destruct b; [lia | |]; cbn in Hf; inversion Hf; exact I.
  - assert (Hda : Zpos (digits2_pos pa) <= K)
      by (apply (dg_le (Zpos pa) K); lia).
    destruct b as [ | pb | pb]; [lia | |]; cbn [exact_int] in Hf.
    + pose proof (fdiv_finite_fin false pa 0 false pb 0 (K + 1) ltac:(lia) ltac:(lia)) as [Hfin _].
      cbv zeta in Hfin.
      destruct (fdiv (S754_finite false pa 0) (S754_finite false pb 0)); inversion Hf; subst;
        cbn [fin] in *; intuition lia.
    + pose proof (fdiv_finite_fin false pa 0 true pb 0 (K + 1) ltac:(lia) ltac:(lia)) as [Hfin _].
      cbv zeta in Hfin.
      destruct (fdiv (S754_finite false pa 0) (S754_finite true pb 0)); inversion Hf; subst;
        cbn [fin] in *; intuition lia.
  - assert (Hda : Zpos (digits2_pos pa) <= K)
      by (apply (dg_le (Zpos pa) K); lia).
    destruct b as [ | pb | pb]; [lia | |]; cbn [exact_int] in Hf.
    + pose proof (fdiv_finite_fin true pa 0 false pb 0 (K + 1) ltac:(lia) ltac:(lia)) as [Hfin _].
      cbv zeta in Hfin.
      destruct (fdiv (S754_finite true pa 0) (S754_finite false pb 0)); inversion Hf; subst;
        cbn [fin] in *; intuition lia.
    + pose proof (fdiv_finite_fin true pa 0 true pb 0 (K + 1) ltac:(lia) ltac:(lia)) as [Hfin _].
      cbv zeta in Hfin.
      destruct (fdiv (S754_finite true pa 0) (S754_finite true pb 0)); inversion Hf; subst;
        cbn [fin] in *; intuition lia.
Qed.

Lemma int_to_float_ok n K :
  Z.abs n < 2 ^ K -> 0 <= K <= 1023 -> exists wf, int_to_float n = Ret wf /\ fin wf (K + 1).
Proof.
  intros Hn HK. unfold int_to_float.
  assert (Hd : dg (Z.abs n) + 0 <= K) by (pose proof (dg_le (Z.abs n) K); lia).
  pose proof (binary_normalize_fin n 0 false K Hd ltac:(lia)) as Hf.
  fold (float_of_Z n) in Hf.
  destruct (float_of_Z n); cbn [fin] in Hf; try contradiction; eauto.
Qed.

Lemma fin_100 : fin (float_of_Z 100) 7.
Proof. split; [reflexivity | cbn; lia]. Qed.

Lemma uint_digits_are_digits d : Forall is_digit (uint_digits d).
Proof. induction d; cbn; constructor; auto; unfold is_digit; lia. Qed.


Lemma two_digit_table : forallb two_digit_check (map Z.of_nat (seq 0 100)) = true.
Proof. vm_compute. reflexivity. Qed.

Lemma two_digits k :
  0 <= k < 100 ->
  exists d1 d2, zfill (nat_digits k) 2 = [d1; d2] /\ is_digit d1 /\ is_digit d2.
Proof.
  intros Hk.
  assert (Hin : In k (map Z.of_nat (seq 0 100))).
  { apply in_map_iff. exists (Z.to_nat k). split; [lia |]. apply in_seq. lia. }
  pose proof (proj1 (forallb_forall _ _) two_digit_table k Hin) as Hc.
  unfold two_digit_check in Hc.
  destruct (zfill (nat_digits k) 2) as [ | d1 [ | d2 [ | ? ?]]]; try discriminate.
  exists d1, d2. split; auto.
  rewrite !andb_true_iff, !N.leb_le in Hc. unfold is_digit. lia.
Qed.


Lemma display_fields percentage completed remaining s :
  let r := display percentage completed remaining s in
  _start (self (snd r)) = _start (self s)
  /\ _total (self (snd r)) = _total (self s)
  /\ _text (self (snd r)) = _text (self s)
  /\ _width (self (snd r)) = _width (self s)
  /\ _progress (self (snd r)) = _progress (self s).
Proof.
  destruct s as [pb w]. cbv zeta. rewrite display_eq. py_step. cbv zeta.
  destruct (_start pb) as [t0 | ] eqn:Es; [| py_step; auto].
  destruct (eta_of _ _); [| py_step; auto].
  destruct (eta_format_of _); [| py_step; auto].
  destruct (index_sized completed && index_sized remaining); py_step; auto.
Qed.

Lemma started_with_progress p pb w :
  started (with_progress p pb) w
  = {| self := with_progress p (self (started pb w)); world := world (started pb w) |}.
Proof. unfold started. cbn [_start with_progress]. destruct (_start pb); reflexivity. Qed.

(** [update] never reads the stored fraction. *)
Lemma update_ignores_progress current p pb w :
  let r := update current {| self := pb; world := w |} in
  let r' := update current {| self := with_progress p pb; world := w |} in
  fst r' = fst r /\ world (snd r') = world (snd r)
  /\ (forall q, int_truediv current (int_value (_total pb)) = Ret q -> r' = r).
Proof.
  cbv zeta. rewrite !update_eq. rewrite started_with_progress.
  cbn [_total _width with_progress self world]. cbv zeta.
  destruct (int_truediv current (int_value (_total pb))) as [q | e].
  - split; [| split]; [reflexivity | reflexivity | intros; reflexivity].
  - cbn [fst snd world]. split; [| split]; auto. intros q Hq. discriminate.
Qed.

Lemma app_one_neq {A} (l : list A) x : l <> l ++ [x].
Proof.
  intros H. apply (f_equal (@List.length A)) in H. rewrite length_app in H. cbn in H. lia.
Qed.

(** What a returning [display] has done. *)
Lemma display_returns percentage completed remaining pb w :
  let r := display percentage completed remaining {| self := pb; world := w |} in
  fst r = Ret tt ->
  exists t0 eta eta_format,
    _start pb = Some t0
    /\ eta_of (fsub (clock w (ticks w)) t0) (_progress pb) = Ret eta
    /\ eta_format_of eta = Ret eta_format
    /\ cursor_visible (world (snd r)) = is_done (_progress pb)
    /\ stdout (world (snd r))
       = stdout w ++
         [if flt (_progress pb) (float_of_Z 1)
          then progress_line (palette (_progress pb)) (icon (_progress pb)) (_text pb)
                 completed remaining (percentage_format_of percentage) eta_format ++ CR
          else done_line (palette (_progress pb)) (icon (_progress pb)) (_text pb)
                 completed remaining (percentage_format_of percentage)
                 (fsub (clock w (ticks w)) t0) ++ LF].
Proof.
  cbv zeta. rewrite display_eq. cbv zeta.
  destruct (_start pb) as [t0 | ]; [| discriminate].
  destruct (eta_of (fsub (clock w (ticks w)) t0) (_progress pb)) as [eta | e] eqn:Eeta;
    [| discriminate].
  destruct (eta_format_of eta) as [ef | e] eqn:Ef; [| discriminate].
  destruct (index_sized completed && index_sized remaining); [| discriminate].
  intros _. exists t0, eta, ef. py_step. auto.
Qed.

(** A returning [display] has built both runs of cells: the two counts are
    index-sized. *)
Lemma display_returns_cells percentage completed remaining s :
  fst (display percentage completed remaining s) = Ret tt ->
  index_sized completed = true /\ index_sized remaining = true.
Proof.
  destruct s as [pb w]. rewrite display_eq. cbv zeta.
  destruct (_start pb) as [t0 | ]; [| discriminate].
  destruct (eta_of (fsub (clock w (ticks w)) t0) (_progress pb)) as [eta | e];
    [| discriminate].
  destruct (eta_format_of eta) as [ef | e]; [| discriminate].
  destruct (index_sized completed); [| discriminate].
  destruct (index_sized remaining); [auto | discriminate].
Qed.

(** What a returning [update] has done: nothing above a fraction of one,
    and otherwise one [display] at the stored fraction. *)
Lemma update_returns current pb w :
  let r := update current {| self := pb; world := w |} in
  fst r = Ret tt ->
  exists q percentage wf completed,
    int_truediv current (int_value (_total pb)) = Ret q
    /\ round_ndigits (fmul q (float_of_Z 100)) 4 = Ret percentage
    /\ int_to_float (int_value (_width pb)) = Ret wf
    /\ round_int (fmul q wf) = Ret completed
    /\ ((flt q (float_of_Z 0) = false /\ flt (float_of_Z 1) q = true
         /\ _progress (self (snd r)) = q
         /\ stdout (world (snd r)) = stdout w)
        \/ exists p,
             p = (if flt q (float_of_Z 0) then eps else q)
             /\ (flt q (float_of_Z 0) = true \/ flt (float_of_Z 1) q = false)
             /\ r = display (clamp percentage) completed
                      (int_value (_width pb) - completed)
                      {| self := with_progress p (self (started pb w));
                         world := world (started pb w) |}).
Proof.
  cbv zeta. rewrite update_eq. cbv zeta.
  destruct (int_truediv current (int_value (_total pb))) as [q | e] eqn:Eq; [| discriminate].
  destruct (round_ndigits (fmul q (float_of_Z 100)) 4) as [pct | e] eqn:Ep; [| discriminate].
  destruct (int_to_float (int_value (_width pb))) as [wf | e] eqn:Ew; [| discriminate].
  destruct (round_int (fmul q wf)) as [c | e] eqn:Ec; [| discriminate].
  intros Hr. exists q, pct, wf, c. do 4 (split; [first [assumption | reflexivity] |]).
  destruct (flt q (float_of_Z 0)) eqn:Eneg.
  - right. exists eps. auto.
  - destruct (flt (float_of_Z 1) q) eqn:Egt.
    + left. py_step. destruct (started_world pb w) as (_ & Ho & _). auto.
    + right. exists q. auto.
Qed.

Lemma eta_format_of_inv eta s :
  eta_format_of eta = Ret s ->
  exists mf minutes sf seconds,
    float_floordiv eta (float_of_Z 60) = Ret mf /\ int_of_float mf = Ret minutes
    /\ float_rem eta (float_of_Z 60) = Ret sf /\ int_of_float sf = Ret seconds
    /\ s = zfill (str_of_int minutes) 2 ++ lit ":" ++ zfill (str_of_int seconds) 2.
Proof.
  unfold eta_format_of.
  destruct (float_floordiv eta (float_of_Z 60)) as [mf | ] eqn:E1; cbn [obind]; [| discriminate].
  destruct (int_of_float mf) as [minutes | ] eqn:E2; cbn [obind]; [| discriminate].
  destruct (float_rem eta (float_of_Z 60)) as [sf | ] eqn:E3; cbn [obind]; [| discriminate].
  destruct (int_of_float sf) as [seconds | ] eqn:E4; cbn [obind]; [| discriminate].
  intros H. inversion H. exists mf, minutes, sf, seconds.
  repeat split; first [assumption | reflexivity].
Qed.

Lemma eta_of_inv elapsed p eta :
  eta_of elapsed p = Ret eta ->
  is_zero p = false
  /\ eta = fadd (fmul (fdiv elapsed p) (fsub (float_of_Z 1) p)) (float_of_Z 1).
Proof.
  unfold eta_of, float_truediv. destruct (is_zero p); cbn [obind]; [discriminate |].
  intros H. inversion H. auto.
Qed.

Lemma init_fresh total : __init__ (VInt total) default_text VNone = Ret (fresh total).
Proof. reflexivity. Qed.

Lemma demo_world_sane : sane_clock demo_world.
Proof.
  intros n. cbn [clock demo_world]. unfold readings.
  do 10 (destruct n as [ | n]; [vm_compute; try exact I; (split; [reflexivity | discriminate]) |]).
  destruct n; exact I.
Qed.

Lemma fresh_sane total : sane_start (fresh total).
Proof. exact I. Qed.

Lemma number_of_valid x : x <> S754_nan -> valid_binary prec emax x = true -> number x.
Proof. destruct x; cbn; auto. Qed.

Lemma fin_number x B : fin x B -> number x.
Proof. destruct x; cbn; tauto. Qed.

Lemma number_cases x :
  number x -> (exists s, x = S754_infinity s) \/ fin x 1024.
Proof.
  destruct x as [s | s | | s m e]; cbn [number]; intros H; try contradiction.
  - right. exact I.
  - left. eauto.
  - right. apply bounded_fin. exact H.
Qed.

Lemma fdiv_finite_number sx mx ex sy my ey :
  number (fdiv (S754_finite sx mx ex) (S754_finite sy my ey)).
Proof.
  unfold fdiv, SFdiv.
  pose proof (div_core_bounds (Zpos mx) ex (Zpos my) ey ltac:(lia) ltac:(lia)) as H.
  cbv zeta in H.
  destruct (SFdiv_core_binary prec emax (Zpos mx) ex (Zpos my) ey) as [[q e'] l].
  destruct H as (Hq & Hpre & _).
  destruct (bra_valid (xorb sx sy) q e' l Hq Hpre) as (Hn & Hv & _).
  apply number_of_valid; assumption.
Qed.

Lemma int_truediv_number a b f : int_truediv a b = Ret f -> fin f 1024.
Proof.
  unfold int_truediv. destruct (Z.eqb_spec b 0) as [ | Nb]; [discriminate |].
  destruct a as [ | pa | pa], b as [ | pb | pb]; try lia; cbn [exact_int];
    try (intros H; inversion H; exact I).
  all: match goal with |- context [fdiv ?x ?y] =>
         assert (Hnum : number (fdiv x y)) by apply fdiv_finite_number;
         destruct (number_cases _ Hnum) as [[s ->] | Hf]; [discriminate |];
         destruct (fdiv x y); intros Hret; inversion Hret; subst; assumption
       end.
Qed.

Lemma fmul_number x y : fin x 1024 -> fin y 1024 -> number (fmul x y).
Proof.
  intros Hx Hy. destruct x as [sx | sx | | sx mx ex], y as [sy | sy | | sy my ey];
    cbn [fin] in Hx, Hy; try contradiction; try exact I.
  destruct Hx as [Hbx _], Hy as [Hby _].
  apply bounded_iff in Hbx, Hby. destruct Hbx as [Hcx _], Hby as [Hcy _].
  unfold fmul, SFmul.
  pose proof (dg_mul (Zpos mx) (Zpos my) ltac:(lia) ltac:(lia)) as Hd.
  change (Zpos mx * Zpos my) with (Zpos (mx * my)) in Hd.
  unfold dg in Hd. cbn [Zdigits2] in Hd.
  assert (Hpre : ex + ey <= fexp64 (dg (Zpos (mx * my)) + (ex + ey)))
    by (unfold dg; cbn [Zdigits2]; unfold fexp64 in *; lia).
  destruct (bra_valid (xorb sx sy) (Zpos (mx * my)) (ex + ey) loc_Exact ltac:(lia) Hpre)
    as (Hn & Hv & _).
  apply number_of_valid; assumption.
Qed.

(** Rounding a large float to four decimals gives it back. *)
Lemma round_ndigits_large s m e :
  bounded prec emax m e = true -> 1000 < Zpos (digits2_pos m) + e ->
  round_ndigits (S754_finite s m e) 4 = Ret (S754_finite s m e).
Proof.
  intros Hb Hbig. apply bounded_iff in Hb. destruct Hb as [Hc He].
  assert (He0 : 900 <= e) by (unfold fexp64 in Hc; lia).
  unfold round_ndigits. change (10 ^ 4) with 10000.
  assert (Hsr : scaled_round m e 10000 = Zpos m * 10000 * 2 ^ e).
  { unfold scaled_round, div_half_even.
    replace (Z.max e 0) with e by lia. replace (Z.max (- e) 0) with 0 by lia.
    change (2 ^ 0) with 1. rewrite Z.mod_1_r, Z.div_1_r. reflexivity. }
  rewrite Hsr.
  assert (P2 : 0 < 2 ^ e) by (apply Z.pow_pos_nonneg; lia).
  assert (PN : 0 < Zpos m * 10000 * 2 ^ e) by nia.
  destruct (Z.eqb_spec (Zpos m * 10000 * 2 ^ e) 0) as [ | _]; [lia |].
  destruct (exact_int_cond_Zopp s _ PN) as (p & -> & Hp).
  cbn [exact_int]. unfold fdiv, SFdiv.
  assert (Hcore : SFdiv_core_binary prec emax (Zpos p) 0 (Zpos 10000) 0
                  = (Zpos m * 2 ^ e, 0, loc_Exact)).
  { unfold SFdiv_core_binary. rewrite fexp_eq.
    assert (Hdp : 1000 <= Zdigits2 (Zpos p)).
    { apply (dg_ge (Zpos p) 1000); [| lia]. rewrite Hp.
      pose proof (dg_bounds (Zpos m) ltac:(lia)) as [Hl _].
      unfold dg in Hl. cbn [Zdigits2] in Hl.
      assert (2 ^ (1000 - 1) <= 2 ^ (Zpos (digits2_pos m) - 1 + e))
        by (apply Z.pow_le_mono_r; lia).
      rewrite Z.pow_add_r in H by lia. nia. }
    change (Zdigits2 (Zpos 10000)) with 14.
    replace (Z.min (fexp64 (Zdigits2 (Zpos p) + 0 - (14 + 0))) (0 - 0)) with 0
      by (unfold fexp64; lia).
    change (0 - 0 - 0) with 0. cbv iota beta zeta.
    rewrite Hp.
    pose proof (Z_div_mod (Zpos m * 10000 * 2 ^ e) 10000 ltac:(lia)) as H.
    destruct (Z.div_eucl (Zpos m * 10000 * 2 ^ e) 10000) as [q r]. destruct H as [Hq Hr].
    assert (q = Zpos m * 2 ^ e) by nia. assert (r = 0) by nia. subst q r.
    reflexivity. }
  rewrite Hcore.
  replace 0 with (e - e) at 1 by lia.
  rewrite bra_exact by (auto; lia). destruct s; reflexivity.
Qed.

(** [round(x, 4)] raises on no float that is a number. *)
Lemma round_ndigits_total x : number x -> exists r, round_ndigits x 4 = Ret r.
Proof.
  intros Hx. destruct x as [s | s | | s m e]; cbn [number] in Hx; try contradiction;
    try (unfold round_ndigits; eauto; fail).
  destruct (Z_le_gt_dec (Zpos (digits2_pos m) + e) 1000) as [Hle | Hgt].
  - apply (round_ndigits_ok _ 1000); [split; auto | lia].
  - rewrite round_ndigits_large by (auto; lia). eauto.
Qed.

Lemma percentage_total current total f :
  int_truediv current total = Ret f ->
  exists percentage, round_ndigits (fmul f (float_of_Z 100)) 4 = Ret percentage.
Proof.
  intros Hf. apply round_ndigits_total, fmul_number.
  - apply (int_truediv_number _ _ _ Hf).
  - apply fin_weaken with 7; [apply fin_100 | lia].
Qed.

Lemma update_stores_fraction current pb w q :
  int_truediv current (int_value (_total pb)) = Ret q ->
  flt q (float_of_Z 0) = false ->
  _progress (self (snd (update current {| self := pb; world := w |}))) = q.
Proof.
  intros Hq Hneg. rewrite update_eq, Hq. cbv zeta.
  destruct (round_ndigits (fmul q (float_of_Z 100)) 4); [| reflexivity].
  destruct (int_to_float (int_value (_width pb))); [| reflexivity].
  destruct (round_int (fmul q a0)); [| reflexivity].
  rewrite Hneg. destruct (flt (float_of_Z 1) q); [reflexivity |].
  match goal with |- context [display ?a ?b ?c ?s] =>
    destruct (display_fields a b c s) as (_ & _ & _ & _ & ->) end.
  reflexivity.
Qed.


Lemma zfill_small_nat k :
  (k < 10)%nat -> zfill (str_of_int (Z.of_nat k)) 2 = 48%N :: str_of_int (Z.of_nat k).
Proof. intros Hk. do 10 (destruct k as [ | k]; [reflexivity |]). lia. Qed.

Lemma zfill_small n : 0 <= n < 10 -> zfill (str_of_int n) 2 = 48%N :: str_of_int n.
Proof.
  intros Hn. rewrite <- (Z2Nat.id n) by lia. apply zfill_small_nat. lia.
Qed.

Lemma zfill_long c1 c2 rest :
  is_digit c1 -> zfill (c1 :: c2 :: rest) 2 = c1 :: c2 :: rest.
Proof.
  intros Hd. unfold zfill, len. cbn [List.length].
  replace (Z.to_nat (2 - Z.of_nat (S (S (List.length rest))))) with 0%nat by lia.
  cbn [repeat app].
  unfold is_digit in Hd.
  destruct (N.eqb_spec c1 43); [lia |]. destruct (N.eqb_spec c1 45); [lia |]. reflexivity.
Qed.

Lemma zfill_large n : 10 <= n -> zfill (str_of_int n) 2 = str_of_int n.
Proof.
  intros Hn. unfold str_of_int. destruct (Z.ltb_spec n 0); [lia |].
  unfold nat_digits.
  pose proof (DecimalN.Unsigned.of_to (Z.to_N n)) as Hof.
  pose proof (uint_digits_are_digits (N.to_uint (Z.to_N n))) as Hd.
  destruct (N.to_uint (Z.to_N n)) as [ | u | u | u | u | u | u | u | u | u | u];
    try (cbn in Hof; lia);
    (destruct u; [cbn in Hof; lia | .. ]);
    cbn [uint_digits] in *; apply zfill_long; inversion Hd; assumption.
Qed.

Lemma init_wide total :
  __init__ (VInt total) default_text (VInt (2 ^ 1024)) = Ret (wide total).
Proof. reflexivity. Qed.

Lemma singleton_inj {A} (a b : A) : [a] = [b] -> a = b.
Proof. intros H. injection H. auto. Qed.

Lemma app_regroup {A} (a b c d e f g h : list A) :
  (a ++ b ++ c ++ d ++ e ++ f ++ g) ++ h = (a ++ b ++ c) ++ d ++ e ++ f ++ g ++ h.
Proof. rewrite <- !app_assoc. reflexivity. Qed.

Lemma progress_line_suffix COLORS ICON text completed remaining pf mm ss :
  progress_line COLORS ICON text completed remaining pf (mm ++ lit ":" ++ ss) ++ CR
  = (line_prefix COLORS ICON text completed remaining pf ++ lit " " ++ c_text COLORS)
      ++ lit "ETA: " ++ mm ++ lit ":" ++ ss ++ CR.
Proof. unfold progress_line. apply app_regroup. Qed.

Lemma running_look p :
  flt p (float_of_Z 1) = true -> palette p = running_colors /\ icon p = ICON_running.
Proof.
  intros H. unfold palette, icon, is_done. rewrite (flt_not_feq _ _ H). split; reflexivity.
Qed.

(** On a total of 100 the fraction is below one up to 99, one at 100, and
    the displayed percentages never decrease. *)
Lemma hundred_fractions :
  forallb hundred_check (map Z.of_nat (seq 0 100)) = true
  /\ fraction_of 100 = Ret (float_of_Z 1).
Proof. vm_compute. split; reflexivity. Qed.

(** ** Rounding and order on binary64 *)

Module Rounding.

Lemma shr_1_flag mrs : 0 <= shr_m mrs ->
  inexact (shr_1 mrs) = inexact mrs || negb (shr_m mrs mod 2 =? 0).
Proof.
  destruct mrs as [m r s]. cbn [shr_m]. intros Hm. unfold inexact.
  destruct m as [ | [p | p | ] | p]; cbn [shr_1 shr_r shr_s]; try lia.
  - cbn. rewrite orb_false_r. reflexivity.
  - rewrite Pos2Z.inj_xI.
    replace ((2 * Zpos p + 1) mod 2) with 1
      by (apply Z.mod_unique with (Zpos p); lia).
    cbn. rewrite orb_true_r. reflexivity.
  - rewrite Pos2Z.inj_xO.
    replace ((2 * Zpos p) mod 2) with 0
      by (apply Z.mod_unique with (Zpos p); lia).
    cbn. rewrite orb_false_r. reflexivity.
  - cbn. rewrite orb_true_r. reflexivity.
Qed.

Lemma mod_pow2_split m a b : 0 <= m -> 0 <= a -> 0 <= b ->
  (m mod 2 ^ (a + b) =? 0) = (m mod 2 ^ a =? 0) && ((m / 2 ^ a) mod 2 ^ b =? 0).
Proof.
  intros Hm Ha Hb.
  assert (Pa : 0 < 2 ^ a) by (apply Z.pow_pos_nonneg; lia).
  assert (Pb : 0 < 2 ^ b) by (apply Z.pow_pos_nonneg; lia).
  rewrite Z.pow_add_r by lia.
  rewrite Z.rem_mul_r by lia.
  pose proof (Z.mod_pos_bound m (2 ^ a) Pa).
  pose proof (Z.mod_pos_bound (m / 2 ^ a) (2 ^ b) Pb).
  destruct (Z.eqb_spec (m mod 2 ^ a) 0) as [E1 | N1];
    destruct (Z.eqb_spec ((m / 2 ^ a) mod 2 ^ b) 0) as [E2 | N2]; cbn;
    apply Z.eqb_eq || apply Z.eqb_neq; nia.
Qed.

Lemma iter_shr_1_flag p : forall mrs, 0 <= shr_m mrs ->
  inexact (iter_pos shr_1 p mrs) = inexact mrs || negb (shr_m mrs mod 2 ^ Zpos p =? 0).
Proof.
  induction p as [p IH | p IH | ]; intros mrs Hm; cbn [iter_pos].
  - assert (H1 : 0 <= shr_m (shr_1 mrs)) by (rewrite shr_1_m by auto; apply Z.div_pos; lia).
    assert (H2 : 0 <= shr_m (iter_pos shr_1 p (shr_1 mrs)))
      by (rewrite iter_shr_1_m by auto; apply Z.div_pos; [auto | apply Z.pow_pos_nonneg; lia]).
    rewrite IH, IH, shr_1_flag by auto.
    rewrite iter_shr_1_m, shr_1_m by auto.
    replace (Zpos p~1) with (1 + (Zpos p + Zpos p)) by lia.
    rewrite (mod_pow2_split (shr_m mrs) 1 (Zpos p + Zpos p)) by lia.
    rewrite (mod_pow2_split (shr_m mrs / 2 ^ 1) (Zpos p) (Zpos p)) by (try apply Z.div_pos; lia).
    change (2 ^ 1) with 2.
    rewrite !negb_andb, !orb_assoc. reflexivity.
  - assert (H2 : 0 <= shr_m (iter_pos shr_1 p mrs))
      by (rewrite iter_shr_1_m by auto; apply Z.div_pos; [auto | apply Z.pow_pos_nonneg; lia]).
    rewrite IH, IH by auto. rewrite iter_shr_1_m by auto.
    replace (Zpos p~0) with (Zpos p + Zpos p) by lia.
    rewrite (mod_pow2_split (shr_m mrs) (Zpos p) (Zpos p)) by lia.
    rewrite !negb_andb, !orb_assoc. reflexivity.
  - rewrite shr_1_flag by auto. reflexivity.
Qed.

Lemma inexact_of_loc l : inexact (shr_record_of_loc 0 l) = false -> l = loc_Exact.
Proof. destruct l as [ | [ | | ]]; unfold inexact; cbn; congruence. Qed.

Lemma inexact_record_of_loc m l :
  inexact (shr_record_of_loc m l) = true -> l <> loc_Exact.
Proof. destruct l as [ | [ | | ]]; unfold inexact; cbn; congruence. Qed.

Lemma shr_fexp_flag m e l : 0 <= m ->
  let n := fexp64 (dg m + e) - e in
  inexact (fst (shr_fexp prec emax m e l)) = true ->
  l <> loc_Exact \/ (0 < n /\ m mod 2 ^ n <> 0).
Proof.
  intros Hm n. unfold shr_fexp, shr. rewrite fexp_eq. fold (dg m). fold n.
  destruct n as [ | p | p ] eqn:En; cbn [fst].
  - intros H. left. eapply inexact_record_of_loc; eauto.
  - rewrite iter_shr_1_flag by (rewrite shr_record_of_loc_m; auto).
    rewrite shr_record_of_loc_m. intros H. apply orb_true_iff in H. destruct H as [H | H].
    + left. eapply inexact_record_of_loc; eauto.
    + right. split; [lia |]. apply negb_true_iff, Z.eqb_neq in H. exact H.
  - intros H. left. eapply inexact_record_of_loc; eauto.
Qed.

Lemma round_nearest_even_up mrs :
  let m2 := round_nearest_even (shr_m mrs) (loc_of_shr_record mrs) in
  m2 = shr_m mrs \/ (m2 = shr_m mrs + 1 /\ inexact mrs = true).
Proof.
  destruct mrs as [m [ | ] [ | ]]; unfold inexact; cbn; auto. destruct (Z.even m); auto.
Qed.

(** The value of every result of [binary_round_aux]: the significand
    shifted to the exponent of its magnitude, or the next integer when
    something was lost. *)
Lemma bra_value sx mx ex lx :
  0 <= mx -> ex <= fexp64 (dg mx + ex) ->
  let e1 := fexp64 (dg mx + ex) in
  let n := e1 - ex in
  let r := binary_round_aux prec emax sx mx ex lx in
  exists m2,
    (m2 = mx / 2 ^ n \/ (m2 = mx / 2 ^ n + 1 /\ (lx <> loc_Exact \/ mx mod 2 ^ n <> 0)))
    /\ ((m2 = 0 /\ r = S754_zero sx)
        \/ exists m e,
             Zpos m * 2 ^ (e - e1) = m2 /\ e1 <= e
             /\ fexp64 (Zpos (digits2_pos m) + e) = e
             /\ r = if e <=? emax - prec then S754_finite sx m e else S754_infinity sx).
Proof.
  intros Hm Hpre. cbv zeta. unfold binary_round_aux.
  pose proof (shr_fexp_spec mx ex lx Hm) as S1. cbv zeta in S1.
  pose proof (shr_fexp_flag mx ex lx Hm) as F1. cbv zeta in F1.
  destruct (shr_fexp prec emax mx ex lx) as [mrs1 e1]. cbn [fst snd] in S1, F1.
  destruct S1 as [S1m S1e].
  set (n := fexp64 (dg mx + ex) - ex) in *.
  assert (Hn : 0 <= n) by (unfold n; lia).
  assert (He1 : e1 = fexp64 (dg mx + ex)) by (destruct (Z.ltb_spec 0 n); unfold n in *; lia).
  assert (Hm1 : shr_m mrs1 = mx / 2 ^ n).
  { destruct (Z.ltb_spec 0 n); auto. assert (n = 0) by lia.
    rewrite S1m. replace n with 0 by lia. cbn. symmetry. apply Z.div_1_r. }
  clear S1m S1e.
  assert (H2n : 0 < 2 ^ n) by (apply Z.pow_pos_nonneg; lia).
  assert (Hm1' : 0 <= shr_m mrs1) by (rewrite Hm1; apply Z.div_pos; lia).
  pose proof (round_nearest_even_up mrs1) as Hm2. cbv zeta in Hm2.
  set (m2 := round_nearest_even (shr_m mrs1) (loc_of_shr_record mrs1)) in *.
  assert (Hm2' : 0 <= m2) by lia.
  exists m2. split.
  { destruct Hm2 as [E | [E Hfl]]; [left; congruence | right].
    split; [congruence |]. destruct (F1 Hfl) as [? | [_ ?]]; auto. }
  assert (Hm2c : m2 = shr_m mrs1 \/ m2 = shr_m mrs1 + 1) by (destruct Hm2 as [? | [? _]]; auto).
  clear Hm2 F1.
  pose proof (shr_fexp_spec m2 e1 loc_Exact Hm2') as S2. cbv zeta in S2.
  destruct (shr_fexp prec emax m2 e1 loc_Exact) as [mrs2 e2]. cbn [fst snd] in S2.
  destruct S2 as [S2m S2e].
  rewrite <- He1.
  assert (Hcase : (0 < shr_m mrs1 /\ dg (shr_m mrs1) + e1 = dg mx + ex)
                  \/ (shr_m mrs1 = 0 /\ e1 = -1074)).
  { destruct (Z_lt_le_dec n (dg mx)) as [Hlt | Hge].
    - left. assert (0 < mx) by (destruct mx; cbn in *; lia).
      rewrite Hm1, div_pow2_dg by lia. split; [| unfold n; lia].
      pose proof (dg_bounds mx ltac:(lia)) as [Hl _].
      assert (2 ^ n <= 2 ^ (dg mx - 1)) by (apply Z.pow_le_mono_r; lia).
      apply Z.div_str_pos. lia.
    - right. rewrite Hm1, div_pow2_small by auto. split; auto.
      unfold n, fexp64 in *. lia. }
  destruct Hcase as [[Hpos Hmag] | [Hz Hemin]].
  - right.
    assert (Hm2pos : 0 < m2) by lia.
    assert (Hdm2 : dg m2 = dg (shr_m mrs1)
                   \/ (dg m2 = dg (shr_m mrs1) + 1 /\ m2 = 2 ^ dg (shr_m mrs1))).
    { destruct Hm2c as [-> | ->]; auto. apply dg_succ; lia. }
    set (d1 := dg (shr_m mrs1)) in *.
    assert (Hd1pos : 0 < d1) by (apply dg_pos; auto).
    destruct Hdm2 as [Hsame | [Hcarry Hpow]].
    + assert (Hn2 : fexp64 (dg m2 + e1) - e1 = 0) by (rewrite Hsame, Hmag; lia).
      rewrite Hn2 in S2m, S2e. cbn in S2m, S2e. rewrite S2m.
      destruct m2 as [ | p | p ] eqn:Em2; try lia.
      exists p, e2. unfold dg in *. cbn [Zdigits2] in *. subst e2.
      rewrite Z.sub_diag. cbn [Z.pow].
      split; [lia |]. split; [lia |]. split; [unfold fexp64 in *; lia | reflexivity].
    + destruct (Z.ltb_spec 0 (fexp64 (dg m2 + e1) - e1)) as [Hsh | Hsh].
      * assert (Hn2 : fexp64 (dg m2 + e1) - e1 = 1)
          by (unfold fexp64 in *; lia).
        rewrite Hn2 in S2m, S2e. rewrite S2m, Hpow.
        replace (2 ^ d1) with (2 ^ (d1 - 1) * 2 ^ 1)
          by (rewrite <- Z.pow_add_r by lia; f_equal; lia).
        rewrite Z.div_mul by lia.
        assert (Hp : 0 < 2 ^ (d1 - 1)) by (apply Z.pow_pos_nonneg; lia).
        assert (Hdd : dg (2 ^ (d1 - 1)) = d1) by (rewrite dg_pow2 by lia; lia).
        destruct (2 ^ (d1 - 1)) as [ | p | p ] eqn:Ep; try lia.
        exists p, e2. unfold dg in Hdd. cbn [Zdigits2] in Hdd. rewrite Hdd. subst e2.
        replace (e1 + 1 - e1) with 1 by lia.
        split; [reflexivity |]. split; [lia |].
        split; [unfold fexp64 in *; lia | reflexivity].
      * rewrite S2m.
        destruct m2 as [ | p | p ] eqn:Em2; try lia.
        exists p, e2. unfold dg in Hcarry, Hsh, S2e. cbn [Zdigits2] in Hcarry, Hsh, S2e. subst e2.
        rewrite Z.sub_diag. cbn [Z.pow].
        split; [lia |]. split; [lia |]. split; [unfold fexp64 in *; lia | reflexivity].
  - rewrite Hz in Hm2c. destruct Hm2c as [E | E].
    + left. split; [assumption |].
      rewrite E in S2m, S2e. unfold dg in S2m, S2e. cbn [Zdigits2] in S2m, S2e.
      assert (Hn2 : (0 <? fexp64 (0 + e1) - e1) = false)
        by (apply Z.ltb_ge; unfold fexp64; lia).
      rewrite Hn2 in S2m. rewrite S2m. reflexivity.
    + right. rewrite E in S2m, S2e. rewrite Hemin in S2m, S2e. cbn in S2m, S2e.
      rewrite S2m, S2e. exists 1%positive, (-1074). rewrite Hemin, E. cbn.
      repeat split; try reflexivity; lia.
Qed.

(** ** Order: floats in canonical form compare as their values *)

Lemma canonical_exponent m e :
  bounded prec emax m e = true -> -1074 <= e <= 971 /\ Zpos (digits2_pos m) <= 53.
Proof. intros H. apply bounded_iff in H. unfold fexp64 in H. lia. Qed.

Lemma canonical_lt m1 e1 m2 e2 :
  bounded prec emax m1 e1 = true -> bounded prec emax m2 e2 = true -> e1 < e2 ->
  Zpos m1 * 2 ^ (e1 + 1074) < Zpos m2 * 2 ^ (e2 + 1074).
Proof.
  intros H1 H2 Hlt.
  pose proof (canonical_exponent _ _ H1) as [He1 _].
  pose proof (canonical_exponent _ _ H2) as [He2 _].
  apply bounded_iff in H1, H2. destruct H1 as [C1 _], H2 as [C2 _].
  pose proof (digits2_pos_bounds m1) as [_ U1].
  pose proof (digits2_pos_bounds m2) as [L2 _].
  set (d1 := Zpos (digits2_pos m1)) in *. set (d2 := Zpos (digits2_pos m2)) in *.
  assert (Hd1 : 0 < d1) by (unfold d1; lia). assert (Hd2 : 0 < d2) by (unfold d2; lia).
  clearbody d1 d2.
  assert (Hd : d1 + e1 < d2 + e2) by (unfold fexp64 in *; lia).
  assert (P1 : 0 < 2 ^ (e1 + 1074)) by (apply Z.pow_pos_nonneg; lia).
  assert (P2 : 0 < 2 ^ (e2 + 1074)) by (apply Z.pow_pos_nonneg; lia).
  apply Z.lt_le_trans with (2 ^ (d1 + (e1 + 1074))).
  - rewrite (Z.pow_add_r 2 d1 (e1 + 1074)) by lia. apply Z.mul_lt_mono_pos_r; assumption.
  - apply Z.le_trans with (2 ^ (d2 - 1 + (e2 + 1074))).
    + apply Z.pow_le_mono_r; lia.
    + rewrite (Z.pow_add_r 2 (d2 - 1) (e2 + 1074)) by lia. apply Z.mul_le_mono_nonneg_r; lia.
Qed.

Lemma compare_finite_pos m1 e1 m2 e2 :
  bounded prec emax m1 e1 = true -> bounded prec emax m2 e2 = true ->
  match e1 ?= e2 with
  | Lt => Lt
  | Gt => Gt
  | Eq => Pos.compare_cont Eq m1 m2
  end = (Zpos m1 * 2 ^ (e1 + 1074) ?= Zpos m2 * 2 ^ (e2 + 1074)).
Proof.
  intros H1 H2. destruct (Z.compare_spec e1 e2) as [E | L | G].
  - subst e2. pose proof (canonical_exponent _ _ H1) as [He1 _].
    assert (P1 : 0 < 2 ^ (e1 + 1074)) by (apply Z.pow_pos_nonneg; lia).
    change (Pos.compare_cont Eq m1 m2) with (Zpos m1 ?= Zpos m2).
    destruct (Z.compare_spec (Zpos m1) (Zpos m2)) as [E | L | G]; symmetry.
    + apply Z.compare_eq_iff. congruence.
    + apply Z.compare_lt_iff. nia.
    + apply Z.compare_gt_iff. nia.
  - symmetry. apply Z.compare_lt_iff. apply canonical_lt; auto.
  - symmetry. apply Z.compare_gt_iff. apply canonical_lt; auto.
Qed.

Lemma ulps_pos m e : bounded prec emax m e = true -> 0 < Zpos m * 2 ^ (e + 1074).
Proof.
  intros H. pose proof (canonical_exponent _ _ H) as [He _].
  assert (0 < 2 ^ (e + 1074)) by (apply Z.pow_pos_nonneg; lia). nia.
Qed.

(** Comparison of zeros and finite floats is comparison of their values. *)
Lemma compare_ulps x y :
  fin x 1024 -> fin y 1024 -> SFcompare x y = Some (ulps x ?= ulps y).
Proof.
  intros Hx Hy.
  destruct x as [sx | sx | | sx mx ex], y as [sy | sy | | sy my ey];
    cbn [fin] in Hx, Hy; try contradiction.
  - reflexivity.
  - destruct Hy as [Hy _]. pose proof (ulps_pos _ _ Hy) as P.
    cbn [SFcompare ulps]. f_equal. symmetry.
    destruct sy; cbn [cond_Zopp]; [apply Z.compare_gt_iff | apply Z.compare_lt_iff]; lia.
  - destruct Hx as [Hx _]. pose proof (ulps_pos _ _ Hx) as P.
    cbn [SFcompare ulps]. f_equal. symmetry.
    destruct sx; cbn [cond_Zopp]; [apply Z.compare_lt_iff | apply Z.compare_gt_iff]; lia.
  - destruct Hx as [Hx _], Hy as [Hy _].
    pose proof (ulps_pos _ _ Hx) as Px. pose proof (ulps_pos _ _ Hy) as Py.
    cbn [SFcompare ulps]. f_equal.
    destruct sx, sy; cbn [cond_Zopp].
    + rewrite Z.compare_opp, (Z.compare_antisym (Zpos mx * 2 ^ (ex + 1074))).
      rewrite <- (compare_finite_pos _ _ _ _ Hx Hy).
      destruct (ex ?= ey); reflexivity.
    + symmetry. apply Z.compare_lt_iff. lia.
    + symmetry. apply Z.compare_gt_iff. lia.
    + apply compare_finite_pos; auto.
Qed.

Lemma flt_ulps x y : fin x 1024 -> fin y 1024 -> flt x y = (ulps x <? ulps y).
Proof.
  intros Hx Hy. unfold flt, SFltb. rewrite (compare_ulps x y Hx Hy).
  unfold Z.ltb. destruct (ulps x ?= ulps y); reflexivity.
Qed.

Lemma fle_ulps x y : fin x 1024 -> fin y 1024 -> fle x y = (ulps x <=? ulps y).
Proof.
  intros Hx Hy. unfold fle, SFleb. rewrite (compare_ulps x y Hx Hy).
  unfold Z.leb. destruct (ulps x ?= ulps y); reflexivity.
Qed.

Lemma feq_ulps x y : fin x 1024 -> fin y 1024 -> feq x y = (ulps x =? ulps y).
Proof.
  intros Hx Hy. unfold feq, SFeqb. rewrite (compare_ulps x y Hx Hy).
  destruct (Z.compare_spec (ulps x) (ulps y)) as [E | L | G]; symmetry;
    [apply Z.eqb_eq | apply Z.eqb_neq | apply Z.eqb_neq]; lia.
Qed.

Lemma ulps_one : ulps (float_of_Z 1) = 2 ^ 1074.
Proof. reflexivity. Qed.

Lemma fexp64_ge e : -1074 <= fexp64 e.
Proof. unfold fexp64. lia. Qed.

Lemma pow2_pos k : 0 <= k -> 0 < 2 ^ k.
Proof. intros. apply Z.pow_pos_nonneg; lia. Qed.

Lemma pow2_split a b : 0 <= a -> 0 <= b -> 2 ^ (a + b) = 2 ^ a * 2 ^ b.
Proof. intros. apply Z.pow_add_r; lia. Qed.

Lemma dg_scaled_le a b k :
  0 < a -> 0 < b -> 0 <= k -> a <= b * 2 ^ k -> dg a <= dg b + k.
Proof.
  intros Ha Hb Hk H. rewrite <- dg_mul_pow2 by lia. apply dg_mono.
  pose proof (pow2_pos k Hk). nia.
Qed.

(** Rounding to nearest stays at or below a float that the exact value
    does not exceed. *)
Lemma bra_below sx mx ex lx my ey :
  0 <= mx -> ex <= fexp64 (dg mx + ex) ->
  bounded prec emax my ey = true ->
  mx <= Zpos my * 2 ^ (ey - ex) ->
  (lx <> loc_Exact -> mx < Zpos my * 2 ^ (ey - ex)) ->
  let r := binary_round_aux prec emax sx mx ex lx in
  fin r 1024 /\ sign_of r = sx
  /\ exists u, ulps r = cond_Zopp sx u /\ 0 <= u <= Zpos my * 2 ^ (ey + 1074).
Proof.
  intros Hm Hpre Hy Hle Hlt. cbv zeta.
  pose proof (canonical_exponent _ _ Hy) as [Hey Hdy].
  pose proof (ulps_pos _ _ Hy) as Py.
  destruct (bra_value sx mx ex lx Hm Hpre) as (m2 & Hm2 & Hr). cbv zeta in Hm2, Hr.
  pose proof (fexp64_ge (dg mx + ex)) as Hge.
  set (e1 := fexp64 (dg mx + ex)) in *.
  set (n := e1 - ex) in *.
  assert (Hn : 0 <= n) by (unfold n; lia).
  pose proof (pow2_pos n Hn) as Pn.
  (* the bound is on the grid of the result *)
  assert (Hgrid : m2 = 0 \/ (e1 <= ey /\ m2 <= Zpos my * 2 ^ (ey - e1))).
  { destruct (Z.eq_dec mx 0) as [Hz | Hnz].
    - subst mx. rewrite Z.div_0_l, Z.mod_0_l in Hm2 by lia.
      destruct Hm2 as [E | [E [Hl | Hl]]]; [left; exact E | | lia].
      right. specialize (Hlt Hl).
      assert (Hex : ex <= ey).
      { destruct (Z_le_gt_dec ex ey); auto. rewrite Z.pow_neg_r in Hlt by lia. lia. }
      assert (He1 : e1 <= ey) by (unfold e1, fexp64 in *; cbn [dg Zdigits2]; lia).
      split; auto. subst m2.
      pose proof (pow2_pos (ey - e1) ltac:(lia)).
      apply Z.le_trans with (1 * 1); [lia | apply Z.mul_le_mono_nonneg; lia].
    - right. assert (Hpos : 0 < mx) by lia.
      assert (Hex : ex <= ey).
      { destruct (Z_le_gt_dec ex ey); auto. rewrite Z.pow_neg_r in Hle by lia. lia. }
      assert (Hd : dg mx <= dg (Zpos my) + (ey - ex)) by (apply dg_scaled_le; lia).
      apply bounded_iff in Hy. destruct Hy as [Cy _].
      unfold dg in Hd at 2. cbn [Zdigits2] in Hd.
      assert (He1 : e1 <= ey).
      { rewrite <- Cy. apply fexp64_mono. lia. }
      split; auto.
      assert (HB : Zpos my * 2 ^ (ey - ex) = Zpos my * 2 ^ (ey - e1) * 2 ^ n).
      { replace (ey - ex) with ((ey - e1) + n) by (unfold n; lia).
        rewrite pow2_split by lia. lia. }
      rewrite HB in Hle, Hlt.
      assert (Hq : mx / 2 ^ n <= Zpos my * 2 ^ (ey - e1)).
      { apply Z.div_le_upper_bound; lia. }
      destruct Hm2 as [E | [E Hinex]]; [lia |].
      assert (Hstrict : mx < Zpos my * 2 ^ (ey - e1) * 2 ^ n).
      { destruct Hinex as [Hl | Hmod]; [auto |].
        destruct (Z.eq_dec mx (Zpos my * 2 ^ (ey - e1) * 2 ^ n)) as [Eq | Ne]; [| lia].
        rewrite Eq, Z.mod_mul in Hmod by lia. lia. }
      assert (mx / 2 ^ n < Zpos my * 2 ^ (ey - e1)); [| lia].
      apply Z.div_lt_upper_bound; lia. }
  destruct Hr as [[Hz ->] | (m & e & Hv & Hee & Hc & ->)].
  - split; [exact I |]. split; [reflexivity |]. exists 0. split; [destruct sx; reflexivity | lia].
  - destruct Hgrid as [Hz | [He1 Hbound]].
    { pose proof (pow2_pos (e - e1) ltac:(lia)). nia. }
    assert (Hd : Zpos (digits2_pos m) + e <= Zpos (digits2_pos my) + ey).
    { assert (dg (Zpos m * 2 ^ (e - e1)) <= dg (Zpos my * 2 ^ (ey - e1))).
      { apply dg_mono. pose proof (pow2_pos (e - e1) ltac:(lia)). nia. }
      rewrite !dg_mul_pow2 in H by lia. unfold dg in H. cbn [Zdigits2] in H. lia. }
    assert (Hle971 : e <= 971).
    { apply bounded_iff in Hy. destruct Hy as [Cy Hy].
      rewrite <- Hc. apply Z.le_trans with ey; auto. rewrite <- Cy. apply fexp64_mono. lia. }
    assert (Hleb : (e <=? emax - prec) = true) by (apply Z.leb_le; unfold emax, prec; lia).
    rewrite Hleb.
    assert (Hb : bounded prec emax m e = true) by (apply bounded_iff; split; auto).
    split; [apply bounded_fin; exact Hb |]. split; [reflexivity |].
    exists (Zpos m * 2 ^ (e + 1074)). split; [reflexivity |].
    split; [pose proof (ulps_pos _ _ Hb); lia |].
    replace (e + 1074) with ((e - e1) + (e1 + 1074)) by lia.
    replace (ey + 1074) with ((ey - e1) + (e1 + 1074)) by lia.
    rewrite (pow2_split (e - e1)), (pow2_split (ey - e1)) by lia.
    pose proof (pow2_pos (e1 + 1074) ltac:(lia)).
    rewrite !Z.mul_assoc. apply Z.mul_le_mono_nonneg_r; lia.
Qed.

Lemma ulps_nonneg_sign s m e :
  bounded prec emax m e = true -> 0 <= ulps (S754_finite s m e) -> s = false.
Proof.
  intros Hb H. pose proof (ulps_pos _ _ Hb). destruct s; auto; cbn [ulps cond_Zopp] in H; lia.
Qed.

Lemma ulps_neg_sign s m e :
  bounded prec emax m e = true -> ulps (S754_finite s m e) < 0 -> s = true.
Proof.
  intros Hb H. pose proof (ulps_pos _ _ Hb). destruct s; auto; cbn [ulps cond_Zopp] in H; lia.
Qed.

(** A canonical significand at most one. *)
Lemma at_most_one m e :
  bounded prec emax m e = true -> Zpos m * 2 ^ (e + 1074) <= 2 ^ 1074 ->
  e <= 0 /\ Zpos m <= 2 ^ (- e).
Proof.
  intros Hb H. pose proof (canonical_exponent _ _ Hb) as [He _].
  assert (He0 : e <= 0).
  { destruct (Z_le_gt_dec e 0); auto.
    assert (2 ^ 1075 <= 2 ^ (e + 1074)) by (apply Z.pow_le_mono_r; lia).
    assert (2 ^ 1074 < 2 ^ 1075) by (apply Z.pow_lt_mono_r; lia).
    nia. }
  split; auto.
  replace 1074 with (- e + (e + 1074)) in H at 2 by lia.
  rewrite (pow2_split (- e)) in H by lia.
  pose proof (pow2_pos (e + 1074) ltac:(lia)).
  apply Z.mul_le_mono_pos_r in H; auto.
Qed.

Lemma fmul_exponents mx ex my ey :
  bounded prec emax mx ex = true -> bounded prec emax my ey = true ->
  ex + ey <= fexp64 (dg (Zpos (mx * my)) + (ex + ey)).
Proof.
  intros Hx Hy. apply bounded_iff in Hx, Hy. destruct Hx as [Hcx _], Hy as [Hcy _].
  pose proof (dg_mul (Zpos mx) (Zpos my) ltac:(lia) ltac:(lia)) as Hd.
  change (Zpos mx * Zpos my) with (Zpos (mx * my)) in Hd.
  unfold dg in *. cbn [Zdigits2] in *. unfold fexp64 in *. lia.
Qed.

(** The product of a fraction between zero and one with a non-negative
    float is between zero and that float. *)
Lemma fmul_le_one p y :
  fin p 1024 -> fin y 1024 -> 0 <= ulps p <= 2 ^ 1074 -> 0 <= ulps y ->
  fin (fmul p y) 1024 /\ 0 <= ulps (fmul p y) <= ulps y.
Proof.
  intros Hp Hy Hup Huy.
  destruct p as [sp | sp | | sp mp ep], y as [sy | sy | | sy my ey];
    cbn [fin] in Hp, Hy; try contradiction;
    try (split; [exact I | unfold fmul; cbn [SFmul ulps] in *; lia]).
  destruct Hp as [Hbp _], Hy as [Hby _].
  pose proof (ulps_nonneg_sign sp _ _ Hbp (proj1 Hup)) as ->.
  pose proof (ulps_nonneg_sign sy _ _ Hby Huy) as ->.
  cbn [ulps cond_Zopp] in *.
  destruct (at_most_one _ _ Hbp ltac:(lia)) as [Hep Hmp].
  unfold fmul, SFmul. cbn [xorb].
  pose proof (bra_below false (Zpos (mp * my)) (ep + ey) loc_Exact my ey
                ltac:(lia) (fmul_exponents _ _ _ _ Hbp Hby) Hby) as H.
  replace (ey - (ep + ey)) with (- ep) in H by lia.
  assert (Hle : Zpos (mp * my) <= Zpos my * 2 ^ (- ep)) by (rewrite Pos2Z.inj_mul; nia).
  specialize (H Hle ltac:(congruence)). cbv zeta in H.
  destruct H as (Hf & _ & u & Hu & Hb). split; [exact Hf |].
  rewrite Hu. cbn [cond_Zopp]. lia.
Qed.

(** Rounding to an integer stays at or below an integer bound. *)
Lemma div_half_even_le n d W :
  0 <= n -> 0 < d -> n <= W * d -> 0 <= div_half_even n d <= W.
Proof.
  intros Hn Hd H. unfold div_half_even.
  pose proof (Z_div_mod_eq_full n d) as E. pose proof (Z.mod_pos_bound n d Hd) as Hr.
  assert (Hq0 : 0 <= n / d) by (apply Z.div_pos; lia).
  assert (Hq : n / d <= W) by (apply Z.div_le_upper_bound; lia).
  destruct (Z.compare_spec (2 * (n mod d)) d) as [Ec | Lc | Gc].
  - destruct (Z.even (n / d)); [lia |]. assert (n / d <> W) by nia. lia.
  - lia.
  - assert (n / d <> W) by nia. lia.
Qed.

Lemma round_int_below r W :
  fin r 1024 -> 0 <= ulps r <= W * 2 ^ 1074 ->
  exists c, round_int r = Ret c /\ 0 <= c <= W.
Proof.
  intros Hr Hu. destruct r as [s | s | | s m e]; cbn [fin] in Hr; try contradiction.
  - exists 0. split; [reflexivity |]. cbn [ulps] in Hu.
    pose proof (pow2_pos 1074 ltac:(lia)). nia.
  - destruct Hr as [Hb _]. pose proof (canonical_exponent _ _ Hb) as [He _].
    pose proof (ulps_nonneg_sign s _ _ Hb (proj1 Hu)) as ->.
    cbn [ulps cond_Zopp] in Hu. unfold round_int. cbn [cond_Zopp].
    eexists. split; [reflexivity |]. unfold scaled_round. rewrite Z.mul_1_r.
    apply div_half_even_le.
    + pose proof (pow2_pos (Z.max e 0) ltac:(lia)). nia.
    + apply pow2_pos. lia.
    + destruct (Z_le_gt_dec 0 e) as [Hpos | Hneg].
      * replace (Z.max (- e) 0) with 0 by lia. replace (Z.max e 0) with e by lia.
        rewrite Z.pow_0_r, Z.mul_1_r.
        rewrite (pow2_split e 1074) in Hu by lia.
        pose proof (pow2_pos 1074 ltac:(lia)).
        destruct Hu as [_ Hu]. rewrite Z.mul_assoc in Hu.
        apply Z.mul_le_mono_pos_r in Hu; auto.
      * replace (Z.max (- e) 0) with (- e) by lia. replace (Z.max e 0) with 0 by lia.
        rewrite Z.pow_0_r, Z.mul_1_r.
        destruct Hu as [_ Hu].
        replace 1074 with (- e + (e + 1074)) in Hu at 2 by lia.
        rewrite (pow2_split (- e)) in Hu by lia.
        pose proof (pow2_pos (e + 1074) ltac:(lia)).
        rewrite Z.mul_assoc in Hu. apply Z.mul_le_mono_pos_r in Hu; auto.
Qed.

(** Integers below [2^53] convert exactly. *)
Lemma float_of_Z_exact n :
  0 <= n < 2 ^ 53 ->
  int_to_float n = Ret (float_of_Z n)
  /\ fin (float_of_Z n) 1024 /\ ulps (float_of_Z n) = n * 2 ^ 1074.
Proof.
  intros Hn. destruct n as [ | p | p]; try lia.
  - repeat split.
  - assert (Hd : Zpos (digits2_pos p) <= 53) by (apply (dg_le (Zpos p) 53); lia).
    remember (Zpos (digits2_pos p)) as d eqn:Ed.
    assert (Hd0 : 0 < d) by lia.
    assert (Hexact : exists mz, float_of_Z (Zpos p) = S754_finite false mz (d - 53)
                                /\ Zpos mz = Zpos p * 2 ^ (53 - d)
                                /\ Zpos (digits2_pos mz) = 53).
    { unfold float_of_Z. cbn [binary_normalize]. unfold binary_round. rewrite fexp_eq, <- Ed.
      replace (fexp64 (d + 0)) with (d - 53) by (unfold fexp64; lia).
      pose proof (shl_align_fst p 0 (d - 53) ltac:(lia)) as Em.
      pose proof (shl_align_spec p 0 (d - 53)) as [S1 S2]. cbv zeta in S1, S2.
      assert (Ee : snd (shl_align p 0 (d - 53)) = d - 53).
      { destruct (Z.eq_dec d 53) as [E53 | N53].
        - rewrite S2 by lia. cbn [snd]. lia.
        - apply S1. lia. }
      destruct (shl_align p 0 (d - 53)) as [mz ez]. cbn [fst snd] in Em, Ee. subst ez.
      replace (0 - (d - 53)) with (53 - d) in Em by lia.
      assert (Hdz : Zpos (digits2_pos mz) = 53).
      { change (Zpos (digits2_pos mz)) with (dg (Zpos mz)). rewrite Em.
        rewrite dg_mul_pow2 by lia. unfold dg. cbn [Zdigits2]. lia. }
      exists mz. split; [| split; assumption].
      replace (d - 53) with (d - 53 - 0) at 1 by lia.
      replace (Zpos mz) with (Zpos mz * 2 ^ 0) at 1 by (rewrite Z.pow_0_r; lia).
      apply bra_exact; try lia. rewrite Hdz. unfold fexp64. lia. }
    destruct Hexact as (mz & Hexact & Em & Hdz).
    assert (Hb : bounded prec emax mz (d - 53) = true).
    { apply bounded_iff. rewrite Hdz. unfold fexp64. lia. }
    unfold int_to_float. rewrite Hexact. split; [reflexivity |].
    split; [apply bounded_fin; exact Hb |].
    cbn [ulps cond_Zopp].
    rewrite Em, <- Z.mul_assoc, <- pow2_split by lia.
    f_equal. f_equal. lia.
Qed.

Lemma new_location_exact nb k :
  new_location nb k <> loc_Exact -> k <> 0.
Proof.
  intros H E. apply H. subst k.
  unfold new_location, new_location_even, new_location_odd.
  destruct (Z.even nb); reflexivity.
Qed.

(** The quotient and the remainder behind [SFdiv_core_binary]. *)
Lemma div_core_spec m1 e1 m2 e2 :
  0 < m1 -> 0 < m2 ->
  let X := dg m1 + e1 - (dg m2 + e2) in
  let '(q, e', l) := SFdiv_core_binary prec emax m1 e1 m2 e2 in
  exists s r,
    0 <= s /\ e' = e1 - e2 - s /\ e' = Z.min (fexp64 X) (e1 - e2)
    /\ m1 * 2 ^ s = m2 * q + r /\ 0 <= r < m2 /\ 0 <= q
    /\ (l <> loc_Exact -> r <> 0)
    /\ (q <> 0 -> X <= dg q + e').
Proof.
  intros H1 H2 X. unfold SFdiv_core_binary. rewrite fexp_eq. fold (dg m1) (dg m2). fold X.
  set (e' := Z.min (fexp64 X) (e1 - e2)).
  set (s := e1 - e2 - e').
  assert (Hs : 0 <= s) by (unfold s, e'; lia).
  set (m' := match s with Z.pos _ => Z.shiftl m1 s | 0 => m1 | Z.neg _ => 0 end).
  assert (Hm' : m' = m1 * 2 ^ s).
  { unfold m'. generalize Hs. generalize s. intros [ | p | p] Hp; try lia.
    apply Z.shiftl_mul_pow2. lia. }
  clearbody m'.
  pose proof (Z_div_mod m' m2 ltac:(lia)) as Hdm.
  destruct (Z.div_eucl m' m2) as [q r]. destruct Hdm as [Hq Hr].
  exists s, r.
  pose proof (dg_bounds m1 H1) as [L1 U1]. pose proof (dg_bounds m2 H2) as [L2 U2].
  pose proof (dg_pos m1 H1) as P1. pose proof (dg_pos m2 H2) as P2.
  assert (Hps : 0 < 2 ^ s) by (apply Z.pow_pos_nonneg; lia).
  assert (Hq0 : 0 <= q) by nia.
  split; [assumption |]. split; [unfold s; lia |]. split; [reflexivity |].
  split; [lia |]. split; [lia |]. split; [assumption |].
  split; [apply new_location_exact |].
  intros Hqn.
  assert (Hlo : 2 ^ (dg m1 - 1 + s) <= m') by (rewrite Z.pow_add_r by lia; nia).
  assert (Hqp : 0 < q) by lia. pose proof (dg_pos q Hqp) as Pq.
  assert (Hlow : dg m1 + s - dg m2 <= dg q).
  { destruct (Z_le_gt_dec (dg m1 + s - dg m2) 1) as [Hk | Hk]; [lia |].
    apply dg_ge; auto.
    assert (E : 2 ^ (dg m1 - 1 + s) = 2 ^ (dg m1 + s - dg m2 - 1) * 2 ^ dg m2)
      by (rewrite <- Z.pow_add_r by lia; f_equal; lia).
    assert (0 < 2 ^ (dg m1 + s - dg m2 - 1)) by (apply Z.pow_pos_nonneg; lia).
    nia. }
  unfold X, s in *. lia.
Qed.

(** A quotient of two integers [0 <= a <= b] is a float between zero and
    one. *)
Lemma int_truediv_unit a b :
  0 <= a <= b -> 0 < b ->
  exists q, int_truediv a b = Ret q /\ fin q 1024 /\ 0 <= ulps q <= 2 ^ 1074.
Proof.
  intros Ha Hb. unfold int_truediv. destruct (Z.eqb_spec b 0) as [ | _]; [lia |].
  destruct a as [ | pa | pa]; try lia.
  - destruct b; try lia. exists (S754_zero false). cbn [exact_int].
    split; [reflexivity |]. split; [exact I |]. cbn [ulps].
    pose proof (pow2_pos 1074 ltac:(lia)). lia.
  - destruct b as [ | pb | pb]; try lia. cbn [exact_int]. unfold fdiv, SFdiv. cbn [xorb].
    pose proof (div_core_spec (Zpos pa) 0 (Zpos pb) 0 ltac:(lia) ltac:(lia)) as Hc.
    pose proof (div_core_bounds (Zpos pa) 0 (Zpos pb) 0 ltac:(lia) ltac:(lia)) as Hbd.
    cbv zeta in Hc, Hbd.
    destruct (SFdiv_core_binary prec emax (Zpos pa) 0 (Zpos pb) 0) as [[q e'] l].
    destruct Hc as (s & r & Hs & He' & Hmin & Hdiv & Hr & Hq0 & Hl & _).
    destruct Hbd as (_ & Hpre & _).
    assert (HX : dg (Zpos pa) + 0 - (dg (Zpos pb) + 0) <= 0)
      by (pose proof (dg_mono (Zpos pa) (Zpos pb) ltac:(lia)); lia).
    assert (Hs53 : 53 <= s) by (unfold fexp64 in Hmin; lia).
    assert (Hone : bounded prec emax 4503599627370496 (-52) = true) by reflexivity.
    pose proof (pow2_pos s Hs) as Ps.
    assert (HB : Zpos 4503599627370496 * 2 ^ (-52 - e') = 2 ^ s).
    { change (Zpos 4503599627370496) with (2 ^ 52).
      rewrite <- pow2_split by lia. f_equal. lia. }
    assert (Hqle : q <= 2 ^ s) by nia.
    assert (Hqlt : l <> loc_Exact -> q < 2 ^ s).
    { intros Hne. specialize (Hl Hne).
      destruct (Z.eq_dec q (2 ^ s)) as [E | N]; [| lia]. subst q. nia. }
    pose proof (bra_below false q e' l 4503599627370496 (-52) Hq0 Hpre Hone) as H.
    rewrite HB in H. specialize (H Hqle Hqlt). cbv zeta in H.
    destruct H as (Hf & _ & u & Hu & Hub).
    change (Zpos 4503599627370496 * 2 ^ (-52 + 1074)) with (2 ^ 1074) in Hub.
    destruct (binary_round_aux prec emax false q e' l) as [sz | sz | | sz mz ez] eqn:Er;
      cbn [fin] in Hf; try contradiction.
    + exists (S754_zero sz). split; [reflexivity |]. split; [exact I |]. cbn [ulps]. lia.
    + exists (S754_finite sz mz ez). split; [reflexivity |]. split; [exact Hf |].
      rewrite Hu. cbn [cond_Zopp]. lia.
Qed.




(** ** Signs *)

Lemma not_negative_ulps x : fin x 1024 -> (not_negative x <-> 0 <= ulps x).
Proof.
  destruct x as [s | s | | s m e]; cbn [fin not_negative ulps]; try tauto.
  - intros _. split; [lia | auto].
  - intros [Hb _]. pose proof (ulps_pos _ _ Hb).
    destruct s; cbn [cond_Zopp]; split; intros; try discriminate; try reflexivity; lia.
Qed.

Lemma cond_Zopp_mul s a b : cond_Zopp s a * b = cond_Zopp s (a * b).
Proof. destruct s; cbn [cond_Zopp]; lia. Qed.

Lemma ulps_aligned s m e ez :
  ez <= e -> -1074 <= ez ->
  ulps (S754_finite s m e)
  = cond_Zopp s (Zpos (fst (shl_align m e ez))) * 2 ^ (ez + 1074).
Proof.
  intros H1 H2. cbn [ulps]. rewrite shl_align_fst by lia.
  rewrite cond_Zopp_mul, <- Z.mul_assoc, <- pow2_split by lia.
  f_equal. f_equal. f_equal. lia.
Qed.

Lemma binary_normalize_not_negative m e :
  0 <= m -> not_negative (binary_normalize prec emax m e false).
Proof.
  intros Hm. destruct m as [ | p | p]; try lia; cbn [binary_normalize].
  - exact I.
  - pose proof (binary_round_valid false p e) as (Hn & _ & Hs). cbv zeta in Hn, Hs.
    destruct (binary_round prec emax false p e); cbn [not_negative sign_of] in *;
      auto; congruence.
Qed.

(** A difference [x - y] with [y <= x] is not negative. *)
Lemma fsub_not_negative x y :
  fin x 1024 -> fin y 1024 -> ulps y <= ulps x -> not_negative (fsub x y).
Proof.
  intros Hx Hy Hle.
  destruct x as [sx | sx | | sx mx ex], y as [sy | sy | | sy my ey];
    cbn [fin] in Hx, Hy; try contradiction; unfold fsub; cbn [SFsub].
  - destruct sx, sy; exact I.
  - destruct Hy as [Hby _]. pose proof (ulps_pos _ _ Hby).
    cbn [ulps] in Hle. destruct sy; cbn [cond_Zopp not_negative negb] in *; [reflexivity | lia].
  - destruct Hx as [Hbx _]. pose proof (ulps_pos _ _ Hbx).
    cbn [ulps] in Hle. destruct sx; cbn [cond_Zopp not_negative] in *; [lia | reflexivity].
  - destruct Hx as [Hbx _], Hy as [Hby _].
    pose proof (canonical_exponent _ _ Hbx) as [Hex _].
    pose proof (canonical_exponent _ _ Hby) as [Hey _].
    apply binary_normalize_not_negative.
    rewrite (ulps_aligned sx mx ex (Z.min ex ey)) in Hle by lia.
    rewrite (ulps_aligned sy my ey (Z.min ex ey)) in Hle by lia.
    pose proof (pow2_pos (Z.min ex ey + 1074) ltac:(lia)) as P.
    apply Z.mul_le_mono_pos_r in Hle; auto. lia.
Qed.













(** A quotient of positive integers stays at or below a float that the
    exact quotient does not exceed. *)
Lemma fdiv_pos_below pn pd my ey :
  bounded prec emax my ey = true -> ey <= 0 ->
  Zpos pn * 2 ^ (- ey) <= Zpos my * Zpos pd ->
  let r := fdiv (S754_finite false pn 0) (S754_finite false pd 0) in
  fin r 1024 /\ 0 <= ulps r <= Zpos my * 2 ^ (ey + 1074).
Proof.
  intros Hy Hey Hle. cbv zeta. unfold fdiv, SFdiv. cbn [xorb].
  pose proof (div_core_spec (Zpos pn) 0 (Zpos pd) 0 ltac:(lia) ltac:(lia)) as Hc.
  pose proof (div_core_bounds (Zpos pn) 0 (Zpos pd) 0 ltac:(lia) ltac:(lia)) as Hbd.
  cbv zeta in Hc, Hbd.
  destruct (SFdiv_core_binary prec emax (Zpos pn) 0 (Zpos pd) 0) as [[q e'] l].
  destruct Hc as (s & r & Hs & He' & Hmin & Hdiv & Hr & Hq0 & Hl & _).
  destruct Hbd as (_ & Hpre & _).
  pose proof (pow2_pos (- ey) ltac:(lia)) as Pey.
  pose proof (pow2_pos s Hs) as Ps.
  (* the exponent of the quotient is not above the exponent of the bound *)
  assert (HX : dg (Zpos pn) + 0 - (dg (Zpos pd) + 0) <= Zpos (digits2_pos my) + ey).
  { assert (H : dg (Zpos pn * 2 ^ (- ey)) <= dg (Zpos my * Zpos pd)) by (apply dg_mono; nia).
    rewrite dg_mul_pow2 in H by lia.
    pose proof (dg_mul (Zpos my) (Zpos pd) ltac:(lia) ltac:(lia)) as [_ Hm].
    unfold dg in Hm at 2. cbn [Zdigits2] in Hm. lia. }
  assert (Hee : e' <= ey).
  { apply bounded_iff in Hy. destruct Hy as [Cy _].
    pose proof (fexp64_mono _ _ HX). lia. }
  assert (Hse : 0 <= s + ey) by lia.
  pose proof (pow2_pos _ Hse) as Pse.
  assert (HB : Zpos my * 2 ^ (ey - e') = Zpos my * 2 ^ (s + ey))
    by (f_equal; f_equal; lia).
  assert (Hbig : Zpos pn * 2 ^ s <= Zpos my * 2 ^ (s + ey) * Zpos pd).
  { replace s with (- ey + (s + ey)) at 1 by lia.
    rewrite (pow2_split (- ey)) by lia. nia. }
  assert (Hqle : q <= Zpos my * 2 ^ (s + ey)) by nia.
  assert (Hqlt : l <> loc_Exact -> q < Zpos my * 2 ^ (s + ey)).
  { intros Hne. specialize (Hl Hne).
    destruct (Z.eq_dec q (Zpos my * 2 ^ (s + ey))) as [E | N]; [| lia]. subst q. nia. }
  pose proof (bra_below false q e' l my ey Hq0 Hpre Hy) as H.
  rewrite HB in H. specialize (H Hqle Hqlt). cbv zeta in H.
  destruct H as (Hf & _ & u & Hu & Hub). split; [exact Hf |].
  rewrite Hu. cbn [cond_Zopp]. exact Hub.
Qed.

Lemma bounded_100 : bounded prec emax 7036874417766400 (-46) = true.
Proof. reflexivity. Qed.

Lemma float_of_Z_100 : float_of_Z 100 = S754_finite false 7036874417766400 (-46).
Proof. reflexivity. Qed.

Lemma ulps_100 : Zpos 7036874417766400 * 2 ^ (-46 + 1074) = 100 * 2 ^ 1074.
Proof. reflexivity. Qed.

(** [round(x, 4)] of a float between 0 and 100 is between 0 and 100. *)
Lemma round_ndigits_percent x :
  fin x 1024 -> 0 <= ulps x <= 100 * 2 ^ 1074 -> not_negative x ->
  exists pct, round_ndigits x 4 = Ret pct
              /\ fin pct 1024 /\ 0 <= ulps pct <= 100 * 2 ^ 1074 /\ not_negative pct.
Proof.
  intros Hx Hu Hnn. pose proof (pow2_pos 1074 ltac:(lia)) as P.
  destruct x as [s | s | | s m e]; cbn [fin not_negative] in Hx, Hnn; try contradiction.
  - exists (S754_zero s). repeat split; cbn [ulps]; lia.
  - subst s. destruct Hx as [Hb _]. pose proof (canonical_exponent _ _ Hb) as [He _].
    cbn [ulps cond_Zopp] in Hu. unfold round_ndigits. change (10 ^ 4) with 10000.
    assert (Hn : 0 <= scaled_round m e 10000 <= 1000000).
    { unfold scaled_round. apply div_half_even_le.
      - pose proof (pow2_pos (Z.max e 0) ltac:(lia)). nia.
      - apply pow2_pos. lia.
      - destruct Hu as [_ Hu].
        destruct (Z_le_gt_dec 0 e) as [Hpos | Hneg].
        + replace (Z.max (- e) 0) with 0 by lia. replace (Z.max e 0) with e by lia.
          rewrite Z.pow_0_r, Z.mul_1_r.
          rewrite (pow2_split e 1074), Z.mul_assoc in Hu by lia.
          apply Z.mul_le_mono_pos_r in Hu; auto. lia.
        + replace (Z.max (- e) 0) with (- e) by lia. replace (Z.max e 0) with 0 by lia.
          rewrite Z.pow_0_r, Z.mul_1_r.
          replace 1074 with (- e + (e + 1074)) in Hu at 2 by lia.
          rewrite (pow2_split (- e)), Z.mul_assoc in Hu by lia.
          pose proof (pow2_pos (e + 1074) ltac:(lia)).
          apply Z.mul_le_mono_pos_r in Hu; auto. lia. }
    destruct (Z.eqb_spec (scaled_round m e 10000) 0) as [E0 | N0].
    + exists (S754_zero false). repeat split; cbn [ulps]; lia.
    + cbn [cond_Zopp].
      destruct (scaled_round m e 10000) as [ | pn | pn] eqn:En; try lia.
      cbn [exact_int].
      pose proof (fdiv_pos_below pn 10000 7036874417766400 (-46) bounded_100 ltac:(lia)) as H.
      assert (Hle : Zpos pn * 2 ^ (- -46) <= Zpos 7036874417766400 * Zpos 10000).
      { change (Zpos 7036874417766400) with (100 * 2 ^ 46).
        change (- -46) with 46. pose proof (pow2_pos 46 ltac:(lia)). nia. }
      specialize (H Hle). cbv zeta in H. rewrite ulps_100 in H. destruct H as (Hf & Hur).
      destruct (fdiv (S754_finite false pn 0) (S754_finite false 10000 0))
        as [sr | sr | | sr mr er] eqn:Er; cbn [fin] in Hf; try contradiction.
      * exists (S754_zero sr). repeat split; cbn [ulps]; lia.
      * exists (S754_finite sr mr er). split; [reflexivity |]. split; [exact Hf |].
        split; [exact Hur |]. apply not_negative_ulps; [exact Hf | lia].
Qed.

End Rounding.
Import Rounding.

(** ** Cell counts *)

Lemma len_str_repeat_SYMBOL n : len (str_repeat SYMBOL n) = Z.max n 0.
Proof.
  unfold str_repeat, len.
  assert (H : forall k, List.length (List.concat (repeat SYMBOL k)) = k).
  { induction k as [ | k IH]; [reflexivity |]. cbn. f_equal. exact IH. }
  rewrite H. lia.
Qed.

Lemma fin_zero_1024 : fin (float_of_Z 0) 1024.
Proof. exact I. Qed.

Lemma fin_one_1024 : fin (float_of_Z 1) 1024.
Proof. apply fin_weaken with 1; [apply fin_one | lia]. Qed.

(** A float between zero and one, as the two tests of lines 154 and 156
    see it. *)
Lemma unit_tests q :
  fin q 1024 -> 0 <= ulps q <= 2 ^ 1074 ->
  flt q (float_of_Z 0) = false /\ flt (float_of_Z 1) q = false.
Proof.
  intros Hq Hu. rewrite (flt_ulps _ _ Hq fin_zero_1024), (flt_ulps _ _ fin_one_1024 Hq).
  rewrite ulps_one. change (ulps (float_of_Z 0)) with 0.
  split; apply Z.ltb_ge; lia.
Qed.

Lemma unit_tests_inv q :
  fin q 1024 -> flt q (float_of_Z 0) = false -> flt (float_of_Z 1) q = false ->
  0 <= ulps q <= 2 ^ 1074.
Proof.
  intros Hq H0 H1.
  rewrite (flt_ulps _ _ Hq fin_zero_1024) in H0. rewrite (flt_ulps _ _ fin_one_1024 Hq) in H1.
  rewrite ulps_one in H1. change (ulps (float_of_Z 0)) with 0 in H0.
  apply Z.ltb_ge in H0, H1. lia.
Qed.

(** The number of filled cells at a fraction between zero and one. *)
Lemma unit_fraction_cells q width wf :
  fin q 1024 -> 0 <= ulps q <= 2 ^ 1074 ->
  0 <= width < 2 ^ 53 -> int_to_float width = Ret wf ->
  exists completed, round_int (fmul q wf) = Ret completed /\ 0 <= completed <= width.
Proof.
  intros Hq Hu Hw Hwf.
  destruct (float_of_Z_exact width Hw) as (Hconv & Hfw & Huw).
  rewrite Hconv in Hwf. inversion Hwf; subst wf.
  assert (Hnn : 0 <= ulps (float_of_Z width))
    by (rewrite Huw; pose proof (pow2_pos 1074 ltac:(lia)); nia).
  destruct (fmul_le_one q (float_of_Z width) Hq Hfw Hu Hnn) as (Hf & Hb).
  apply round_int_below; [exact Hf |]. rewrite <- Huw. exact Hb.
Qed.




(** ** The claims *)

(** C1, counterexample. A bar of total 10 that has reached the fraction 1 is
    updated with 11: the computed fraction 11/10 is above 1, and the stored
    fraction after the call is no longer the value it had before the
    call. *)
Lemma overshoot_changes_stored_fraction :
  let s1 := snd (update 10 {| self := fresh 10; world := demo_world |}) in
  let r := update 11 s1 in
  _progress (self s1) = float_of_Z 1
  /\ int_truediv 11 (int_value (_total (self s1))) = Ret f11_10
  /\ flt (float_of_Z 1) f11_10 = true
  /\ _progress (self (snd r)) <> _progress (self s1).
Proof. vm_compute. repeat split; try reflexivity. discriminate. Qed.

(** C1, as amended. For every tracker and every call [update(current)] whose
    computed fraction [current / total] is above 1, the call prints nothing
    and leaves the cursor, [total], the label, the width and [LAST] as they
    were, whether it returns or raises; the start time is the one already
    set, or the clock reading of this call when none was; but the stored
    fraction is overwritten with the computed fraction above 1. *)
Theorem overshoot_prints_nothing pb w current f :
  int_truediv current (int_value (_total pb)) = Ret f ->
  flt (float_of_Z 1) f = true ->
  let r := update current {| self := pb; world := w |} in
  stdout (world (snd r)) = stdout w
  /\ cursor_visible (world (snd r)) = cursor_visible w
  /\ _total (self (snd r)) = _total pb
  /\ _text (self (snd r)) = _text pb
  /\ _width (self (snd r)) = _width pb
  /\ LAST (self (snd r)) = LAST pb
  /\ _start (self (snd r)) = Some (start_time pb w)
  /\ _progress (self (snd r)) = f.
Proof. exact (overshoot_state pb w current f). Qed.

(** The amended C1 at [update(11)] on a new bar of total 10. *)
Lemma overshoot_prints_nothing_witness :
  let r := update 11 {| self := fresh 10; world := demo_world |} in
  stdout (world (snd r)) = stdout demo_world
  /\ cursor_visible (world (snd r)) = cursor_visible demo_world
  /\ _total (self (snd r)) = _total (fresh 10)
  /\ _text (self (snd r)) = _text (fresh 10)
  /\ _width (self (snd r)) = _width (fresh 10)
  /\ LAST (self (snd r)) = LAST (fresh 10)
  /\ _start (self (snd r)) = Some (start_time (fresh 10) demo_world)
  /\ _progress (self (snd r)) = f11_10.
Proof.
  apply (overshoot_prints_nothing (fresh 10) demo_world 11 f11_10); reflexivity.
Defined.

(** C2, the failing input. On [ProgressBar(100)], in every world, the first
    call of the sequence, [update(0)], raises [ZeroDivisionError] and prints
    nothing: the sequence [update(0)], ..., [update(100)] does not succeed. *)
Theorem hundred_update_zero_raises w :
  let r := update 0 {| self := fresh 100; world := w |} in
  fst r = Raise ZeroDivisionError /\ stdout (world (snd r)) = stdout w.
Proof.
  destruct (update_zero_state (fresh 100) w (float_of_Z 57)) as (H1 & _ & H2 & _);
    try reflexivity.
  split; assumption.
Qed.

(** C3, counterexample. On a bar of positive total and non-negative stored
    fraction whose width is [2^1024], [update(0)] raises [OverflowError]
    at line 147, not [ZeroDivisionError]. *)
Lemma update_zero_on_wide_bar_overflows :
  let r := update 0 {| self := wide 10; world := demo_world |} in
  0 < int_value (_total (wide 10))
  /\ flt (_progress (wide 10)) (float_of_Z 0) = false
  /\ fst r = Raise OverflowError
  /\ fst r <> Raise ZeroDivisionError.
Proof. vm_compute. repeat split; try reflexivity; discriminate. Qed.

(** C3, as amended. For every tracker with positive total whose width
    converts to a float, [update(0)] raises [ZeroDivisionError]: the stored
    fraction becomes exactly [+0.0], nothing is printed, and the ETA
    computation divides the elapsed time by that zero fraction, which
    raises for every elapsed time. *)
Theorem update_zero_raises pb w wf :
  0 < int_value (_total pb) ->
  int_to_float (int_value (_width pb)) = Ret wf ->
  let r := update 0 {| self := pb; world := w |} in
  fst r = Raise ZeroDivisionError
  /\ _progress (self (snd r)) = S754_zero false
  /\ stdout (world (snd r)) = stdout w
  /\ forall elapsed, eta_of elapsed (_progress (self (snd r))) = Raise ZeroDivisionError.
Proof. exact (update_zero_state pb w wf). Qed.

(** The amended C3 at [update(0)] on a new bar of total 10. *)
Lemma update_zero_raises_witness :
  let r := update 0 {| self := fresh 10; world := demo_world |} in
  fst r = Raise ZeroDivisionError
  /\ _progress (self (snd r)) = S754_zero false
  /\ stdout (world (snd r)) = stdout demo_world
  /\ forall elapsed, eta_of elapsed (_progress (self (snd r))) = Raise ZeroDivisionError.
Proof.
  apply (update_zero_raises (fresh 10) demo_world (float_of_Z 57)); reflexivity.
Defined.







(** C6. On every update that returns having printed a line, with [p] the
    stored fraction and [elapsed] the clock reading minus the start time,
    [p] is not zero and the ETA is
    [(elapsed / p) * (1 - p) + 1] in float arithmetic; its minutes
    [int(eta // 60)] and seconds [int(eta % 60)] are computed, and an
    in-progress line ends in ["ETA: "], the minutes, [":"], the seconds,
    each [zfill(2)], and a carriage return. [zfill(2)] pads a number below
    10 with one zero and leaves a number from 10 on unchanged, so minutes
    above 59 are printed in full. For [elapsed = 10.0] and [p = 0.5] the ETA
    is [11.0], formatted ["00:11"]; 6000 seconds are formatted
    ["100:00"]. *)
Theorem rendering_eta pb w current line :
  let r := update current {| self := pb; world := w |} in
  fst r = Ret tt ->
  stdout (world (snd r)) = stdout w ++ [line] ->
  let p := _progress (self (snd r)) in
  let elapsed := fsub (clock (world (started pb w)) (ticks (world (started pb w))))
                      (start_time pb w) in
  let eta := fadd (fmul (fdiv elapsed p) (fsub (float_of_Z 1) p)) (float_of_Z 1) in
  (is_zero p = false
   /\ exists mf minutes sf seconds,
        float_floordiv eta (float_of_Z 60) = Ret mf /\ int_of_float mf = Ret minutes
        /\ float_rem eta (float_of_Z 60) = Ret sf /\ int_of_float sf = Ret seconds
        /\ (flt p (float_of_Z 1) = true ->
            exists pre,
              line = pre ++ lit "ETA: " ++ zfill (str_of_int minutes) 2 ++ lit ":"
                       ++ zfill (str_of_int seconds) 2 ++ CR))
  /\ (forall n, 0 <= n < 10 -> zfill (str_of_int n) 2 = 48%N :: str_of_int n)
  /\ (forall n, 10 <= n -> zfill (str_of_int n) 2 = str_of_int n)
  /\ eta_of (float_of_Z 10) (fdiv (float_of_Z 1) (float_of_Z 2)) = Ret (float_of_Z 11)
  /\ eta_format_of (float_of_Z 11) = Ret (lit "00:11")
  /\ eta_format_of (float_of_Z 6000) = Ret (lit "100:00").
Proof.
  cbv zeta. intros Hret Hout.
  split; [| split; [exact zfill_small | split; [exact zfill_large | repeat split; reflexivity]]].
  destruct (update_returns current pb w Hret)
    as (q & pct & wf & c & Hq & Hpct & Hwf & Hc & [(_ & _ & _ & Hsame) | (p & Hp & _ & Hr)]).
  - rewrite Hsame in Hout. destruct (app_one_neq _ _ Hout).
  - rewrite Hr in *.
    destruct (display_returns _ _ _ _ _ Hret) as (t0 & eta & ef & Hst & Heta & Hef & _ & Hline).
    match goal with |- context [display ?a ?b ?c ?s] =>
      destruct (display_fields a b c s) as (_ & _ & _ & _ & Hpr) end.
    cbv zeta in Hpr. rewrite Hpr.
    cbn [self world _start _text _width _total _progress with_progress] in *.
    destruct (started_self pb w) as (Hst' & _ & Htx & _).
    destruct (started_world pb w) as (_ & Ho & _).
    rewrite Hst' in Hst. inversion Hst; subst t0. clear Hst.
    destruct (eta_of_inv _ _ _ Heta) as (Hz & Eeta).
    destruct (eta_format_of_inv _ _ Hef) as (mf & minutes & sf & seconds & E1 & E2 & E3 & E4 & Es).
    split; [assumption |]. rewrite <- Eeta.
    exists mf, minutes, sf, seconds. do 4 (split; [assumption |]).
    intros Hlt. rewrite Hlt, Ho in Hline. rewrite Hline in Hout.
    apply app_inv_head in Hout. apply singleton_inj in Hout. subst line.
    exists (line_prefix (palette p) (icon p) (_text (self (started pb w))) c
              (int_value (_width pb) - c) (percentage_format_of (clamp pct))
            ++ lit " " ++ c_text (palette p)).
    rewrite Es. apply progress_line_suffix.
Qed.

(** C6 at [update(50)] on a new bar of total 100. *)
Lemma rendering_eta_witness :
  let r := update 50 {| self := fresh 100; world := demo_world |} in
  let p := _progress (self (snd r)) in
  let elapsed := fsub (clock (world (started (fresh 100) demo_world))
                         (ticks (world (started (fresh 100) demo_world))))
                      (start_time (fresh 100) demo_world) in
  let eta := fadd (fmul (fdiv elapsed p) (fsub (float_of_Z 1) p)) (float_of_Z 1) in
  is_zero p = false
  /\ exists mf minutes sf seconds,
       float_floordiv eta (float_of_Z 60) = Ret mf /\ int_of_float mf = Ret minutes
       /\ float_rem eta (float_of_Z 60) = Ret sf /\ int_of_float sf = Ret seconds
       /\ (flt p (float_of_Z 1) = true ->
           exists pre,
             demo_line_50 = pre ++ lit "ETA: " ++ zfill (str_of_int minutes) 2 ++ lit ":"
                              ++ zfill (str_of_int seconds) 2 ++ CR).
Proof.
  exact (proj1 (rendering_eta (fresh 100) demo_world 50 demo_line_50 eq_refl eq_refl)).
Defined.

(** C7, counterexample. [update(50)] on a new bar of total 100 returns with
    the stored fraction 0.5 below 1; the line it prints is not the line the
    claim describes, with or without the colour escape sequences: between
    the percentage and ["%]"] the code prints a space. *)
Lemma in_progress_line_has_a_space_before_percent :
  let r := update 50 {| self := fresh 100; world := demo_world |} in
  let percentage := rjust (format_2f (float_of_Z 50)) 6 in
  let claimed :=
    spec_progress_line ICON_running (lit "Progress") (str_repeat SYMBOL 28)
      (str_repeat SYMBOL 29) percentage (lit "00:01") ++ CR in
  fst r = Ret tt
  /\ flt (_progress (self (snd r))) (float_of_Z 1) = true
  /\ stdout (world (snd r)) <> [claimed]
  /\ map strip_ansi (stdout (world (snd r))) <> [claimed]
  /\ map strip_ansi (stdout (world (snd r)))
     = [lit " @ Progress " ++ str_repeat SYMBOL 28 ++ str_repeat SYMBOL 29
          ++ lit " [ 50.00 %] ETA: 00:01" ++ CR].
Proof. vm_compute. repeat split; try reflexivity; discriminate. Qed.

(** C7, as amended. Every update that returns with a stored fraction
    strictly below 1 has printed exactly one line, made of, in order: a
    space, the red colour code, the glyph ["@"], a space, the red code, the
    label, a space, the yellow code, the filled cells, the black code, the
    empty cells, a space, the red code, ["["], the percentage with two
    decimals right-justified to width 6, a space and ["%"], ["]"], a space,
    the red code, ["ETA: "], the minutes, [":"], the seconds (each
    [zfill(2)]), and a carriage return, with no newline. *)
Theorem in_progress_line_layout pb w current :
  let r := update current {| self := pb; world := w |} in
  fst r = Ret tt ->
  flt (_progress (self (snd r))) (float_of_Z 1) = true ->
  exists percentage completed remaining minutes seconds,
    remaining = int_value (_width pb) - completed
    /\ stdout (world (snd r))
       = stdout w ++
         [(lit " " ++ Fore.RED ++ ICON_running ++ lit " " ++ Fore.RED ++ _text pb
             ++ lit " " ++ Fore.YELLOW ++ str_repeat SYMBOL completed
             ++ Fore.BLACK ++ str_repeat SYMBOL remaining
             ++ lit " " ++ Fore.RED
             ++ (lit "[" ++ (rjust (format_2f percentage) 6 ++ lit " %") ++ lit "]")
             ++ lit " " ++ Fore.RED ++ lit "ETA: "
             ++ zfill (str_of_int minutes) 2 ++ lit ":" ++ zfill (str_of_int seconds) 2)
          ++ CR].
Proof.
  cbv zeta. intros Hret Hlt.
  destruct (update_returns current pb w Hret)
    as (q & pct & wf & c & Hq & Hpct & Hwf & Hc & [(_ & Hgt & Hpq & _) | (p & Hp & _ & Hr)]).
  - rewrite Hpq in Hlt. apply flt_asym in Hgt. congruence.
  - rewrite Hr in *.
    destruct (display_returns _ _ _ _ _ Hret) as (t0 & eta & ef & _ & _ & Hef & _ & Hline).
    match goal with |- context [display ?a ?b ?c ?s] =>
      destruct (display_fields a b c s) as (_ & _ & _ & _ & Hpr) end.
    cbv zeta in Hpr. rewrite Hpr in Hlt.
    cbn [self world _start _text _width _total _progress with_progress] in *.
    destruct (started_self pb w) as (_ & _ & Htx & _).
    destruct (started_world pb w) as (_ & Ho & _).
    destruct (eta_format_of_inv _ _ Hef) as (mf & minutes & sf & seconds & _ & _ & _ & _ & Es).
    destruct (running_look p Hlt) as (Hpal & Hic).
    rewrite Hlt, Hpal, Hic, Htx, Ho, Es in Hline.
    exists (clamp pct), c, (int_value (_width pb) - c), minutes, seconds.
    split; [reflexivity |]. rewrite Hline. f_equal. f_equal.
    unfold progress_line, line_prefix, prefix_fstring, percentage_format_of.
    cbn [c_text c_progress c_remaining running_colors].
    rewrite <- !app_assoc. reflexivity.
Qed.

(** The amended C7 at [update(50)] on a new bar of total 100. *)
Lemma in_progress_line_layout_witness :
  exists percentage completed remaining minutes seconds,
    remaining = int_value (_width (fresh 100)) - completed
    /\ stdout (world (snd (update 50 {| self := fresh 100; world := demo_world |})))
       = stdout demo_world ++
         [(lit " " ++ Fore.RED ++ ICON_running ++ lit " " ++ Fore.RED ++ _text (fresh 100)
             ++ lit " " ++ Fore.YELLOW ++ str_repeat SYMBOL completed
             ++ Fore.BLACK ++ str_repeat SYMBOL remaining
             ++ lit " " ++ Fore.RED
             ++ (lit "[" ++ (rjust (format_2f percentage) 6 ++ lit " %") ++ lit "]")
             ++ lit " " ++ Fore.RED ++ lit "ETA: "
             ++ zfill (str_of_int minutes) 2 ++ lit ":" ++ zfill (str_of_int seconds) 2)
          ++ CR].
Proof.
  exact (in_progress_line_layout (fresh 100) demo_world 50 eq_refl eq_refl).
Defined.

(** C8. Construction raises exactly when [total] is not an [int], or the
    label is not a [str], or a width other than [None] is not an [int]; what
    it raises is a [ValueError]; a failed construction yields no object;
    and a successful one stores [total], the label and a supplied width so
    that the accessors return them exactly (without a width, the accessor
    returns [80 - (len(label) + 15)]), with no start time and the fraction
    [1e-12]. *)
Theorem init_validation total_arg text_arg width_arg :
  ((exists e, __init__ total_arg text_arg width_arg = Raise e)
   <-> (is_int total_arg = false \/ is_str text_arg = false
        \/ (width_arg <> VNone /\ is_int width_arg = false)))
  /\ (forall e, __init__ total_arg text_arg width_arg = Raise e ->
        exists msg, e = ValueError msg)
  /\ ((exists e, __init__ total_arg text_arg width_arg = Raise e)
      \/ exists pb,
           __init__ total_arg text_arg width_arg = Ret pb
           /\ total pb = total_arg
           /\ text pb = text_arg
           /\ (width_arg <> VNone -> width pb = width_arg)
           /\ (width_arg = VNone ->
               exists s, text_arg = VStr s /\ width pb = VInt (80 - (len s + 15)))
           /\ _start pb = None /\ progress pb = eps).
Proof.
  unfold __init__. split; [split |].
  - intros [e H].
    destruct total_arg; cbn in *; auto; destruct text_arg; cbn in *; auto;
      destruct width_arg; cbn in *; try discriminate; right; right; split; auto; discriminate.
  - intros [H | [H | [H1 H2]]].
    + destruct total_arg; try discriminate; cbn; eauto.
    + destruct total_arg; cbn; eauto; destruct text_arg; try discriminate; cbn; eauto.
    + destruct total_arg; cbn; eauto; destruct text_arg; cbn; eauto;
        destruct width_arg; try discriminate; try congruence; cbn; eauto.
  - split.
    + intros e H.
      destruct total_arg; cbn in H; try (inversion H; eauto; fail);
        destruct text_arg; cbn in H; try (inversion H; eauto; fail);
        destruct width_arg; cbn in H; try discriminate; inversion H; eauto.
    + destruct total_arg; cbn; eauto; destruct text_arg; cbn; eauto;
        destruct width_arg; cbn; eauto; right; eexists; (split; [reflexivity |]);
        cbn; repeat split; try congruence; eauto.
Qed.

(** C9. For every tracker whose total is 0 and every integer [current],
    [update(current)] raises [ZeroDivisionError] at the fraction
    computation [current / total]: the stored fraction is not assigned,
    nothing is printed and the cursor is not touched. *)
Theorem update_zero_total_raises pb w current :
  int_value (_total pb) = 0 ->
  let r := update current {| self := pb; world := w |} in
  fst r = Raise ZeroDivisionError
  /\ _progress (self (snd r)) = _progress pb
  /\ stdout (world (snd r)) = stdout w
  /\ cursor_visible (world (snd r)) = cursor_visible w.
Proof.
  intros Ht. cbv zeta. rewrite update_eq, Ht. cbv zeta.
  change (int_truediv current 0) with (@Raise float ZeroDivisionError).
  cbv iota. py_step.
  destruct (started_self pb w) as (_ & _ & _ & _ & -> & _).
  destruct (started_world pb w) as (_ & -> & -> & _). auto.
Qed.

(** C9 at [update(7)] on [ProgressBar(0)], which construction accepts. *)
Lemma update_zero_total_raises_witness :
  __init__ (VInt 0) default_text VNone = Ret (fresh 0)
  /\ let r := update 7 {| self := fresh 0; world := demo_world |} in
     fst r = Raise ZeroDivisionError
     /\ _progress (self (snd r)) = _progress (fresh 0)
     /\ stdout (world (snd r)) = stdout demo_world
     /\ cursor_visible (world (snd r)) = cursor_visible demo_world.
Proof.
  split; [reflexivity |].
  apply (update_zero_total_raises (fresh 0) demo_world 7). reflexivity.
Defined.




(** * Further properties of the class *)

(** ** The setters, the timing properties and the script *)

Lemma update_fields current pb w :
  let r := update current {| self := pb; world := w |} in
  _start (self (snd r)) = Some (start_time pb w)
  /\ _total (self (snd r)) = _total pb
  /\ _text (self (snd r)) = _text pb
  /\ _width (self (snd r)) = _width pb.
Proof.
  cbv zeta. rewrite update_eq. cbv zeta.
  destruct (started_self pb w) as (Hs & Ht & Hx & Hw & _).
  assert (Hfinal : forall (o : outcome unit) p,
            let r := (o, {| self := with_progress p (self (started pb w));
                            world := world (started pb w) |}) in
            _start (self (snd r)) = Some (start_time pb w)
            /\ _total (self (snd r)) = _total pb
            /\ _text (self (snd r)) = _text pb
            /\ _width (self (snd r)) = _width pb)
    by (intros o p; py_step; auto).
  assert (Hdisp : forall a b c p,
            let r := display a b c {| self := with_progress p (self (started pb w));
                                      world := world (started pb w) |} in
            _start (self (snd r)) = Some (start_time pb w)
            /\ _total (self (snd r)) = _total pb
            /\ _text (self (snd r)) = _text pb
            /\ _width (self (snd r)) = _width pb).
  { intros a b c p. cbv zeta.
    match goal with |- context [display ?a ?b ?c ?s] =>
      destruct (display_fields a b c s) as (E1 & E2 & E3 & E4 & _) end.
    cbv zeta in E1, E2, E3, E4. rewrite E1, E2, E3, E4. py_step. auto. }
  destruct (int_truediv current (int_value (_total pb))) as [q | e]; [| py_step; auto].
  destruct (round_ndigits (fmul q (float_of_Z 100)) 4); [| apply Hfinal].
  destruct (int_to_float (int_value (_width pb))); [| apply Hfinal].
  destruct (round_int (fmul q a0)); [| apply Hfinal].
  destruct (flt q (float_of_Z 0)).
  - apply (Hdisp _ _ _ eps).
  - destruct (flt (float_of_Z 1) q); [apply Hfinal | apply Hdisp].
Qed.

Ltac obj_step :=
  cbn [self world fst snd _start _total _text _width _progress LAST
       with_start with_progress with_LAST with_total with_text with_width
       clock ticks stdout cursor_visible tick write with_cursor
       total text width progress of_pyint].

(** X1. Assigning to [total], [text] or [width] on an object (lines 54 to
    96) either raises [ValueError] and leaves the object as it was, when
    the value is not an [int] (for [total] and [width]; [None] is accepted
    for [width]) or not a [str] (for [text]), or returns with the value
    stored, so that the accessor reads it back; in both cases no other
    attribute changes (putting the old value back gives the old object) and
    the outside world is untouched. *)
Theorem setters_validate_or_leave_untouched value pb w :
  let t := assign_total value {| self := pb; world := w |} in
  let x := assign_text value {| self := pb; world := w |} in
  let d := assign_width value {| self := pb; world := w |} in
  (world (snd t) = w /\ with_total (_total pb) (self (snd t)) = pb
   /\ if is_int value
      then fst t = Ret tt /\ total (self (snd t)) = value
      else fst t = Raise (ValueError "Total iterations must be an integer.")
           /\ self (snd t) = pb)
  /\ (world (snd x) = w /\ with_text (_text pb) (self (snd x)) = pb
      /\ if is_str value
         then fst x = Ret tt /\ text (self (snd x)) = value
         else fst x = Raise (ValueError "Text must be a string.")
              /\ self (snd x) = pb)
  /\ (world (snd d) = w /\ with_width (_width pb) (self (snd d)) = pb
      /\ if is_int value
         then fst d = Ret tt /\ width (self (snd d)) = value
         else match value with
              | VNone => fst d = Ret tt
                         /\ width (self (snd d)) = VInt (80 - (len (_text pb) + 15))
              | _ => fst d = Raise (ValueError "Width must be an integer.")
                     /\ self (snd d) = pb
              end).
Proof.
  unfold assign_total, assign_text, assign_width, bind, lift, on_self, getattr.
  destruct pb as [st tt_ tx wd pr la].
  destruct value; cbn [total_setter text_setter width_setter is_int is_str]; obj_step;
    repeat split; reflexivity.
Qed.

(** X2. [width = None] derives the width from the label the object has at
    that moment, [80 - (len(label) + 15)]: after [text = s] followed by
    [width = None] the label and the width add up to 65 (so a label of 65
    characters or more gives a width that is not positive), whereas
    [text = s] alone leaves the width that was derived from the old
    label. *)
Theorem default_width_follows_the_label s pb w :
  let relabel := assign_text (VStr s) {| self := pb; world := w |} in
  let r := (assign_text (VStr s) ;; assign_width VNone) {| self := pb; world := w |} in
  fst relabel = Ret tt
  /\ text (self (snd relabel)) = VStr s
  /\ width (self (snd relabel)) = width pb
  /\ fst r = Ret tt
  /\ text (self (snd r)) = VStr s
  /\ width (self (snd r)) = VInt (80 - (len s + 15))
  /\ len s + int_value (_width (self (snd r))) = 65
  /\ (65 <= len s -> int_value (_width (self (snd r))) <= 0).
Proof.
  unfold assign_text, assign_width, bind, lift, on_self, getattr.
  cbn [text_setter width_setter]. obj_step. cbn [int_value].
  repeat split; try reflexivity; lia.
Qed.

Lemma elapsed_eq pb w :
  elapsed {| self := pb; world := w |}
  = (match _start pb with
     | Some t0 => Ret (fsub (clock w (ticks w)) t0)
     | None => Raise NoneType_operand
     end, {| self := pb; world := tick w |}).
Proof. unfold elapsed, bind, lift, getattr, perf_counter. obj_step. reflexivity. Qed.

Lemma remaining_eq pb w :
  remaining {| self := pb; world := w |}
  = (match _start pb with
     | Some t0 => eta_of (fsub (clock w (ticks w)) t0) (_progress pb)
     | None => Raise NoneType_operand
     end, {| self := pb; world := tick w |}).
Proof.
  unfold remaining, bind, lift, getattr, perf_counter. obj_step.
  destruct (_start pb); reflexivity.
Qed.

(** X3. On an object that [__init__] has just returned, the properties
    [elapsed] and [remaining] (lines 108 to 127) raise [TypeError]: the
    start time is still [None] and cannot be subtracted from the clock
    reading, which has been taken all the same; the object is unchanged. *)
Theorem timing_needs_an_update total_arg text_arg width_arg pb w :
  __init__ total_arg text_arg width_arg = Ret pb ->
  let e := elapsed {| self := pb; world := w |} in
  let r := remaining {| self := pb; world := w |} in
  fst e = Raise NoneType_operand /\ fst r = Raise NoneType_operand
  /\ snd e = {| self := pb; world := tick w |}
  /\ snd r = {| self := pb; world := tick w |}.
Proof.
  intros Hinit. cbv zeta. rewrite elapsed_eq, remaining_eq.
  assert (Hs : _start pb = None).
  { unfold __init__ in Hinit.
    destruct (total_setter total_arg); cbn [obind] in Hinit; [| discriminate].
    destruct (text_setter text_arg); cbn [obind] in Hinit; [| discriminate].
    destruct (width_setter _ width_arg); cbn [obind] in Hinit; [| discriminate].
    inversion Hinit. reflexivity. }
  rewrite Hs. auto.
Qed.

(** X3 on [ProgressBar(10)]. *)
Lemma timing_needs_an_update_witness :
  fst (elapsed {| self := fresh 10; world := demo_world |}) = Raise NoneType_operand.
Proof.
  exact (proj1 (timing_needs_an_update (VInt 10) default_text VNone (fresh 10) demo_world
                  (init_fresh 10))).
Defined.

Lemma display_clock a b c s :
  clock (world (snd (display a b c s))) = clock (world s).
Proof.
  destruct s as [pb w]. rewrite display_eq. cbv zeta. py_step.
  destruct (_start pb); [| py_step; auto].
  destruct (eta_of _ _); [| py_step; auto].
  destruct (eta_format_of _); [| py_step; auto].
  destruct (index_sized b && index_sized c); py_step; auto.
Qed.

(** [update] reads the clock and leaves it as it is. *)
Lemma update_clock current pb w :
  clock (world (snd (update current {| self := pb; world := w |}))) = clock w.
Proof.
  rewrite update_eq. cbv zeta.
  destruct (started_world pb w) as (Hc & _).
  destruct (int_truediv current (int_value (_total pb))) as [q | e]; [| py_step; auto].
  destruct (round_ndigits (fmul q (float_of_Z 100)) 4); [| py_step; auto].
  destruct (int_to_float (int_value (_width pb))); [| py_step; auto].
  destruct (round_int (fmul q a0)); [| py_step; auto].
  destruct (flt q (float_of_Z 0)); [rewrite display_clock; py_step; auto |].
  destruct (flt (float_of_Z 1) q); [py_step; auto | rewrite display_clock; py_step; auto].
Qed.

(** X4. After any call of [update], whatever its arguments and whether it
    returned or raised, [elapsed] returns: the start time was set at lines
    141 and 142, before anything can raise, and the value is the clock
    reading minus that start time. Reading [elapsed] changes neither the
    object nor what has been printed. *)
Theorem elapsed_after_update pb w current :
  let s := snd (update current {| self := pb; world := w |}) in
  let e := elapsed s in
  fst e = Ret (fsub (clock w (ticks (world s))) (start_time pb w))
  /\ self (snd e) = self s
  /\ stdout (world (snd e)) = stdout (world s).
Proof.
  cbv zeta.
  destruct (update_fields current pb w) as (Hs & _). cbv zeta in Hs.
  pose proof (update_clock current pb w) as Hclock.
  destruct (snd (update current {| self := pb; world := w |})) as [pb' w'].
  cbn [self world] in *. rewrite elapsed_eq, Hs, Hclock. py_step. auto.
Qed.

(** X5. A call of [update] that raises has printed nothing. A call that
    returns has either printed nothing and left the cursor alone, when the
    stored fraction is above 1, or printed exactly one line, ended by a
    carriage return when the stored fraction is below 1 and by a newline
    otherwise, leaving the cursor visible exactly when the stored fraction
    equals 1. *)
Theorem update_prints_at_most_one_line pb w current :
  let r := update current {| self := pb; world := w |} in
  let p := _progress (self (snd r)) in
  match fst r with
  | Raise _ => stdout (world (snd r)) = stdout w
  | Ret _ =>
      (flt (float_of_Z 1) p = true
       /\ stdout (world (snd r)) = stdout w
       /\ cursor_visible (world (snd r)) = cursor_visible w)
      \/ (flt (float_of_Z 1) p = false
          /\ cursor_visible (world (snd r)) = is_done p
          /\ exists body,
               stdout (world (snd r))
               = stdout w ++ [body ++ (if flt p (float_of_Z 1) then CR else LF)])
  end.
Proof.
  cbv zeta. rewrite update_eq. cbv zeta.
  destruct (started_world pb w) as (_ & Ho & Hcur & _).
  assert (Hdisp : forall a b c p,
            flt (float_of_Z 1) p = false ->
            let r := display a b c {| self := with_progress p (self (started pb w));
                                      world := world (started pb w) |} in
            let p := _progress (self (snd r)) in
            match fst r with
            | Raise _ => stdout (world (snd r)) = stdout w
            | Ret _ =>
                (flt (float_of_Z 1) p = true
                 /\ stdout (world (snd r)) = stdout w
                 /\ cursor_visible (world (snd r)) = cursor_visible w)
                \/ (flt (float_of_Z 1) p = false
                    /\ cursor_visible (world (snd r)) = is_done p
                    /\ exists body,
                         stdout (world (snd r))
                         = stdout w ++ [body ++ (if flt p (float_of_Z 1) then CR else LF)])
            end).
  { intros a b c p Hp. cbv zeta. rewrite display_eq. cbv zeta. py_step.
    destruct (_start (self (started pb w))) as [t0 | ]; [| py_step; auto].
    destruct (eta_of _ _) as [eta | ]; [| py_step; auto].
    destruct (eta_format_of _) as [ef | ]; [| py_step; auto].
    destruct (index_sized b && index_sized c); py_step; auto.
    right. split; [assumption |]. split; [reflexivity |]. rewrite Ho.
    destruct (flt p (float_of_Z 1)); eexists; reflexivity. }
  destruct (int_truediv current (int_value (_total pb))) as [q | e]; [| py_step; auto].
  destruct (round_ndigits (fmul q (float_of_Z 100)) 4); [| py_step; auto].
  destruct (int_to_float (int_value (_width pb))); [| py_step; auto].
  destruct (round_int (fmul q a0)); [| py_step; auto].
  destruct (flt q (float_of_Z 0)) eqn:Eneg.
  - apply Hdisp. reflexivity.
  - destruct (flt (float_of_Z 1) q) eqn:Egt.
    + py_step. left. auto.
    + apply Hdisp. assumption.
Qed.

Lemma started_with_LAST l pb w :
  started (with_LAST l pb) w
  = {| self := with_LAST l (self (started pb w)); world := world (started pb w) |}.
Proof. unfold started. cbn [_start with_LAST]. destruct (_start pb); reflexivity. Qed.

Lemma display_with_LAST a b c l pb w :
  let r := display a b c {| self := pb; world := w |} in
  let r' := display a b c {| self := with_LAST l pb; world := w |} in
  fst r' = fst r /\ world (snd r') = world (snd r)
  /\ _start (self (snd r')) = _start (self (snd r))
  /\ _progress (self (snd r')) = _progress (self (snd r))
  /\ (fst r = Ret tt -> snd r' = snd r).
Proof.
  cbv zeta. rewrite !display_eq. cbn [_start _progress _text with_LAST]. cbv zeta.
  destruct (_start pb); [| py_step; repeat split; auto; discriminate].
  destruct (eta_of _ _); [| py_step; repeat split; auto; discriminate].
  destruct (eta_format_of _); [| py_step; repeat split; auto; discriminate].
  destruct (index_sized b && index_sized c); py_step; repeat split; auto; discriminate.
Qed.

(** X6. [update] reads neither the stored fraction nor [LAST]: on two
    objects that differ only there, the same call has the same outcome, the
    same effect on the outside world and the same start time, and stores
    the same fraction whenever the division succeeds; when the call prints,
    the two final objects are equal. *)
Theorem update_forgets_history pb w current p l :
  let r := update current {| self := pb; world := w |} in
  let r' := update current {| self := with_progress p (with_LAST l pb); world := w |} in
  fst r' = fst r
  /\ world (snd r') = world (snd r)
  /\ _start (self (snd r')) = _start (self (snd r))
  /\ (forall q, int_truediv current (int_value (_total pb)) = Ret q ->
        _progress (self (snd r')) = _progress (self (snd r)))
  /\ (fst r = Ret tt -> stdout (world (snd r)) <> stdout w -> snd r' = snd r).
Proof.
  cbv zeta.
  destruct (update_ignores_progress current p (with_LAST l pb) w) as (E1 & E2 & E3).
  cbv zeta in E1, E2, E3. cbn [_total with_LAST] in E3.
  assert (Hmain :
    let r := update current {| self := pb; world := w |} in
    let r' := update current {| self := with_LAST l pb; world := w |} in
    fst r' = fst r /\ world (snd r') = world (snd r)
    /\ _start (self (snd r')) = _start (self (snd r))
    /\ _progress (self (snd r')) = _progress (self (snd r))
    /\ (fst r = Ret tt -> stdout (world (snd r)) <> stdout w -> snd r' = snd r)).
  { cbv zeta. rewrite !update_eq. rewrite started_with_LAST.
    cbn [_total _width with_LAST self world]. cbv zeta.
    destruct (started_world pb w) as (_ & Ho & _).
    assert (Hleaf : forall (o : outcome unit) q,
      let r := (o, {| self := with_progress q (self (started pb w));
                      world := world (started pb w) |}) in
      let r' := (o, {| self := with_progress q (with_LAST l (self (started pb w)));
                       world := world (started pb w) |}) in
      fst r' = fst r /\ world (snd r') = world (snd r)
      /\ _start (self (snd r')) = _start (self (snd r))
      /\ _progress (self (snd r')) = _progress (self (snd r))
      /\ (fst r = Ret tt -> stdout (world (snd r)) <> stdout w -> snd r' = snd r)).
    { intros o q. py_step. repeat split; auto. intros _ H. congruence. }
    assert (Hdisp : forall a b c q,
      let r := display a b c {| self := with_progress q (self (started pb w));
                                world := world (started pb w) |} in
      let r' := display a b c {| self := with_progress q (with_LAST l (self (started pb w)));
                                 world := world (started pb w) |} in
      fst r' = fst r /\ world (snd r') = world (snd r)
      /\ _start (self (snd r')) = _start (self (snd r))
      /\ _progress (self (snd r')) = _progress (self (snd r))
      /\ (fst r = Ret tt -> stdout (world (snd r)) <> stdout w -> snd r' = snd r)).
    { intros a b c q.
      destruct (display_with_LAST a b c l (with_progress q (self (started pb w)))
                  (world (started pb w))) as (D1 & D2 & D3 & D4 & D5).
      cbv zeta in *. change (with_LAST l (with_progress q (self (started pb w))))
        with (with_progress q (with_LAST l (self (started pb w)))) in *.
      repeat split; auto. }
    destruct (int_truediv current (int_value (_total pb))) as [q | e].
    2:{ py_step. repeat split; auto. discriminate. }
    destruct (round_ndigits (fmul q (float_of_Z 100)) 4); [| apply Hleaf].
    destruct (int_to_float (int_value (_width pb))); [| apply Hleaf].
    destruct (round_int (fmul q a0)); [| apply Hleaf].
    destruct (flt q (float_of_Z 0)); [apply Hdisp |].
    destruct (flt (float_of_Z 1) q); [apply Hleaf | apply Hdisp]. }
  cbv zeta in Hmain. destruct Hmain as (M1 & M2 & M3 & M4 & M5).
  split; [congruence |]. split; [congruence |].
  split.
  - destruct (int_truediv current (int_value (_total pb))) as [q | e] eqn:Eq.
    + rewrite (E3 q eq_refl). assumption.
    + (* the division raises: both objects keep their start *)
      destruct (update_fields current (with_progress p (with_LAST l pb)) w) as (F1 & _).
      destruct (update_fields current pb w) as (F2 & _).
      cbv zeta in F1, F2. rewrite F1, F2. reflexivity.
  - split.
    + intros q Hq. rewrite (E3 q Hq). assumption.
    + intros Hr Hp.
      destruct (int_truediv current (int_value (_total pb))) as [q | e] eqn:Eq.
      * rewrite (E3 q eq_refl). auto.
      * rewrite update_eq, Eq in Hr. cbv zeta in Hr. discriminate.
Qed.

(** The state [update(0)] leaves behind when it raises. *)
Lemma update_zero_result pb w wf :
  0 < int_value (_total pb) ->
  int_to_float (int_value (_width pb)) = Ret wf ->
  update 0 {| self := pb; world := w |}
  = (Raise ZeroDivisionError,
     {| self := with_progress (S754_zero false) (self (started pb w));
        world := tick (with_cursor false (world (started pb w))) |}).
Proof.
  intros Ht Hw.
  pose proof (int_to_float_valid _ _ Hw) as Hwf.
  rewrite update_eq, (int_truediv_zero_l _ Ht). cbv zeta.
  change (round_ndigits (fmul (S754_zero false) (float_of_Z 100)) 4)
    with (Ret (S754_zero false)).
  rewrite Hw, (round_int_fmul_zero _ _ Hwf).
  change (flt (S754_zero false) (float_of_Z 0)) with false.
  change (flt (float_of_Z 1) (S754_zero false)) with false.
  cbv iota. rewrite display_eq. py_step.
  destruct (started_self pb w) as (-> & _).
  cbv zeta. rewrite eta_of_zero. reflexivity.
Qed.

(** X7. On a bar of positive total whose width converts to a float,
    [update(0)] has, by the time it raises [ZeroDivisionError], set the
    start time, hidden the cursor and read the clock for the elapsed time;
    [LAST] is not assigned. *)
Theorem update_zero_leaves_cursor_hidden pb w wf :
  0 < int_value (_total pb) ->
  int_to_float (int_value (_width pb)) = Ret wf ->
  let r := update 0 {| self := pb; world := w |} in
  fst r = Raise ZeroDivisionError
  /\ cursor_visible (world (snd r)) = false
  /\ _start (self (snd r)) = Some (start_time pb w)
  /\ LAST (self (snd r)) = LAST pb
  /\ ticks (world (snd r))
     = match _start pb with Some _ => S (ticks w) | None => S (S (ticks w)) end.
Proof.
  intros Ht Hw. cbv zeta. rewrite (update_zero_result pb w wf Ht Hw). py_step.
  destruct (started_self pb w) as (Hs & _ & _ & _ & _ & Hl).
  destruct (started_world pb w) as (_ & _ & _ & Htk).
  rewrite Hs, Hl, Htk. destruct (_start pb); auto.
Qed.

(** X7 on a new bar of total 10. *)
Lemma update_zero_leaves_cursor_hidden_witness :
  let r := update 0 {| self := fresh 10; world := demo_world |} in
  fst r = Raise ZeroDivisionError /\ cursor_visible (world (snd r)) = false.
Proof.
  destruct (update_zero_leaves_cursor_hidden (fresh 10) demo_world (float_of_Z 57)
              eq_refl eq_refl) as (H1 & H2 & _).
  split; [exact H1 | exact H2].
Defined.

Lemma range_101 : range 101 = 0 :: map Z.of_nat (seq 1 100).
Proof. reflexivity. Qed.

(** X8. Run as a script (lines 204 to 211), the module stops at the
    first iteration: [ProgressBar(90)] followed by [update(0)] raises
    [ZeroDivisionError], in every world, with nothing printed, the cursor
    hidden and the clock read twice. *)
Theorem main_raises_at_the_first_iteration w :
  let r := main w in
  fst r = Raise ZeroDivisionError
  /\ stdout (snd r) = stdout w
  /\ cursor_visible (snd r) = false
  /\ ticks (snd r) = S (S (ticks w)).
Proof.
  cbv zeta. unfold main.
  change (__init__ (VInt 90) (VStr (lit "Progress")) VNone) with (Ret (fresh 90)).
  cbv iota beta. rewrite range_101. cbn [for_each]. unfold bind at 1. unfold bind at 1.
  rewrite (update_zero_result (fresh 90) w (float_of_Z 57) eq_refl eq_refl).
  py_step. repeat split; reflexivity.
Qed.

(** X9. For a bar of positive total, and whatever its width: after
    [update(0)] the stored fraction is [0.0] and [remaining] raises
    [ZeroDivisionError]; after [update(total)] the stored fraction is [1.0]
    and, with a sane clock, [remaining] is exactly [1.0] second, not zero,
    because of the [+ 1] of line 127. *)
Theorem remaining_at_the_ends pb w :
  0 < int_value (_total pb) ->
  let s0 := snd (update 0 {| self := pb; world := w |}) in
  let s1 := snd (update (int_value (_total pb)) {| self := pb; world := w |}) in
  fst (remaining s0) = Raise ZeroDivisionError
  /\ (sane_clock w -> sane_start pb -> fst (remaining s1) = Ret (float_of_Z 1)).
Proof.
  intros Ht. cbv zeta. split.
  - pose proof (update_stores_fraction 0 pb w _ (int_truediv_zero_l _ Ht) eq_refl) as Hp.
    destruct (update_fields 0 pb w) as (Hs & _). cbv zeta in Hs.
    destruct (snd (update 0 {| self := pb; world := w |})) as [pb' w'].
    cbn [self] in *. rewrite remaining_eq, Hs, Hp. reflexivity.
  - intros Hc Hst.
    pose proof (update_stores_fraction _ pb w _ (int_truediv_self _ Ht) eq_refl) as Hp.
    destruct (update_fields (int_value (_total pb)) pb w) as (Hs & _). cbv zeta in Hs.
    pose proof (update_clock (int_value (_total pb)) pb w) as Hk.
    destruct (snd (update (int_value (_total pb)) {| self := pb; world := w |})) as [pb' w'].
    cbn [self world] in *. rewrite remaining_eq, Hs, Hp, Hk. cbn [fst].
    apply (eta_of_done _ 66); [| lia].
    apply fsub_readings; [apply Hc |].
    unfold start_time, sane_start in *. destruct (_start pb); auto.
Qed.

(** X9 on a new bar of total 10. *)
Lemma remaining_at_the_ends_witness :
  fst (remaining (snd (update 0 {| self := fresh 10; world := demo_world |})))
  = Raise ZeroDivisionError
  /\ fst (remaining (snd (update 10 {| self := fresh 10; world := demo_world |})))
     = Ret (float_of_Z 1).
Proof.
  destruct (remaining_at_the_ends (fresh 10) demo_world eq_refl) as (H0 & H1).
  split; [exact H0 | exact (H1 demo_world_sane (fresh_sane 10))].
Defined.

(** ** The cells of the bar *)

Lemma line_prefix_in_lines COLORS ICON label completed remaining pf ef el :
  (progress_line COLORS ICON label completed remaining pf ef ++ CR
   = line_prefix COLORS ICON label completed remaining pf
       ++ (lit " " ++ c_text COLORS ++ lit "ETA: " ++ ef) ++ CR)
  /\ (done_line COLORS ICON label completed remaining pf el ++ LF
      = line_prefix COLORS ICON label completed remaining pf
          ++ (lit " " ++ c_text COLORS ++ lit "Elapsed: " ++ format_2f el ++ lit "s") ++ LF).
Proof.
  unfold progress_line, done_line. rewrite <- !app_assoc. split; reflexivity.
Qed.

(** X10. For [0 <= current <= total], a positive total and a width from 0
    to below [2^53], a call of [update] that returns has printed a line
    whose bar has exactly [width] cells: [completed] filled and
    [width - completed] empty ones, with [0 <= completed <= width]. *)
Theorem cells_fill_the_width pb w current :
  0 <= current <= int_value (_total pb) -> 0 < int_value (_total pb) ->
  0 <= int_value (_width pb) < 2 ^ 53 ->
  let r := update current {| self := pb; world := w |} in
  let p := _progress (self (snd r)) in
  fst r = Ret tt ->
  exists completed percentage_format rest,
    0 <= completed <= int_value (_width pb)
    /\ len (str_repeat SYMBOL completed)
       + len (str_repeat SYMBOL (int_value (_width pb) - completed))
       = int_value (_width pb)
    /\ stdout (world (snd r))
       = stdout w ++ [line_prefix (palette p) (icon p) (_text pb) completed
                        (int_value (_width pb) - completed) percentage_format ++ rest].
Proof.
  intros Hcur Htot Hwid. cbv zeta. intros Hret.
  destruct (int_truediv_unit _ _ Hcur Htot) as (q & Hq & Hfq & Huq).
  destruct (unit_tests q Hfq Huq) as (Hneg & Hgt).
  destruct (update_returns current pb w Hret)
    as (q' & pct & wf & c & Hq' & Hpct & Hwf & Hc & [(_ & Hgt' & _) | (p & Hp & _ & Hr)]).
  { rewrite Hq in Hq'. inversion Hq'; subst q'. congruence. }
  rewrite Hq in Hq'. inversion Hq'; subst q'. clear Hq'.
  rewrite Hneg in Hp. subst p.
  destruct (unit_fraction_cells q _ wf Hfq Huq Hwid Hwf) as (c' & Hc' & Hrange).
  rewrite Hc in Hc'. inversion Hc'; subst c'. clear Hc'.
  rewrite Hr in Hret |- *.
  destruct (display_returns _ _ _ _ _ Hret) as (t0 & eta & ef & _ & _ & _ & _ & Hline).
  match goal with |- context [display ?a ?b ?c ?s] =>
    destruct (display_fields a b c s) as (_ & _ & _ & _ & Hpr) end.
  cbv zeta in Hpr. rewrite Hpr.
  cbn [self world _start _text _width _total _progress with_progress] in *.
  destruct (started_self pb w) as (_ & _ & Htx & _).
  destruct (started_world pb w) as (_ & Ho & _).
  rewrite Htx, Ho in Hline.
  destruct (line_prefix_in_lines (palette q) (icon q) (_text pb) c
              (int_value (_width pb) - c) (percentage_format_of (clamp pct)) ef
              (fsub (clock (world (started pb w)) (ticks (world (started pb w)))) t0))
    as (E1 & E2).
  exists c, (percentage_format_of (clamp pct)).
  destruct (flt q (float_of_Z 1)).
  - eexists. split; [exact Hrange |]. split.
    + rewrite !len_str_repeat_SYMBOL. lia.
    + rewrite Hline, E1. reflexivity.
  - eexists. split; [exact Hrange |]. split.
    + rewrite !len_str_repeat_SYMBOL. lia.
    + rewrite Hline, E2. reflexivity.
Qed.

(** ** Updates within the total *)











(** ** The range of the ETA *)






(** Readings of a clock that never decreases. *)
Lemma monotone_readings w i k :
  sane_clock w -> monotone_clock w ->
  ulps (clock w i) <= ulps (clock w (i + k)).
Proof.
  intros Hc Hm. induction k as [ | k IH].
  - rewrite Nat.add_0_r. lia.
  - rewrite Nat.add_succ_r.
    pose proof (Hm (i + k)%nat) as Hle.
    rewrite fle_ulps in Hle
      by (apply fin_weaken with 64; [apply Hc | lia]).
    apply Z.leb_le in Hle. lia.
Qed.

Lemma start_before_now pb w :
  sane_clock w -> sane_start pb -> monotone_clock w -> start_in_the_past pb w ->
  ulps (start_time pb w) <= ulps (clock w (ticks (world (started pb w)))).
Proof.
  intros Hc Hs Hm Hp. unfold start_time, started, start_in_the_past, sane_start in *.
  destruct (_start pb) as [t0 | ]; py_step.
  - rewrite fle_ulps in Hp by (apply fin_weaken with 64; [auto | lia]).
    apply Z.leb_le in Hp. exact Hp.
  - pose proof (monotone_readings w (ticks w) 1 Hc Hm) as H.
    rewrite Nat.add_1_r in H. exact H.
Qed.



Lemma display_ticks a b c s :
  exists k, (k <= 2)%nat
            /\ ticks (world (snd (display a b c s))) = (ticks (world s) + k)%nat.
Proof.
  destruct s as [pb w]. rewrite display_eq. cbv zeta. py_step.
  destruct (_start pb); [| py_step; exists 1%nat; lia].
  destruct (eta_of _ _); [| py_step; exists 1%nat; lia].
  destruct (eta_format_of _); [| py_step; exists 1%nat; lia].
  destruct (index_sized b && index_sized c); py_step; [exists 2%nat | exists 1%nat]; lia.
Qed.

(** [update] only moves the clock forward, by at most two readings after the
    one that sets the start time. *)
Lemma update_ticks current pb w :
  exists k, (k <= 2)%nat
    /\ ticks (world (snd (update current {| self := pb; world := w |})))
       = (ticks (world (started pb w)) + k)%nat.
Proof.
  rewrite update_eq. cbv zeta.
  assert (Hleaf : forall (o : outcome unit) p,
            exists k, (k <= 2)%nat
              /\ ticks (world (snd (o, {| self := with_progress p (self (started pb w));
                                          world := world (started pb w) |})))
                 = (ticks (world (started pb w)) + k)%nat)
    by (intros; exists 0%nat; py_step; lia).
  assert (Hdisp : forall a b c p,
            exists k, (k <= 2)%nat
              /\ ticks (world (snd (display a b c
                        {| self := with_progress p (self (started pb w));
                           world := world (started pb w) |})))
                 = (ticks (world (started pb w)) + k)%nat).
  { intros a b c p.
    destruct (display_ticks a b c {| self := with_progress p (self (started pb w));
                                     world := world (started pb w) |}) as (k & Hk).
    exists k. exact Hk. }
  destruct (int_truediv current (int_value (_total pb))) as [q | e];
    [| exists 0%nat; py_step; lia].
  destruct (round_ndigits (fmul q (float_of_Z 100)) 4); [| apply Hleaf].
  destruct (int_to_float (int_value (_width pb))); [| apply Hleaf].
  destruct (round_int (fmul q a0)); [| apply Hleaf].
  destruct (flt q (float_of_Z 0)); [apply Hdisp |].
  destruct (flt (float_of_Z 1) q); [apply Hleaf | apply Hdisp].
Qed.

(** X15. With a clock whose readings never decrease and a start time that
    is not later than the next reading, [elapsed] after any call of [update]
    is not negative. *)
Theorem elapsed_is_not_negative pb w current :
  sane_clock w -> sane_start pb -> monotone_clock w -> start_in_the_past pb w ->
  let s := snd (update current {| self := pb; world := w |}) in
  exists e,
    fst (elapsed s) = Ret e
    /\ e = fsub (clock w (ticks (world s))) (start_time pb w)
    /\ not_negative e /\ flt e (float_of_Z 0) = false.
Proof.
  intros Hc Hs Hm Hp. cbv zeta.
  destruct (update_fields current pb w) as (Hst & _). cbv zeta in Hst.
  pose proof (update_clock current pb w) as Hclock.
  destruct (update_ticks current pb w) as (k & _ & Hk).
  pose proof (start_before_now pb w Hc Hs Hm Hp) as Hle.
  pose proof (monotone_readings w (ticks (world (started pb w))) k Hc Hm) as Hmono.
  rewrite <- Hk in Hmono.
  destruct (snd (update current {| self := pb; world := w |})) as [pb' w'].
  cbn [self world] in *. rewrite elapsed_eq, Hst, Hclock. cbn [fst].
  eexists. split; [reflexivity |]. split; [reflexivity |].
  destruct (started_sane pb w Hc Hs) as (Ht0 & _).
  assert (Hnn : not_negative (fsub (clock w (ticks w')) (start_time pb w))).
  { apply fsub_not_negative; try lia; apply fin_weaken with 64; auto; lia. }
  split; [exact Hnn |].
  destruct (fsub (clock w (ticks w')) (start_time pb w)) as [s | s | | s m e];
    cbn [not_negative] in Hnn; try contradiction; subst; reflexivity.
Qed.

Lemma steady_world_sane : sane_clock steady_world.
Proof.
  intros n. cbn [clock steady_world].
  do 10 (destruct n as [ | n]; [vm_compute; try exact I; (split; [reflexivity | discriminate]) |]).
  destruct n; vm_compute; (split; [reflexivity | discriminate]).
Qed.

Lemma steady_world_monotone : monotone_clock steady_world.
Proof.
  intros n. cbn [clock steady_world].
  do 10 (destruct n as [ | n]; [vm_compute; reflexivity |]).
  destruct n; vm_compute; reflexivity.
Qed.

(** X15 after [update(50)] on a new bar of total 100, with the steady clock. *)
Lemma elapsed_is_not_negative_witness :
  let s := snd (update 50 {| self := fresh 100; world := steady_world |}) in
  exists e,
    fst (elapsed s) = Ret e
    /\ e = fsub (clock steady_world (ticks (world s))) (start_time (fresh 100) steady_world)
    /\ not_negative e /\ flt e (float_of_Z 0) = false.
Proof.
  exact (elapsed_is_not_negative (fresh 100) steady_world 50
           steady_world_sane (fresh_sane 100) steady_world_monotone I).
Defined.


(** ** The percentage *)

Lemma short_numbers :
  forallb (fun k => (List.length (nat_digits k) <=? 3)%nat) (map Z.of_nat (seq 0 101)) = true.
Proof. vm_compute. reflexivity. Qed.

Lemma nat_digits_short k : 0 <= k <= 100 -> (List.length (nat_digits k) <= 3)%nat.
Proof.
  intros Hk.
  assert (Hin : In k (map Z.of_nat (seq 0 101))).
  { apply in_map_iff. exists (Z.to_nat k). split; [lia |]. apply in_seq. lia. }
  pose proof (proj1 (forallb_forall _ _) short_numbers k Hin) as Hc.
  apply Nat.leb_le in Hc. exact Hc.
Qed.

Lemma len_rjust s width : len s <= width -> len (rjust s width) = width.
Proof.
  intros H. unfold rjust, len in *. rewrite length_app, repeat_length. lia.
Qed.

(** A percentage between 0 and 100 fills a field of eight characters. *)
Lemma percentage_format_width pct :
  fin pct 1024 -> 0 <= ulps pct <= 100 * 2 ^ 1074 -> not_negative pct ->
  len (percentage_format_of pct) = 8.
Proof.
  intros Hf Hu Hnn. unfold percentage_format_of.
  assert (Hlen : len (format_2f pct) <= 6).
  { destruct pct as [s | s | | s m e]; cbn [fin not_negative] in Hf, Hnn; try contradiction.
    - destruct s; vm_compute; discriminate.
    - subst s. destruct Hf as [Hb _]. pose proof (canonical_exponent _ _ Hb) as [He _].
      cbn [ulps cond_Zopp] in Hu. unfold format_2f.
      pose proof (pow2_pos 1074 ltac:(lia)) as P.
      assert (Hn : 0 <= scaled_round m e 100 <= 10000).
      { unfold scaled_round. apply div_half_even_le.
        - pose proof (pow2_pos (Z.max e 0) ltac:(lia)). nia.
        - apply pow2_pos. lia.
        - destruct Hu as [_ Hu].
          destruct (Z_le_gt_dec 0 e) as [Hpos | Hneg].
          + replace (Z.max (- e) 0) with 0 by lia. replace (Z.max e 0) with e by lia.
            rewrite Z.pow_0_r, Z.mul_1_r.
            rewrite (pow2_split e 1074), Z.mul_assoc in Hu by lia.
            apply Z.mul_le_mono_pos_r in Hu; auto. lia.
          + replace (Z.max (- e) 0) with (- e) by lia. replace (Z.max e 0) with 0 by lia.
            rewrite Z.pow_0_r, Z.mul_1_r.
            replace 1074 with (- e + (e + 1074)) in Hu at 2 by lia.
            rewrite (pow2_split (- e)), Z.mul_assoc in Hu by lia.
            pose proof (pow2_pos (e + 1074) ltac:(lia)).
            apply Z.mul_le_mono_pos_r in Hu; auto. lia. }
      set (n := scaled_round m e 100) in *.
      destruct (two_digits (n mod 100)) as (d1 & d2 & E & _); [apply Z.mod_pos_bound; lia |].
      rewrite E.
      assert (Hq : 0 <= n / 100 <= 100).
      { split; [apply Z.div_pos; lia | apply Z.div_le_upper_bound; lia]. }
      pose proof (nat_digits_short _ Hq) as Hs.
      unfold len. rewrite !length_app. cbn [List.length lit list_ascii_of_string map]. lia. }
  unfold len in *. rewrite length_app.
  pose proof (len_rjust (format_2f pct) 6 Hlen) as Hr. unfold len in Hr.
  cbn [List.length lit list_ascii_of_string map]. lia.
Qed.

(** A percentage that is not positive is not above 100. *)
Lemma not_positive_below_100 x :
  match x with
  | S754_nan => False
  | S754_zero _ => True
  | S754_infinity s | S754_finite s _ _ => s = true
  end -> fle x (float_of_Z 100) = true.
Proof. destruct x as [s | s | | s m e]; intros H; try contradiction; subst; reflexivity. Qed.

Lemma round_ndigits_negative m e pct :
  bounded prec emax m e = true ->
  round_ndigits (S754_finite true m e) 4 = Ret pct -> fle pct (float_of_Z 100) = true.
Proof.
  intros Hb. unfold round_ndigits. change (10 ^ 4) with 10000.
  destruct (Z.eqb_spec (scaled_round m e 10000) 0) as [E0 | N0].
  - intros H. inversion H. reflexivity.
  - pose proof (scaled_round_dg m e 10000 14 1024 ltac:(lia) ltac:(cbn; lia) ltac:(lia)) as Hsr.
    apply bounded_fin with (s := true) in Hb. destruct Hb as [_ Hmag].
    specialize (Hsr Hmag ltac:(lia)). destruct Hsr as [Hn0 _].
    destruct (exact_int_cond_Zopp true (scaled_round m e 10000) ltac:(lia)) as (p & -> & Hp).
    cbn [exact_int].
    pose proof (fdiv_finite_number true p 0 false 10000 0) as Hnum.
    pose proof (div_core_bounds (Zpos p) 0 (Zpos 10000) 0 ltac:(lia) ltac:(lia)) as H.
    cbv zeta in H. unfold fdiv, SFdiv in *.
    destruct (SFdiv_core_binary prec emax (Zpos p) 0 (Zpos 10000) 0) as [[q e'] l].
    destruct H as (Hq & Hpre & _).
    destruct (bra_valid (xorb true false) q e' l Hq Hpre) as (Hn & _ & Hs).
    destruct (binary_round_aux prec emax (xorb true false) q e' l) as [sr | sr | | sr mr er];
      intros Hret; inversion Hret; subst; cbn [sign_of xorb] in Hs; subst;
      try reflexivity; congruence.
Qed.

Lemma fmul_negative_percent mq eq pct :
  bounded prec emax mq eq = true ->
  round_ndigits (fmul (S754_finite true mq eq) (float_of_Z 100)) 4 = Ret pct ->
  fle pct (float_of_Z 100) = true.
Proof.
  intros Hb. rewrite float_of_Z_100 at 1. unfold fmul, SFmul. cbn [xorb].
  pose proof (bra_valid true (Zpos (mq * 7036874417766400)) (eq + -46) loc_Exact ltac:(lia)
                (fmul_exponents _ _ _ _ Hb bounded_100)) as (Hn & Hv & Hs).
  cbv zeta in Hn, Hv, Hs.
  destruct (binary_round_aux prec emax true (Zpos (mq * 7036874417766400)) (eq + -46) loc_Exact)
    as [s | s | | s m e]; cbn [sign_of] in Hs; subst; try congruence.
  - intros H. inversion H. reflexivity.
  - intros H. inversion H. reflexivity.
  - apply round_ndigits_negative. exact Hv.
Qed.

(** The percentage of a fraction between zero and one. *)
Lemma unit_fraction_percent q :
  fin q 1024 -> 0 <= ulps q <= 2 ^ 1074 ->
  exists pct, round_ndigits (fmul q (float_of_Z 100)) 4 = Ret pct
              /\ fin pct 1024 /\ 0 <= ulps pct <= 100 * 2 ^ 1074 /\ not_negative pct.
Proof.
  intros Hq Hu.
  assert (H100 : fin (float_of_Z 100) 1024) by (apply fin_weaken with 7; [apply fin_100 | lia]).
  assert (Hu100 : ulps (float_of_Z 100) = 100 * 2 ^ 1074) by reflexivity.
  destruct (fmul_le_one q (float_of_Z 100) Hq H100 Hu
              ltac:(rewrite Hu100; pose proof (pow2_pos 1074 ltac:(lia)); lia)) as (Hf & Hb).
  rewrite Hu100 in Hb.
  apply round_ndigits_percent; auto. apply not_negative_ulps; [exact Hf | lia].
Qed.

(** X16. On every call of [update] that prints, the percentage shown is
    [round(fraction * 100, 4)] itself: it is at most 100 already, so line 152
    changes nothing. When the fraction is not negative the percentage is
    between 0 and 100 and its field, [rjust(6)] followed by a space and a
    percent sign, is exactly eight characters wide. *)
Theorem percentage_is_never_clamped pb w current :
  let r := update current {| self := pb; world := w |} in
  fst r = Ret tt -> stdout (world (snd r)) <> stdout w ->
  exists q percentage,
    int_truediv current (int_value (_total pb)) = Ret q
    /\ round_ndigits (fmul q (float_of_Z 100)) 4 = Ret percentage
    /\ fle percentage (float_of_Z 100) = true
    /\ clamp percentage = percentage
    /\ (flt q (float_of_Z 0) = false ->
        fle (float_of_Z 0) percentage = true
        /\ len (percentage_format_of percentage) = 8)
    /\ exists p completed rest,
         stdout (world (snd r))
         = stdout w ++ [line_prefix (palette p) (icon p) (_text pb) completed
                          (int_value (_width pb) - completed)
                          (percentage_format_of percentage) ++ rest].
Proof.
  cbv zeta. intros Hret Hprinted.
  destruct (update_returns current pb w Hret)
    as (q & pct & wf & c & Hq & Hpct & Hwf & Hc & [(_ & _ & _ & Hsame) | (p & Hp & Hbranch & Hr)]).
  { congruence. }
  exists q, pct. split; [exact Hq |]. split; [exact Hpct |].
  pose proof (int_truediv_number _ _ _ Hq) as Hfq.
  assert (Hle : fle pct (float_of_Z 100) = true
                /\ (flt q (float_of_Z 0) = false ->
                    fle (float_of_Z 0) pct = true /\ len (percentage_format_of pct) = 8)).
  { destruct (flt q (float_of_Z 0)) eqn:Eneg.
    - split; [| discriminate].
      rewrite (flt_ulps _ _ Hfq fin_zero_1024) in Eneg.
      change (ulps (float_of_Z 0)) with 0 in Eneg. apply Z.ltb_lt in Eneg.
      destruct q as [sq | sq | | sq mq eq]; cbn [fin] in Hfq; try contradiction;
        [cbn [ulps] in Eneg; lia |].
      destruct Hfq as [Hb _]. pose proof (ulps_neg_sign sq _ _ Hb Eneg) as ->.
      apply (fmul_negative_percent mq eq); assumption.
    - destruct Hbranch as [Hn | Hgt]; [discriminate |].
      pose proof (unit_tests_inv q Hfq Eneg Hgt) as Hu.
      destruct (unit_fraction_percent q Hfq Hu) as (pct' & Hpct' & Hfp & Hup & Hnn).
      rewrite Hpct in Hpct'. inversion Hpct'; subst pct'.
      assert (H100 : fin (float_of_Z 100) 1024)
        by (apply fin_weaken with 7; [apply fin_100 | lia]).
      assert (E100 : fle pct (float_of_Z 100) = true).
      { rewrite (fle_ulps _ _ Hfp H100). apply Z.leb_le.
        change (ulps (float_of_Z 100)) with (100 * 2 ^ 1074). lia. }
      split; [exact E100 |]. intros _. split.
      + rewrite (fle_ulps _ _ fin_zero_1024 Hfp). apply Z.leb_le.
        change (ulps (float_of_Z 0)) with 0. lia.
      + apply percentage_format_width; assumption. }
  destruct Hle as (Hle & Hrange).
  assert (Hcl : clamp pct = pct) by (unfold clamp; rewrite Hle; reflexivity).
  split; [exact Hle |]. split; [exact Hcl |]. split; [exact Hrange |].
  rewrite Hr in Hret |- *. rewrite Hcl in *.
  destruct (display_returns _ _ _ _ _ Hret) as (t0 & eta & ef & _ & _ & _ & _ & Hline).
  cbn [self world _start _text _width _total _progress with_progress] in *.
  destruct (started_self pb w) as (_ & _ & Htx & _).
  destruct (started_world pb w) as (_ & Ho & _).
  rewrite Htx, Ho in Hline.
  destruct (line_prefix_in_lines (palette p) (icon p) (_text pb) c
              (int_value (_width pb) - c) (percentage_format_of pct) ef
              (fsub (clock (world (started pb w)) (ticks (world (started pb w)))) t0))
    as (E1 & E2).
  exists p, c. rewrite Hline.
  destruct (flt p (float_of_Z 1)); [rewrite E1 | rewrite E2]; eexists; reflexivity.
Qed.

(** X17. Whatever its argument and its outcome, [update] leaves [total],
    the label and the width as they were and does not change the clock; the
    start time is set by the first call and kept by every later one; and a
    call reads the clock at most three times. *)
Theorem update_keeps_configuration pb w current :
  let r := update current {| self := pb; world := w |} in
  total (self (snd r)) = total pb
  /\ text (self (snd r)) = text pb
  /\ width (self (snd r)) = width pb
  /\ _start (self (snd r)) = Some (start_time pb w)
  /\ (forall t0, _start pb = Some t0 -> _start (self (snd r)) = Some t0)
  /\ clock (world (snd r)) = clock w
  /\ (ticks w <= ticks (world (snd r)) <= ticks w + 3)%nat.
Proof.
  cbv zeta.
  destruct (update_fields current pb w) as (Hs & Ht & Hx & Hw). cbv zeta in Hs, Ht, Hx, Hw.
  pose proof (update_clock current pb w) as Hc.
  destruct (update_ticks current pb w) as (k & Hk & Htk).
  destruct (started_world pb w) as (_ & _ & _ & Hst).
  unfold total, text, width. rewrite Hs, Ht, Hx, Hw, Hc, Htk, Hst.
  repeat split; auto.
  - intros t0 E. unfold start_time. rewrite E. reflexivity.
  - destruct (_start pb); lia.
  - destruct (_start pb); lia.
Qed.

(** X10 at [update(50)] on a new bar of total 100. *)
Lemma cells_fill_the_width_witness :
  exists completed percentage_format rest,
    0 <= completed <= int_value (_width (fresh 100))
    /\ len (str_repeat SYMBOL completed)
       + len (str_repeat SYMBOL (int_value (_width (fresh 100)) - completed))
       = int_value (_width (fresh 100))
    /\ stdout (world (snd (update 50 {| self := fresh 100; world := demo_world |})))
       = stdout demo_world
           ++ [line_prefix
                 (palette (_progress (self (snd (update 50 {| self := fresh 100;
                                                               world := demo_world |})))))
                 (icon (_progress (self (snd (update 50 {| self := fresh 100;
                                                            world := demo_world |})))))
                 (_text (fresh 100)) completed
                 (int_value (_width (fresh 100)) - completed) percentage_format ++ rest].
Proof.
  exact (cells_fill_the_width (fresh 100) demo_world 50
           ltac:(cbn; lia) ltac:(cbn; lia) ltac:(vm_compute; split; [discriminate | reflexivity])
           eq_refl).
Defined.

(** X16 at [update(50)] on a new bar of total 100. *)
Lemma percentage_is_never_clamped_witness :
  exists q percentage,
    int_truediv 50 (int_value (_total (fresh 100))) = Ret q
    /\ round_ndigits (fmul q (float_of_Z 100)) 4 = Ret percentage
    /\ fle percentage (float_of_Z 100) = true
    /\ clamp percentage = percentage
    /\ (flt q (float_of_Z 0) = false ->
        fle (float_of_Z 0) percentage = true
        /\ len (percentage_format_of percentage) = 8)
    /\ exists p completed rest,
         stdout (world (snd (update 50 {| self := fresh 100; world := demo_world |})))
         = stdout demo_world
             ++ [line_prefix (palette p) (icon p) (_text (fresh 100)) completed
                   (int_value (_width (fresh 100)) - completed)
                   (percentage_format_of percentage) ++ rest].
Proof.
  exact (percentage_is_never_clamped (fresh 100) demo_world 50 eq_refl
           ltac:(vm_compute; discriminate)).
Defined.



(** ** Cell counts beyond the index range *)

(** A [display] whose cell counts are not both index-sized raises, at the
    latest when the runs of cells are built. *)
Lemma display_oversized percentage completed remaining pb w :
  index_sized completed && index_sized remaining = false ->
  let r := display percentage completed remaining {| self := pb; world := w |} in
  (exists e, fst r = Raise e)
  /\ stdout (world (snd r)) = stdout w
  /\ LAST (self (snd r)) = LAST pb
  /\ forall t0 eta ef,
       _start pb = Some t0 ->
       eta_of (fsub (clock w (ticks w)) t0) (_progress pb) = Ret eta ->
       eta_format_of eta = Ret ef ->
       fst r = Raise OverflowError
       /\ cursor_visible (world (snd r)) = is_done (_progress pb).
Proof.
  intros Hbig. cbv zeta. rewrite display_eq. cbv zeta. rewrite Hbig.
  destruct (_start pb) as [t0 | ] eqn:Es.
  - destruct (eta_of (fsub (clock w (ticks w)) t0) (_progress pb)) as [eta | e] eqn:Ee.
    + destruct (eta_format_of eta) as [ef | e] eqn:Ef; py_step.
      * split; [eauto |]. split; [reflexivity |]. split; [reflexivity |].
        intros t0' eta' ef' _ _ _. auto.
      * split; [eauto |]. split; [reflexivity |]. split; [reflexivity |].
        intros t0' eta' ef' E1 E2 E3. inversion E1; subst t0'.
        rewrite Ee in E2. inversion E2; subst eta'. congruence.
    + py_step. split; [eauto |]. split; [reflexivity |]. split; [reflexivity |].
      intros t0' eta' ef' E1 E2 E3. inversion E1; subst t0'. congruence.
  - py_step. split; [eauto |]. split; [reflexivity |]. split; [reflexivity |].
    intros t0' eta' ef' E1. discriminate.
Qed.

(** X18. When one of the two cell counts of lines 147 and 148 is not an
    index-sized integer (it is below [-2^63] or at least [2^63]), the call
    prints nothing and does not assign [LAST]; unless the fraction is above
    1, in which case the call returns before the cells are built, it
    raises. When the oversized count is [completed], or [completed] is at
    most [2^20], and the ETA has been computed and formatted, what it raises
    is the [OverflowError] of [SYMBOL * n], with the cursor already switched
    for the stored fraction. *)
Theorem oversized_cells_print_nothing pb w current q wf completed :
  int_truediv current (int_value (_total pb)) = Ret q ->
  int_to_float (int_value (_width pb)) = Ret wf ->
  round_int (fmul q wf) = Ret completed ->
  index_sized completed && index_sized (int_value (_width pb) - completed) = false ->
  let r := update current {| self := pb; world := w |} in
  let p := if flt q (float_of_Z 0) then eps else q in
  let elapsed := fsub (clock (world (started pb w)) (ticks (world (started pb w))))
                      (start_time pb w) in
  stdout (world (snd r)) = stdout w
  /\ LAST (self (snd r)) = LAST pb
  /\ (flt (float_of_Z 1) q = false ->
      (exists e, fst r = Raise e)
      /\ (index_sized completed = false \/ completed <= max_cells ->
          forall eta ef,
            eta_of elapsed p = Ret eta -> eta_format_of eta = Ret ef ->
            fst r = Raise OverflowError
            /\ cursor_visible (world (snd r)) = is_done p)).
Proof.
  intros Hq Hwf Hcomp Hbig. cbv zeta.
  destruct (started_self pb w) as (Hst & _ & _ & _ & _ & Hl).
  destruct (started_world pb w) as (_ & Ho & _).
  destruct (percentage_total _ _ _ Hq) as (pct & Hpct).
  rewrite update_eq, Hq. cbv zeta. rewrite Hpct, Hwf, Hcomp.
  assert (Hdisp : forall p,
            let r := display (clamp pct) completed (int_value (_width pb) - completed)
                       {| self := with_progress p (self (started pb w));
                          world := world (started pb w) |} in
            stdout (world (snd r)) = stdout w
            /\ LAST (self (snd r)) = LAST pb
            /\ (exists e, fst r = Raise e)
            /\ forall eta ef,
                 eta_of (fsub (clock (world (started pb w)) (ticks (world (started pb w))))
                              (start_time pb w)) p = Ret eta ->
                 eta_format_of eta = Ret ef ->
                 fst r = Raise OverflowError
                 /\ cursor_visible (world (snd r)) = is_done p).
  { intros p. cbv zeta.
    destruct (display_oversized (clamp pct) completed (int_value (_width pb) - completed)
                (with_progress p (self (started pb w))) (world (started pb w)) Hbig)
      as (D1 & D2 & D3 & D4).
    cbv zeta in D1, D2, D3, D4. cbn [LAST _start _progress with_progress] in D3, D4.
    rewrite D2, D3, Ho, Hl. split; [reflexivity |]. split; [reflexivity |].
    split; [exact D1 |]. intros eta ef Eeta Eef.
    exact (D4 _ eta ef Hst Eeta Eef). }
  destruct (flt q (float_of_Z 0)) eqn:Eneg.
  - destruct (Hdisp eps) as (D1 & D2 & D3 & D4). cbv zeta in D1, D2, D3, D4.
    split; [exact D1 |]. split; [exact D2 |]. intros _. split; [exact D3 | intros _; exact D4].
  - destruct (flt (float_of_Z 1) q) eqn:Egt.
    + py_step. split; [exact Ho |]. split; [exact Hl |]. discriminate.
    + destruct (Hdisp q) as (D1 & D2 & D3 & D4). cbv zeta in D1, D2, D3, D4.
      split; [exact D1 |]. split; [exact D2 |]. intros _. split; [exact D3 | intros _; exact D4].
Qed.

(** X18 at [update(1)] on a new bar of total 1 and width [2^63]: the cursor
    has been shown, and nothing is printed. *)
Lemma oversized_cells_print_nothing_witness :
  let r := update 1 {| self := long_bar 1; world := demo_world |} in
  stdout (world (snd r)) = stdout demo_world
  /\ LAST (self (snd r)) = LAST (long_bar 1)
  /\ fst r = Raise OverflowError
  /\ cursor_visible (world (snd r)) = true.
Proof.
  destruct (oversized_cells_print_nothing (long_bar 1) demo_world 1 (float_of_Z 1)
              (float_of_Z (2 ^ 63)) (2 ^ 63) eq_refl eq_refl eq_refl eq_refl)
    as (H1 & H2 & H3).
  destruct (H3 eq_refl) as (_ & H4).
  destruct (H4 (or_introl eq_refl) (float_of_Z 1) (lit "00:01") eq_refl eq_refl) as (H5 & H6).
  split; [exact H1 |]. split; [exact H2 |]. split; [exact H5 | exact H6].
Defined.
